(** * lnurl: the bech32 codec ([lnurl/tools.py]) and the response models
      ([lnurl/models.py])

    A shallow embedding of the two source files and of the library
    functions they call, followed by the properties of the codec and of
    the response classifier. *)

From Stdlib Require Import ZArith List String Ascii Bool Lia Btauto.
From stdpp Require Import gmap strings.
Import ListNotations.

Local Open Scope string_scope.
Local Open Scope list_scope.
Local Open Scope Z_scope.

(** ** Python values shared by both source files *)

Module Py.

(** Exceptions that the modelled code can raise.  [ValueError] carries
    its message and pydantic's [ValidationError] the list of its errors,
    each the location (the field's alias) and the message; the others are
    told apart by their class only.  [LnurlResponseException] is the
    class of [lnurl/exceptions.py]. *)
Inductive exception : Type :=
| ValueError (msg : string)
| TypeError
| IndexError
| KeyError
| AttributeError
| ZeroDivisionError
| OverflowError
| UnicodeEncodeError
| UnicodeDecodeError
| ValidationError (errors : list (string * string))
| LnurlResponseException.

Inductive result (A : Type) : Type :=
| Ok (a : A)
| Raise (e : exception).
Arguments Ok {A} a.
Arguments Raise {A} e.

Definition bind {A B} (r : result A) (k : A -> result B) : result B :=
  match r with
  | Ok a => k a
  | Raise e => Raise e
  end.

Fixpoint mapM {A B} (f : A -> result B) (l : list A) : result (list B) :=
  match l with
  | [] => Ok []
  | a :: l' => bind (f a) (fun b => bind (mapM f l') (fun bs => Ok (b :: bs)))
  end.

(** A [str] is a Rocq [string] holding the UTF-8 encoding of the text, as
    Rocq's own string literals do; [bytes] is a list of integers.  ASCII
    characters are one byte each, so indices and lengths of ASCII strings
    agree with Python's. *)
Definition ord (c : ascii) : Z := Z.of_N (N_of_ascii c).
Definition chr (z : Z) : ascii := ascii_of_N (Z.to_N z).

Definition str_bytes (s : string) : list Z := map ord (list_ascii_of_string s).
Definition bytes_str (bs : list Z) : string := string_of_list_ascii (map chr bs).

Definition in_range (lo hi b : Z) : bool := (lo <=? b) && (b <=? hi).

(** Well-formed UTF-8 byte sequences (Unicode, table 3-7): what
    [bytes.decode('utf-8')] accepts. *)
Fixpoint utf8_valid (bs : list Z) : bool :=
  match bs with
  | [] => true
  | b0 :: r0 =>
      if in_range 0x00 0x7F b0 then utf8_valid r0
      else if in_range 0xC2 0xDF b0 then
        match r0 with
        | b1 :: r1 => in_range 0x80 0xBF b1 && utf8_valid r1
        | _ => false
        end
      else if in_range 0xE0 0xEF b0 then
        match r0 with
        | b1 :: b2 :: r2 =>
            in_range (if b0 =? 0xE0 then 0xA0 else 0x80)
                     (if b0 =? 0xED then 0x9F else 0xBF) b1
            && in_range 0x80 0xBF b2 && utf8_valid r2
        | _ => false
        end
      else if in_range 0xF0 0xF4 b0 then
        match r0 with
        | b1 :: b2 :: b3 :: r3 =>
            in_range (if b0 =? 0xF0 then 0x90 else 0x80)
                     (if b0 =? 0xF4 then 0x8F else 0xBF) b1
            && in_range 0x80 0xBF b2 && in_range 0x80 0xBF b3 && utf8_valid r3
        | _ => false
        end
      else false
  end.

(** [s.encode('utf-8')]: fails on text that has no UTF-8 encoding (lone
    surrogates), which in this model is a string that is not well-formed
    UTF-8. *)
Definition encode_utf8 (s : string) : result (list Z) :=
  if utf8_valid (str_bytes s) then Ok (str_bytes s) else Raise UnicodeEncodeError.

(** [bs.decode('utf-8')] *)
Definition decode_utf8 (bs : list Z) : result string :=
  if utf8_valid bs then Ok (bytes_str bs) else Raise UnicodeDecodeError.

(** [bytes(l)]: [None] is not convertible, and every element has to be in
    [range(0, 256)]. *)
Definition bytes (l : option (list Z)) : result (list Z) :=
  match l with
  | None => Raise TypeError
  | Some l =>
      if forallb (in_range 0 255) l then Ok l
      else Raise (ValueError "bytes must be in range(0, 256)")
  end.

(** [str.lower] and [str.upper].  Only the ASCII letters are mapped; the
    source applies them to ASCII strings, and to the [status] field, where
    the result is only compared with an ASCII word. *)
Definition lower_char (c : ascii) : ascii :=
  if in_range 65 90 (ord c) then chr (ord c + 32) else c.
Definition upper_char (c : ascii) : ascii :=
  if in_range 97 122 (ord c) then chr (ord c - 32) else c.

Fixpoint str_map (f : ascii -> ascii) (s : string) : string :=
  match s with
  | EmptyString => EmptyString
  | String c s' => String (f c) (str_map f s')
  end.

Definition lower : string -> string := str_map lower_char.
Definition upper : string -> string := str_map upper_char.

Definition len (s : string) : Z := Z.of_nat (String.length s).

(** [s.startswith(p)] *)
Definition startswith (s p : string) : bool := String.prefix p s.

(** [s.replace(old, new)] for a non-empty [old]: every occurrence, from
    the left, without overlap.  [skip] counts the characters of a match
    that remain to be dropped. *)
Fixpoint replace_from (old new : string) (skip : nat) (s : string) : string :=
  match s with
  | EmptyString => EmptyString
  | String c s' =>
      match skip with
      | S k => replace_from old new k s'
      | O =>
          if String.prefix old s
          then new +:+ replace_from old new (String.length old - 1) s'
          else String c (replace_from old new O s')
      end
  end.
Definition replace (s old new : string) : string := replace_from old new O s.

(** [s.rfind(c)] for a single character [c]: the highest index, or -1. *)
Fixpoint rfind_from (c : ascii) (s : string) (i last : Z) : Z :=
  match s with
  | EmptyString => last
  | String a s' => rfind_from c s' (i + 1) (if Ascii.eqb a c then i else last)
  end.
Definition rfind (s : string) (c : ascii) : Z := rfind_from c s 0 (-1).

(** [s.find(c)] for a single character [c]: the lowest index, or -1. *)
Fixpoint find_from (c : ascii) (s : string) (i : Z) : Z :=
  match s with
  | EmptyString => -1
  | String a s' => if Ascii.eqb a c then i else find_from c s' (i + 1)
  end.
Definition find (s : string) (c : ascii) : Z := find_from c s 0.

(** [c in s] for a single character [c] *)
Definition contains (s : string) (c : ascii) : bool := negb (find s c =? -1).

(** Slices [s[:n]] and [s[n:]] for [0 <= n]. *)
Fixpoint str_take (n : nat) (s : string) : string :=
  match n, s with
  | S k, String c s' => String c (str_take k s')
  | _, _ => EmptyString
  end.
Fixpoint str_drop (n : nat) (s : string) : string :=
  match n, s with
  | S k, String _ s' => str_drop k s'
  | _, _ => s
  end.

Fixpoint str_forallb (p : ascii -> bool) (s : string) : bool :=
  match s with
  | EmptyString => true
  | String c s' => p c && str_forallb p s'
  end.

(** Text made of the printable ASCII characters, space to tilde. *)
Definition isprintable (s : string) : bool :=
  str_forallb (fun c => in_range 32 126 (ord c)) s.

(** [s[i]] with Python's negative indices. *)
Definition str_index (s : string) (i : Z) : result ascii :=
  let n := len s in
  let j := if i <? 0 then i + n else i in
  if (0 <=? j) && (j <? n) then
    match String.get (Z.to_nat j) s with
    | Some c => Ok c
    | None => Raise IndexError
    end
  else Raise IndexError.

End Py.

(** ** The [bech32] package imported by [tools.py]

    [bech32_encode], [bech32_decode] and [convertbits] are the reference
    implementation of BIP-173, transcribed statement by statement. *)

Module Bech32.
Import Py.

Definition CHARSET : string := "qpzry9x8gf2tvdw0s3jn54khce6mua7l".

Definition generator : list Z :=
  [0x3b6a57b2; 0x26508e6d; 0x1ea119fa; 0x3d4233dd; 0x2a1462b3].

(** One round of the loop of [bech32_polymod], the inner loop over
    [range(5)] being a fold over the generator with its index. *)
Definition polymod_step (chk value : Z) : Z :=
  let top := Z.shiftr chk 25 in
  let chk := Z.lxor (Z.shiftl (Z.land chk 0x1ffffff) 5) value in
  fold_left
    (fun chk '(i, g) =>
       Z.lxor chk (if Z.land (Z.shiftr top i) 1 =? 0 then 0 else g))
    (combine [0; 1; 2; 3; 4] generator) chk.

Definition bech32_polymod (values : list Z) : Z :=
  fold_left polymod_step values 1.

Definition bech32_hrp_expand (hrp : string) : list Z :=
  map (fun x => Z.shiftr (ord x) 5) (list_ascii_of_string hrp)
    ++ [0] ++ map (fun x => Z.land (ord x) 31) (list_ascii_of_string hrp).

Definition bech32_verify_checksum (hrp : string) (data : list Z) : bool :=
  bech32_polymod (bech32_hrp_expand hrp ++ data) =? 1.

Definition bech32_create_checksum (hrp : string) (data : list Z) : list Z :=
  let values := bech32_hrp_expand hrp ++ data in
  let polymod := Z.lxor (bech32_polymod (values ++ [0; 0; 0; 0; 0; 0])) 1 in
  map (fun i => Z.land (Z.shiftr polymod (5 * (5 - i))) 31) [0; 1; 2; 3; 4; 5].

Definition bech32_encode (hrp : string) (data : list Z) : result string :=
  let combined := data ++ bech32_create_checksum hrp data in
  bind (mapM (str_index CHARSET) combined) (fun cs =>
  Ok (hrp +:+ "1" +:+ string_of_list_ascii cs)).

(** The reference implementation refuses a string of more than 90
    characters; releases of the package differ in whether they keep that
    test, so the ceiling is a parameter, [None] when there is none. *)
Class LengthCeiling : Type := max_length : option Z.

Definition bip173_ceiling : LengthCeiling := Some 90.

Definition too_long `{LC : LengthCeiling} (n : Z) : bool :=
  match max_length with
  | Some ceiling => n >? ceiling
  | None => false
  end.

(** Returns the pair [(hrp, data)], or [(None, None)]. *)
Definition bech32_decode `{LC : LengthCeiling} (bech : string)
  : option string * option (list Z) :=
  if negb (str_forallb (fun x => negb ((ord x <? 33) || (ord x >? 126))) bech)
     || (negb (String.eqb (lower bech) bech) && negb (String.eqb (upper bech) bech))
  then (None, None)
  else
    let bech := lower bech in
    let pos := rfind bech "1"%char in
    if (pos <? 1) || (pos + 7 >? len bech) || too_long (len bech)
    then (None, None)
    else
      let rest := str_drop (Z.to_nat (pos + 1)) bech in
      if negb (str_forallb (contains CHARSET) rest) then (None, None)
      else
        let hrp := str_take (Z.to_nat pos) bech in
        let data := map (find CHARSET) (list_ascii_of_string rest) in
        if negb (bech32_verify_checksum hrp data) then (None, None)
        else (Some hrp, Some (firstn (length data - 6) data)).

(** The [while bits >= tobits] loop of [convertbits]; it runs
    [bits / tobits] times, which [fuel] bounds. *)
Fixpoint drain (fuel : nat) (acc bits tobits maxv : Z) (ret : list Z)
  : Z * list Z :=
  match fuel with
  | O => (bits, ret)
  | S fuel' =>
      if bits >=? tobits then
        let bits := bits - tobits in
        drain fuel' acc bits tobits maxv (ret ++ [Z.land (Z.shiftr acc bits) maxv])
      else (bits, ret)
  end.

(** The [for value in data] loop of [convertbits] on the state
    [(acc, bits, ret)]; [None] is the early [return None]. *)
Fixpoint convert_loop (data : list Z) (frombits tobits maxv max_acc : Z)
         (acc bits : Z) (ret : list Z) : option (Z * Z * list Z) :=
  match data with
  | [] => Some (acc, bits, ret)
  | value :: data' =>
      if (value <? 0) || negb (Z.shiftr value frombits =? 0) then None
      else
        let acc := Z.land (Z.lor (Z.shiftl acc frombits) value) max_acc in
        let bits := bits + frombits in
        let '(bits, ret) := drain (Z.to_nat bits) acc bits tobits maxv ret in
        convert_loop data' frombits tobits maxv max_acc acc bits ret
  end.

Definition convertbits (data : list Z) (frombits tobits : Z) (pad : bool)
  : option (list Z) :=
  let maxv := Z.shiftl 1 tobits - 1 in
  let max_acc := Z.shiftl 1 (frombits + tobits - 1) - 1 in
  match convert_loop data frombits tobits maxv max_acc 0 0 [] with
  | None => None
  | Some (acc, bits, ret) =>
      if pad then
        if negb (bits =? 0)
        then Some (ret ++ [Z.land (Z.shiftl acc (tobits - bits)) maxv])
        else Some ret
      else if (bits >=? frombits)
              || negb (Z.land (Z.shiftl acc (tobits - bits)) maxv =? 0)
      then None
      else Some ret
  end.

End Bech32.

(** ** [lnurl/tools.py] *)

Module Tools.
Import Py Bech32.

(** The f-string rendering of an optional prefix. *)
Definition format_hrp (hrp : option string) : string :=
  match hrp with
  | Some h => h
  | None => "None"
  end.

(** [allowed_hrp] is a set of strings, or [None]. *)
Definition _bech32_decode `{LC : LengthCeiling} (bech32 : string)
           (allowed_hrp : option (list string))
  : result (string * list Z) :=
  let '(hrp, data) := bech32_decode bech32 in
  let invalid :=
    Raise (ValueError ("Invalid Human Readable Prefix (HRP): " +:+ format_hrp hrp +:+ ".")) in
  match hrp, data with
  | Some h, Some d =>
      match allowed_hrp with
      | Some ((_ :: _) as allowed) =>
          if negb (existsb (String.eqb h) allowed) then invalid else Ok (h, d)
      | _ => Ok (h, d)
      end
  | _, _ => invalid
  end.

(** The first statement of [_lnurl_decode]. *)
Definition stripped (lnurl : string) : string :=
  if startswith lnurl "lightning:" then replace lnurl "lightning:" "" else lnurl.

Definition _lnurl_decode `{LC : LengthCeiling} (lnurl : string) : result string :=
  let lnurl := stripped lnurl in
  bind (_bech32_decode lnurl (Some ["lnurl"])) (fun '(hrp, data) =>
  match bind (bytes (convertbits data 5 8 false)) decode_utf8 with
  | Raise UnicodeDecodeError => Raise (ValueError "Invalid LNURL.")
  | r => r
  end).

Definition _url_encode (url : string) : result string :=
  let encoded :=
    bind (encode_utf8 url) (fun bs =>
    match convertbits bs 8 5 true with
    | None => Raise TypeError
    | Some data => bech32_encode "lnurl" data
    end) in
  match encoded with
  | Raise UnicodeEncodeError => Raise (ValueError "Invalid URL.")
  | Raise e => Raise e
  | Ok lnurl => Ok (upper lnurl)
  end.

End Tools.

(** ** Numbers: [int / int], [math.ceil], [math.floor] *)

Module PyFloat.
Import Py.

(** A finite binary64 value, [mant * 2 ^ expo] with [|mant| <= 2 ^ 53]. *)
Record float : Type := { mant : Z; expo : Z }.

(** The integer nearest to [n / d], ties to even, for [0 < d]. *)
Definition round_half_even (n d : Z) : Z :=
  let q := n / d in
  let r := n mod d in
  if 2 * r <? d then q
  else if 2 * r >? d then q + 1
  else if Z.even q then q else q + 1.

(** For [0 < n] and [0 < d], the exponent [e] of the last place of the
    quotient: [2 ^ 52 <= n / (d * 2 ^ e) < 2 ^ 53]. *)
Definition quotient_exponent (n d : Z) : Z :=
  let l := Z.log2 n - Z.log2 d in
  if (if 0 <=? l then d * 2 ^ l <=? n else d <=? n * 2 ^ (- l))
  then l - 52 else l - 53.

(** [a / b] on integers: the quotient correctly rounded to binary64
    (53 bits, ties to even, subnormals below [2 ^ -1022]). *)
Definition true_div (a b : Z) : result float :=
  if b =? 0 then Raise ZeroDivisionError
  else
    let n := Z.abs a in
    let d := Z.abs b in
    if n =? 0 then Ok {| mant := 0; expo := 0 |}
    else
      let e := Z.max (quotient_exponent n d) (-1074) in
      let m := if 0 <=? e then round_half_even n (d * 2 ^ e)
               else round_half_even (n * 2 ^ (- e)) d in
      if (0 <=? e) && (2 ^ 1024 <=? m * 2 ^ e) then Raise OverflowError
      else Ok {| mant := Z.sgn a * Z.sgn b * m; expo := e |}.

(** [math.ceil] and [math.floor] of a finite float, as integers. *)
Definition ceil (x : float) : Z :=
  if 0 <=? expo x then mant x * 2 ^ expo x
  else - ((- mant x) / 2 ^ (- expo x)).

Definition floor (x : float) : Z :=
  if 0 <=? expo x then mant x * 2 ^ expo x
  else mant x / 2 ^ (- expo x).

End PyFloat.

(** ** JSON-decoded values and the parts of pydantic that [models.py] uses *)

Module Pydantic.
Import Py.

(** What [json.loads] produces; a float is [m * 2 ^ e]. *)
#[local] Set Warnings "-register-all".
Inductive value : Type :=
| VNone
| VBool (b : bool)
| VInt (z : Z)
| VFloat (m e : Z)
| VStr (s : string)
| VList (l : list value)
| VDict (kvs : list (string * value)).

(** The outcome of validating one field. *)
Inductive validation (A : Type) : Type :=
| Valid (a : A)
| Invalid (msg : string).
Arguments Valid {A} a.
Arguments Invalid {A} msg.

Definition and_then {A B} (r : validation A) (k : A -> validation B) : validation B :=
  match r with
  | Valid a => k a
  | Invalid msg => Invalid msg
  end.

Definition valid_value {A} (r : validation A) : option A :=
  match r with
  | Valid a => Some a
  | Invalid _ => None
  end.

(** The settings of [BaseModel.Config] that matter here, and pydantic's
    defaults for them. *)
Record Config : Type := {
  allow_population_by_field_name : bool;
  allow_mutation : bool;
  validate_assignment : bool
}.

Definition BaseConfig : Config :=
  {| allow_population_by_field_name := false;
     allow_mutation := true;
     validate_assignment := false |}.

(** The value given for a field: under its alias, else, when the
    configuration allows it, under its name. *)
Definition get_value (cfg : Config) (alias name : string)
           (data : gmap string value) : option value :=
  match data !! alias with
  | Some v => Some v
  | None => if allow_population_by_field_name cfg then data !! name else None
  end.

(** A field without a default is required. *)
Definition validate_field {A} (cfg : Config) (alias name : string)
           (default : option A) (validator : value -> validation A)
           (data : gmap string value) : validation A :=
  match get_value cfg alias name data with
  | Some v => validator v
  | None =>
      match default with
      | Some a => Valid a
      | None => Invalid "field required"
      end
  end.

(** The error that a field contributes to a [ValidationError]. *)
Definition error_of {A} (alias : string) (r : validation A) : list (string * string) :=
  match r with
  | Valid _ => []
  | Invalid msg => [(alias, msg)]
  end.

(** [Literal[lit]] *)
Definition literal (lit : string) (v : value) : validation string :=
  match v with
  | VStr s => if String.eqb s lit then Valid lit
              else Invalid ("unexpected value; permitted: '" +:+ lit +:+ "'")
  | _ => Invalid ("unexpected value; permitted: '" +:+ lit +:+ "'")
  end.

(** [Optional[T]] *)
Definition optional {A} (validator : value -> validation A) (v : value)
  : validation (option A) :=
  match v with
  | VNone => Valid None
  | _ => and_then (validator v) (fun a => Valid (Some a))
  end.

(** [BaseModel.__setattr__]: refused on an immutable model, validated
    when the configuration asks for it, and a plain store otherwise. *)
Definition setattr {M} (cfg : Config) (validate : M -> result M)
           (store : M -> M) (self : M) : result M :=
  if negb (allow_mutation cfg) then Raise TypeError
  else if validate_assignment cfg then validate (store self)
  else Ok (store self).

(** A class called with the keyword arguments of a mapping, as in
    [LnurlErrorResponse] applied to the unpacked [d].  Python binds the
    keywords to the parameters of pydantic's [BaseModel.__init__], whose
    first parameter is named [__pydantic_self__] and whose other
    parameters are the keywords themselves: a key [__pydantic_self__] is a
    second value for the first parameter, and the call raises [TypeError]
    before any field is validated.  Otherwise the fields are validated
    ([validate_model]). *)
Definition init {A} (validate_model : gmap string value -> result A)
           (kwargs : gmap string value) : result A :=
  match kwargs !! "__pydantic_self__" with
  | Some _ => Raise TypeError
  | None => validate_model kwargs
  end.

(** The validators of the field types whose definition is not in the two
    source files: the scalar types of [lnurl/types.py], pydantic's
    coercion of a value that is not a string to [str], and its validators
    for the two nested models of [LnurlPayActionResponse]. *)
Class FieldTypes : Type := {
  HttpsUrl : value -> validation string;
  LightningInvoice : value -> validation string;
  LightningNodeUri : value -> validation string;
  LnurlPayMetadata : value -> validation string;
  MilliSatoshi : value -> validation Z;
  str_coerce : value -> validation string;
  SuccessAction : Type;
  success_action_validate : value -> validation SuccessAction;
  Route : Type;
  routes_validate : value -> validation (list Route)
}.

(** [str]: a string is taken as it is, [None] is refused. *)
Definition str `{FT : FieldTypes} (v : value) : validation string :=
  match v with
  | VStr s => Valid s
  | VNone => Invalid "none is not an allowed value"
  | _ => str_coerce v
  end.

End Pydantic.

(** ** [lnurl/models.py] *)

Module Models.
Import Py PyFloat Pydantic.

(** [LnurlResponseModel.Config] overrides one setting of pydantic's. *)
Definition LnurlResponseModel_Config : Config :=
  {| allow_population_by_field_name := true;
     allow_mutation := allow_mutation BaseConfig;
     validate_assignment := validate_assignment BaseConfig |}.

Abbreviation cfg := LnurlResponseModel_Config.

(** [LnurlResponseModel.dict] sets the keyword [by_alias] to [True] unless
    the caller gives it; the other keyword arguments of pydantic's [dict]
    are left at their defaults.  A field is then stored under its alias,
    or under its name. *)
Definition setdefault_by_alias (by_alias : option bool) : bool :=
  match by_alias with
  | Some b => b
  | None => true
  end.

Definition field_key (by_alias : option bool) (alias name : string) : string :=
  if setdefault_by_alias by_alias then alias else name.

(** Each class is a module: its record of fields [t], the validation of
    its fields [validate_model], its constructor [new], which is the class
    called with keyword arguments, its validators and its properties. *)

Module LnurlErrorResponse.
Record t : Type := { status : string; reason : string }.

Definition validate_model `{FT : FieldTypes} (data : gmap string value) : result t :=
  let status := validate_field cfg "status" "status" (Some "ERROR") (literal "ERROR") data in
  let reason := validate_field cfg "reason" "reason" None str data in
  match status, reason with
  | Valid s, Valid r => Ok {| status := s; reason := r |}
  | _, _ => Raise (ValidationError (error_of "status" status ++ error_of "reason" reason))
  end.

Definition new `{FT : FieldTypes} (data : gmap string value) : result t :=
  init validate_model data.

Definition error_msg (self : t) : string := reason self.

Definition dict (self : t) (by_alias : option bool) : gmap string value :=
  {[ field_key by_alias "status" "status" := VStr (status self);
     field_key by_alias "reason" "reason" := VStr (reason self) ]}.
End LnurlErrorResponse.

Module LnurlSuccessResponse.
Record t : Type := { status : string }.

Definition validate_model (data : gmap string value) : result t :=
  let status := validate_field cfg "status" "status" (Some "OK") (literal "OK") data in
  match status with
  | Valid s => Ok {| status := s |}
  | _ => Raise (ValidationError (error_of "status" status))
  end.

Definition new (data : gmap string value) : result t :=
  init validate_model data.

Definition dict (self : t) (by_alias : option bool) : gmap string value :=
  {[ field_key by_alias "status" "status" := VStr (status self) ]}.
End LnurlSuccessResponse.

Module LnurlAuthResponse.
Record t : Type := { tag : string; callback : string; k1 : string }.

Definition validate_model `{FT : FieldTypes} (data : gmap string value) : result t :=
  let tag := validate_field cfg "tag" "tag" (Some "login") (literal "login") data in
  let callback := validate_field cfg "callback" "callback" None HttpsUrl data in
  let k1 := validate_field cfg "k1" "k1" None str data in
  match tag, callback, k1 with
  | Valid t, Valid c, Valid k => Ok {| tag := t; callback := c; k1 := k |}
  | _, _, _ =>
      Raise (ValidationError
               (error_of "tag" tag ++ error_of "callback" callback ++ error_of "k1" k1))
  end.

Definition new `{FT : FieldTypes} (data : gmap string value) : result t :=
  init validate_model data.
End LnurlAuthResponse.

Module LnurlChannelResponse.
Record t : Type := { tag : string; uri : string; callback : string; k1 : string }.

Definition validate_model `{FT : FieldTypes} (data : gmap string value) : result t :=
  let tag := validate_field cfg "tag" "tag" (Some "channelRequest")
                            (literal "channelRequest") data in
  let uri := validate_field cfg "uri" "uri" None LightningNodeUri data in
  let callback := validate_field cfg "callback" "callback" None HttpsUrl data in
  let k1 := validate_field cfg "k1" "k1" None str data in
  match tag, uri, callback, k1 with
  | Valid t, Valid u, Valid c, Valid k =>
      Ok {| tag := t; uri := u; callback := c; k1 := k |}
  | _, _, _, _ =>
      Raise (ValidationError
               (error_of "tag" tag ++ error_of "uri" uri
                  ++ error_of "callback" callback ++ error_of "k1" k1))
  end.

Definition new `{FT : FieldTypes} (data : gmap string value) : result t :=
  init validate_model data.

Definition dict (self : t) (by_alias : option bool) : gmap string value :=
  {[ field_key by_alias "tag" "tag" := VStr (tag self);
     field_key by_alias "uri" "uri" := VStr (uri self);
     field_key by_alias "callback" "callback" := VStr (callback self);
     field_key by_alias "k1" "k1" := VStr (k1 self) ]}.
End LnurlChannelResponse.

Module LnurlHostedChannelResponse.
Record t : Type := { tag : string; uri : string; k1 : string; alias : option string }.

Definition validate_model `{FT : FieldTypes} (data : gmap string value) : result t :=
  let tag := validate_field cfg "tag" "tag" (Some "hostedChannelRequest")
                            (literal "hostedChannelRequest") data in
  let uri := validate_field cfg "uri" "uri" None LightningNodeUri data in
  let k1 := validate_field cfg "k1" "k1" None str data in
  let alias := validate_field cfg "alias" "alias" (Some None) (optional str) data in
  match tag, uri, k1, alias with
  | Valid t, Valid u, Valid k, Valid a =>
      Ok {| tag := t; uri := u; k1 := k; alias := a |}
  | _, _, _, _ =>
      Raise (ValidationError
               (error_of "tag" tag ++ error_of "uri" uri
                  ++ error_of "k1" k1 ++ error_of "alias" alias))
  end.

Definition new `{FT : FieldTypes} (data : gmap string value) : result t :=
  init validate_model data.

Definition dict (self : t) (by_alias : option bool) : gmap string value :=
  {[ field_key by_alias "tag" "tag" := VStr (tag self);
     field_key by_alias "uri" "uri" := VStr (uri self);
     field_key by_alias "k1" "k1" := VStr (k1 self);
     field_key by_alias "alias" "alias" :=
       match alias self with
       | Some a => VStr a
       | None => VNone
       end ]}.
End LnurlHostedChannelResponse.

Module LnurlPayResponse.
Record t : Type := {
  tag : string;
  callback : string;
  min_sendable : Z;
  max_sendable : Z;
  metadata : string
}.

(** The validator of [max_sendable].  [values] holds the fields
    validated before it; the validator reads [min_sendable] only, which
    is there only if it was valid, so [values] keeps the amounts. *)
Definition max_less_than_min (value : Z) (values : gmap string Z) : validation Z :=
  match values !! "min_sendable" with
  | Some min_sendable =>
      if value <? min_sendable
      then Invalid "`max_sendable` cannot be less than `min_sendable`."
      else Valid value
  | None => Valid value
  end.

Definition validate_model `{FT : FieldTypes} (data : gmap string value) : result t :=
  let tag := validate_field cfg "tag" "tag" (Some "payRequest")
                            (literal "payRequest") data in
  let callback := validate_field cfg "callback" "callback" None HttpsUrl data in
  let min_sendable :=
    validate_field cfg "minSendable" "min_sendable" None MilliSatoshi data in
  let values : gmap string Z :=
    match min_sendable with
    | Valid v => {[ "min_sendable" := v ]}
    | Invalid _ => ∅
    end in
  let max_sendable :=
    and_then (validate_field cfg "maxSendable" "max_sendable" None MilliSatoshi data)
             (fun value => max_less_than_min value values) in
  let metadata := validate_field cfg "metadata" "metadata" None LnurlPayMetadata data in
  match tag, callback, min_sendable, max_sendable, metadata with
  | Valid t, Valid c, Valid lo, Valid hi, Valid m =>
      Ok {| tag := t; callback := c; min_sendable := lo; max_sendable := hi;
            metadata := m |}
  | _, _, _, _, _ =>
      Raise (ValidationError
               (error_of "tag" tag ++ error_of "callback" callback
                  ++ error_of "minSendable" min_sendable
                  ++ error_of "maxSendable" max_sendable
                  ++ error_of "metadata" metadata))
  end.

Definition new `{FT : FieldTypes} (data : gmap string value) : result t :=
  init validate_model data.

Definition min_sats (self : t) : result Z :=
  bind (true_div (min_sendable self) 1000) (fun x => Ok (ceil x)).

Definition max_sats (self : t) : result Z :=
  bind (true_div (max_sendable self) 1000) (fun x => Ok (floor x)).

(** [self.max_sendable = value], with the re-validation that
    [validate_assignment] would run. *)
Definition set_max_sendable (self : t) (value : Z) : result t :=
  setattr cfg
    (fun m =>
       match max_less_than_min (max_sendable m) {[ "min_sendable" := min_sendable m ]} with
       | Valid _ => Ok m
       | Invalid msg => Raise (ValidationError [("maxSendable", msg)])
       end)
    (fun m => {| tag := tag m; callback := callback m;
                 min_sendable := min_sendable m; max_sendable := value;
                 metadata := metadata m |})
    self.

Definition dict (self : t) (by_alias : option bool) : gmap string value :=
  {[ field_key by_alias "tag" "tag" := VStr (tag self);
     field_key by_alias "callback" "callback" := VStr (callback self);
     field_key by_alias "minSendable" "min_sendable" := VInt (min_sendable self);
     field_key by_alias "maxSendable" "max_sendable" := VInt (max_sendable self);
     field_key by_alias "metadata" "metadata" := VStr (metadata self) ]}.
End LnurlPayResponse.

Module LnurlPayActionResponse.
Record t `{FT : FieldTypes} : Type := {
  pr : string;
  success_action : option SuccessAction;
  routes : list Route
}.

Definition validate_model `{FT : FieldTypes} (data : gmap string value) : result t :=
  let pr := validate_field cfg "pr" "pr" None LightningInvoice data in
  let success_action :=
    validate_field cfg "successAction" "success_action" (Some None)
                   (optional success_action_validate) data in
  let routes := validate_field cfg "routes" "routes" (Some []) routes_validate data in
  match pr, success_action, routes with
  | Valid p, Valid a, Valid r => Ok {| pr := p; success_action := a; routes := r |}
  | _, _, _ =>
      Raise (ValidationError
               (error_of "pr" pr ++ error_of "successAction" success_action
                  ++ error_of "routes" routes))
  end.

Definition new `{FT : FieldTypes} (data : gmap string value) : result t :=
  init validate_model data.
End LnurlPayActionResponse.

Module LnurlWithdrawResponse.
Record t : Type := {
  tag : string;
  callback : string;
  k1 : string;
  min_withdrawable : Z;
  max_withdrawable : Z;
  default_description : string
}.

Definition max_less_than_min (value : Z) (values : gmap string Z) : validation Z :=
  match values !! "min_withdrawable" with
  | Some min_withdrawable =>
      if value <? min_withdrawable
      then Invalid "`max_withdrawable` cannot be less than `min_withdrawable`."
      else Valid value
  | None => Valid value
  end.

Definition validate_model `{FT : FieldTypes} (data : gmap string value) : result t :=
  let tag := validate_field cfg "tag" "tag" (Some "withdrawRequest")
                            (literal "withdrawRequest") data in
  let callback := validate_field cfg "callback" "callback" None HttpsUrl data in
  let k1 := validate_field cfg "k1" "k1" None str data in
  let min_withdrawable :=
    validate_field cfg "minWithdrawable" "min_withdrawable" None MilliSatoshi data in
  let values : gmap string Z :=
    match min_withdrawable with
    | Valid v => {[ "min_withdrawable" := v ]}
    | Invalid _ => ∅
    end in
  let max_withdrawable :=
    and_then (validate_field cfg "maxWithdrawable" "max_withdrawable" None MilliSatoshi data)
             (fun value => max_less_than_min value values) in
  let default_description :=
    validate_field cfg "defaultDescription" "default_description" (Some "") str data in
  match tag, callback, k1, min_withdrawable, max_withdrawable, default_description with
  | Valid t, Valid c, Valid k, Valid lo, Valid hi, Valid dd =>
      Ok {| tag := t; callback := c; k1 := k; min_withdrawable := lo;
            max_withdrawable := hi; default_description := dd |}
  | _, _, _, _, _, _ =>
      Raise (ValidationError
               (error_of "tag" tag ++ error_of "callback" callback ++ error_of "k1" k1
                  ++ error_of "minWithdrawable" min_withdrawable
                  ++ error_of "maxWithdrawable" max_withdrawable
                  ++ error_of "defaultDescription" default_description))
  end.

Definition new `{FT : FieldTypes} (data : gmap string value) : result t :=
  init validate_model data.

Definition min_sats (self : t) : result Z :=
  bind (true_div (min_withdrawable self) 1000) (fun x => Ok (ceil x)).

Definition max_sats (self : t) : result Z :=
  bind (true_div (max_withdrawable self) 1000) (fun x => Ok (floor x)).

Definition set_max_withdrawable (self : t) (value : Z) : result t :=
  setattr cfg
    (fun m =>
       match max_less_than_min (max_withdrawable m)
                               {[ "min_withdrawable" := min_withdrawable m ]} with
       | Valid _ => Ok m
       | Invalid msg => Raise (ValidationError [("maxWithdrawable", msg)])
       end)
    (fun m => {| tag := tag m; callback := callback m; k1 := k1 m;
                 min_withdrawable := min_withdrawable m; max_withdrawable := value;
                 default_description := default_description m |})
    self.

Definition dict (self : t) (by_alias : option bool) : gmap string value :=
  {[ field_key by_alias "tag" "tag" := VStr (tag self);
     field_key by_alias "callback" "callback" := VStr (callback self);
     field_key by_alias "k1" "k1" := VStr (k1 self);
     field_key by_alias "minWithdrawable" "min_withdrawable" := VInt (min_withdrawable self);
     field_key by_alias "maxWithdrawable" "max_withdrawable" := VInt (max_withdrawable self);
     field_key by_alias "defaultDescription" "default_description" :=
       VStr (default_description self) ]}.
End LnurlWithdrawResponse.

(** The instances that [from_dict] returns. *)
Inductive LnurlResponseModel `{FT : FieldTypes} : Type :=
| Error (r : LnurlErrorResponse.t)
| Success (r : LnurlSuccessResponse.t)
| Channel (r : LnurlChannelResponse.t)
| HostedChannel (r : LnurlHostedChannelResponse.t)
| Pay (r : LnurlPayResponse.t)
| PayAction (r : LnurlPayActionResponse.t)
| Withdraw (r : LnurlWithdrawResponse.t).

(** The property [ok]: only the two classes with a [status] field can
    hold ['ERROR']. *)
Definition ok `{FT : FieldTypes} (self : LnurlResponseModel) : bool :=
  match self with
  | Error r => negb (String.eqb (LnurlErrorResponse.status r) "ERROR")
  | Success r => negb (String.eqb (LnurlSuccessResponse.status r) "ERROR")
  | _ => true
  end.

Module LnurlResponse.

Definition construct `{FT : FieldTypes} {A} (wrap : A -> LnurlResponseModel)
           (r : result A) : result LnurlResponseModel :=
  bind r (fun a => Ok (wrap a)).

(** [v.upper()] on a JSON value: only a string has the method. *)
Definition upper_method (v : value) : result string :=
  match v with
  | VStr s => Ok (upper s)
  | _ => Raise AttributeError
  end.

(** The lookup of [d['tag']] in the table of classes, applied to [**d]:
    a list or a dict is not hashable, anything outside the table is a
    [KeyError]. *)
Definition dispatch `{FT : FieldTypes} (tag : value) (d : gmap string value)
  : result LnurlResponseModel :=
  match tag with
  | VStr s =>
      if String.eqb s "channelRequest" then construct Channel (LnurlChannelResponse.new d)
      else if String.eqb s "hostedChannelRequest"
           then construct HostedChannel (LnurlHostedChannelResponse.new d)
      else if String.eqb s "payRequest" then construct Pay (LnurlPayResponse.new d)
      else if String.eqb s "withdrawRequest"
           then construct Withdraw (LnurlWithdrawResponse.new d)
      else Raise KeyError
  | VList _ | VDict _ => Raise TypeError
  | _ => Raise KeyError
  end.

(** The branches after the [status] test. *)
Definition from_dict_tagged `{FT : FieldTypes} (d : gmap string value)
  : result LnurlResponseModel * gmap string value :=
  match d !! "tag" with
  | Some tag =>
      let d := delete "status" d in
      (dispatch tag d, d)
  | None =>
      match d !! "success_action" with
      | Some _ => (construct PayAction (LnurlPayActionResponse.new d), d)
      | None => (construct Success (LnurlSuccessResponse.new d), d)
      end
  end.

(** The body of the [try]: the returned instance or the exception
    raised, and the dictionary [d] as the body leaves it. *)
Definition from_dict_body `{FT : FieldTypes} (d : gmap string value)
  : result LnurlResponseModel * gmap string value :=
  match d !! "status" with
  | Some status =>
      match upper_method status with
      | Raise e => (Raise e, d)
      | Ok u =>
          if String.eqb u "ERROR" then
            let d := <["status" := VStr u]> d in
            (construct Error (LnurlErrorResponse.new d), d)
          else from_dict_tagged d
      end
  | None => from_dict_tagged d
  end.

(** [except Exception: raise LnurlResponseException] *)
Definition from_dict `{FT : FieldTypes} (d : gmap string value)
  : result LnurlResponseModel * gmap string value :=
  match from_dict_body d with
  | (Ok r, d) => (Ok r, d)
  | (Raise _, d) => (Raise LnurlResponseException, d)
  end.

End LnurlResponse.

End Models.

(** ** An instance of the field types *)

Module SpecTypes.
Import Py Bech32 Pydantic.

(** The host of a URL after its scheme: up to the first of [/ : ? #]. *)
Fixpoint host_of (s : string) : string :=
  match s with
  | EmptyString => EmptyString
  | String c s' =>
      if existsb (Ascii.eqb c) ["/"; ":"; "?"; "#"]%char then EmptyString
      else String c (host_of s')
  end.

Definition endswith (s suffix : string) : bool :=
  String.eqb (str_drop (String.length s - String.length suffix) s) suffix.

Definition https_url (v : value) : validation string :=
  match v with
  | VStr s =>
      if startswith s "https://"
         || (startswith s "http://" && endswith (host_of (str_drop 7 s)) ".onion")
      then Valid s else Invalid "URL scheme not permitted"
  | _ => Invalid "str type expected"
  end.

Definition is_digit (c : ascii) : bool := (48 <=? ord c) && (ord c <=? 57).

Definition is_hex (c : ascii) : bool :=
  is_digit c || ((97 <=? ord c) && (ord c <=? 102)) || ((65 <=? ord c) && (ord c <=? 70)).

(** The parts of [s] before and after the first [c]. *)
Fixpoint split_at (c : ascii) (s : string) : option (string * string) :=
  match s with
  | EmptyString => None
  | String a s' =>
      if Ascii.eqb a c then Some (EmptyString, s')
      else match split_at c s' with
           | Some (before, after) => Some (String a before, after)
           | None => None
           end
  end.

(** A public key of 33 bytes in hexadecimal, [@], a host, [:], a port. *)
Definition lightning_node_uri (v : value) : validation string :=
  match v with
  | VStr s =>
      match split_at "@" s with
      | Some (key, netloc) =>
          match split_at ":" netloc with
          | Some (host, port) =>
              if (String.length key =? 66)%nat && str_forallb is_hex key
                 && (0 <? String.length host)%nat
                 && str_forallb (fun c => negb (Ascii.eqb c "@")) host
                 && (0 <? String.length port)%nat && str_forallb is_digit port
              then Valid s else Invalid "invalid Lightning node URI"
          | None => Invalid "invalid Lightning node URI"
          end
      | None => Invalid "invalid Lightning node URI"
      end
  | _ => Invalid "str type expected"
  end.

(** The structure of a BOLT-11 invoice: a bech32 string of any length
    whose prefix starts with [ln] and whose data holds at least the
    timestamp (7 symbols) and the signature (104 symbols). *)
Definition lightning_invoice (v : value) : validation string :=
  match v with
  | VStr s =>
      match bech32_decode (LC := None) s with
      | (Some hrp, Some data) =>
          if startswith hrp "ln" && (111 <=? length data)%nat
          then Valid s else Invalid "invalid Lightning invoice"
      | _ => Invalid "invalid Lightning invoice"
      end
  | _ => Invalid "str type expected"
  end.

(** *** JSON text of the metadata *)

Definition quotation_mark : ascii := "034".
Definition backslash : ascii := "092".

Definition is_ws (c : ascii) : bool :=
  existsb (Z.eqb (ord c)) [32; 9; 10; 13].

Fixpoint skip_ws (s : string) : string :=
  match s with
  | EmptyString => EmptyString
  | String c s' => if is_ws c then skip_ws s' else s
  end.

(** The text after the character [c], white space before it skipped. *)
Definition expect (c : ascii) (s : string) : option string :=
  match skip_ws s with
  | String a s' => if Ascii.eqb a c then Some s' else None
  | EmptyString => None
  end.

(** The character that a backslash and [c] stand for, [u] apart. *)
Definition unescape (c : ascii) : option ascii :=
  if Ascii.eqb c quotation_mark then Some quotation_mark
  else if Ascii.eqb c backslash then Some backslash
  else if Ascii.eqb c "/" then Some "/"%char
  else if Ascii.eqb c "b" then Some "008"%char
  else if Ascii.eqb c "f" then Some "012"%char
  else if Ascii.eqb c "n" then Some "010"%char
  else if Ascii.eqb c "r" then Some "013"%char
  else if Ascii.eqb c "t" then Some "009"%char
  else None.

Definition hex_value (c : ascii) : Z :=
  if is_digit c then ord c - 48
  else if 97 <=? ord c then ord c - 87 else ord c - 55.

(** The UTF-8 bytes of a code unit below [2 ^ 16]; the two halves of a
    surrogate pair are not combined. *)
Definition utf8_of_unit (u : Z) : string :=
  bytes_str
    (if u <? 0x80 then [u]
     else if u <? 0x800 then [Z.lor 0xC0 (Z.shiftr u 6); Z.lor 0x80 (Z.land u 0x3F)]
     else [Z.lor 0xE0 (Z.shiftr u 12); Z.lor 0x80 (Z.land (Z.shiftr u 6) 0x3F);
           Z.lor 0x80 (Z.land u 0x3F)]).

(** A JSON string after its opening quotation mark: its text, escapes
    decoded, and what follows its closing quotation mark.  A control
    character, an unknown escape or a missing end is an error. *)
Fixpoint json_string (s : string) : option (string * string) :=
  match s with
  | EmptyString => None
  | String c r =>
      if Ascii.eqb c quotation_mark then Some (EmptyString, r)
      else if Ascii.eqb c backslash then
        match r with
        | String e r1 =>
            match unescape e with
            | Some x =>
                match json_string r1 with
                | Some (text, rest) => Some (String x text, rest)
                | None => None
                end
            | None =>
                match r1 with
                | String h1 (String h2 (String h3 (String h4 r2))) =>
                    if Ascii.eqb e "u" && forallb is_hex [h1; h2; h3; h4] then
                      match json_string r2 with
                      | Some (text, rest) =>
                          Some (utf8_of_unit
                                  (fold_left (fun a h => 16 * a + hex_value h)
                                             [h1; h2; h3; h4] 0) +:+ text, rest)
                      | None => None
                      end
                    else None
                | _ => None
                end
            end
        | EmptyString => None
        end
      else if ord c <? 32 then None
      else match json_string r with
           | Some (text, rest) => Some (String c text, rest)
           | None => None
           end
  end.

(** A pair of two strings in brackets: the two strings and what follows
    the closing bracket. *)
Definition json_pair (s : string) : option (string * string * string) :=
  r ← expect "[" s;
  r ← expect quotation_mark r;
  '(type, r) ← json_string r;
  r ← expect "," r;
  r ← expect quotation_mark r;
  '(content, r) ← json_string r;
  r ← expect "]" r;
  Some (type, content, r).

(** The pairs of a JSON array after its opening bracket, one at least,
    up to the closing bracket, after which only white space may follow.
    Each pair consumes text, so the length of the text is fuel enough. *)
Fixpoint json_pairs (fuel : nat) (s : string) : option (list (string * string)) :=
  match fuel with
  | O => None
  | S fuel' =>
      '(type, content, r) ← json_pair s;
      match skip_ws r with
      | String c r' =>
          if Ascii.eqb c "," then
            pairs ← json_pairs fuel' r'; Some ((type, content) :: pairs)
          else if Ascii.eqb c "]" then
            match skip_ws r' with
            | EmptyString => Some [(type, content)]
            | _ => None
            end
          else None
      | EmptyString => None
      end
  end.

(** The pairs of the JSON text of an array of pairs of strings. *)
Definition json_array_of_pairs (s : string) : option (list (string * string)) :=
  r ← expect "[" s;
  match expect "]" r with
  | Some r' =>
      match skip_ws r' with
      | EmptyString => Some []
      | _ => None
      end
  | None => json_pairs (String.length s) r
  end.

(** The JSON text of an array of pairs of a type and a content, one of
    them at least of the type [text/plain]. *)
Definition lnurl_pay_metadata (v : value) : validation string :=
  match v with
  | VStr s =>
      match json_array_of_pairs s with
      | Some pairs =>
          if existsb (fun p => String.eqb p.1 "text/plain") pairs
          then Valid s else Invalid "invalid LNURL-pay metadata"
      | None => Invalid "invalid LNURL-pay metadata"
      end
  | _ => Invalid "str type expected"
  end.

Definition milli_satoshi (v : value) : validation Z :=
  match v with
  | VInt z => if 0 <=? z then Valid z else Invalid "ensure this value is not negative"
  | _ => Invalid "value is not a valid integer"
  end.

Definition empty_model (v : value) : validation unit :=
  match v with
  | VDict _ => Valid tt
  | _ => Invalid "value is not a valid dict"
  end.

Definition list_of {A} (validator : value -> validation A) (v : value)
  : validation (list A) :=
  match v with
  | VList l =>
      fold_right (fun x acc => and_then (validator x) (fun a =>
                               and_then acc (fun r => Valid (a :: r))))
                 (Valid []) l
  | _ => Invalid "value is not a valid list"
  end.

(** Modelled from the spec: the scalar types of [lnurl/types.py], which
    is not among the source files.  [HttpsUrl] is a string with the
    [https] scheme, or [http] for an [.onion] host; [MilliSatoshi] is an
    integer that is not negative; an invoice is a string with the
    structure of a BOLT-11 invoice, its signature not verified; a node URI
    is a string of the form of a 33 byte public key in hexadecimal, [@],
    host, [:], port; the metadata is a string that holds the JSON text of
    an array of pairs with an entry of the type [text/plain]; no value
    other than a string is coerced to one; the two nested models have no
    fields. *)
#[export] Instance spec_types : FieldTypes := {|
  HttpsUrl := https_url;
  LightningInvoice := lightning_invoice;
  LightningNodeUri := lightning_node_uri;
  LnurlPayMetadata := lnurl_pay_metadata;
  MilliSatoshi := milli_satoshi;
  str_coerce := fun _ => Invalid "str type expected";
  SuccessAction := unit;
  success_action_validate := empty_model;
  Route := unit;
  routes_validate := list_of empty_model
|}.

End SpecTypes.

(** ** Sample payloads *)

Module Examples.
Import Pydantic.

(** [s] between quotation marks. *)
Definition quoted (s : string) : string :=
  String SpecTypes.quotation_mark (s +:+ String SpecTypes.quotation_mark EmptyString).

(** The metadata of the spec's example: the JSON text of an array with
    the one pair of [text/plain] and [hi]. *)
Definition example_metadata : string :=
  "[[" +:+ quoted "text/plain" +:+ "," +:+ quoted "hi" +:+ "]]".

(** The payload of the spec's example. *)
Definition example_pay : gmap string value :=
  {[ "tag" := VStr "payRequest"; "callback" := VStr "https://x.com/cb";
     "minSendable" := VInt 1000; "maxSendable" := VInt 2000;
     "metadata" := VStr example_metadata ]}.

(** Amounts just above 2 ^ 44 satoshis. *)
Definition example_large_pay : gmap string value :=
  {[ "tag" := VStr "payRequest"; "callback" := VStr "https://x.com/cb";
     "minSendable" := VInt 17592186044416001; "maxSendable" := VInt 17592186044416999;
     "metadata" := VStr example_metadata ]}.

(** A node URI: the public key of 33 bytes, a host and a port. *)
Definition example_node_uri : string :=
  "03e7156ae33b0a208d0744199163177e909e80176e55d97a2f221ede0f934dd9ad@127.0.0.1:9735".

(** An encoded URL, and the same with its last character changed. *)
Definition example_lnurl : string :=
  "LNURL1DP68GURN8GHJ7UM9WFMXJCM99E5K7TELWY7NXENRXVMRGDTZXSENJCM98PJNWXQ96S9".
Definition example_url : string := "https://service.io/?q=3fc3645b439ce8e7".
Definition corrupted : string :=
  "LNURL1DP68GURN8GHJ7UM9WFMXJCM99E5K7TELWY7NXENRXVMRGDTZXSENJCM98PJNWXQ96S8".

(** A segwit address: well-formed bech32 under another prefix. *)
Definition example_address : string := "BC1QW508D6QEJXTDG4Y5R3ZARVARY0C5XW7KV8F3T4".

(** The symbols 31, 31, 31, 16 under [lnurl]: the bytes 255, 255, which
    are not UTF-8.  And the single symbol 1: five bits, not a byte. *)
Definition example_not_utf8 : string := "lnurl1lllss4vtpj".
Definition example_not_bytes : string := "lnurl1pw9yggj".

End Examples.

(** ** Notions used to state the properties of the codec *)

Module CodecSpec.
Import Py Bech32.

(** The number that a list of [w] bit groups writes, most significant
    group first, continuing from [v]. *)
Definition val_from (w : Z) (l : list Z) (v : Z) : Z :=
  fold_left (fun a d => a * 2 ^ w + d) l v.
Definition val (w : Z) (l : list Z) : Z := val_from w l 0.
Definition groups (w : Z) (l : list Z) : Prop := Forall (fun d => 0 <= d < 2 ^ w) l.

(** The state of [convertbits] after the groups that write [V], [T] bits
    in all: [ret] holds all of them but the lowest [bits], which [acc]
    still has. *)
Definition regrouped (frombits tobits V T acc bits : Z) (ret : list Z) : Prop :=
  0 <= bits /\ tobits * Z.of_nat (length ret) + bits = T
  /\ val tobits ret = V / 2 ^ bits
  /\ acc mod 2 ^ (frombits + tobits - 1) = V mod 2 ^ (frombits + tobits - 1)
  /\ groups tobits ret.

(** One round of [bech32_polymod] without the value absorbed: the state
    shifted by one symbol, and the generators that its top bits select. *)
Definition sel (b : bool) (g : Z) : Z := if b then g else 0.

Definition feedback (x : Z) : Z :=
  Z.lxor (Z.lxor (Z.lxor (Z.lxor (sel (Z.testbit x 25) 0x3b6a57b2)
                                 (sel (Z.testbit x 26) 0x26508e6d))
                         (sel (Z.testbit x 27) 0x1ea119fa))
                 (sel (Z.testbit x 28) 0x3d4233dd))
         (sel (Z.testbit x 29) 0x2a1462b3).

Definition advance (x : Z) : Z :=
  Z.lxor (Z.shiftl (Z.land x 0x1ffffff) 5) (feedback x).

(** The six symbols of a 30 bit value, most significant first. *)
Definition symbols (q : Z) : list Z :=
  map (fun i => Z.land (Z.shiftr q (5 * (5 - i))) 31) [0; 1; 2; 3; 4; 5].

(** The character of a symbol. *)
Definition symbol_char (d : Z) : ascii :=
  match String.get (Z.to_nat d) CHARSET with
  | Some c => c
  | None => "000"%char
  end.

(** The string [s] with the character at index [i] replaced by [c]. *)
Fixpoint str_set (s : string) (i : nat) (c : ascii) : string :=
  match s, i with
  | EmptyString, _ => EmptyString
  | String _ s', O => String c s'
  | String a s', S k => String a (str_set s' k c)
  end.

(** The characters that [bech32_decode] accepts: those from 33 to 126. *)
Definition visible (x : ascii) : bool := negb ((ord x <? 33) || (ord x >? 126)).

(** Neither all lower case nor all upper case. *)
Definition mixed_case (s : string) : bool :=
  negb (String.eqb (lower s) s) && negb (String.eqb (upper s) s).

(** The character [c] does not occur in [s]. *)
Definition without (c : ascii) (s : string) : bool :=
  str_forallb (fun a => negb (Ascii.eqb a c)) s.

End CodecSpec.

(** ** Notions used to state the properties of [from_dict] *)

Module ClassifierSpec.
Import Py Pydantic.

(** The status test lets the mapping through to the later branches:
    there is no [status], or it is a string other than the error status
    in any case. *)
Definition passes_status (d : gmap string value) : Prop :=
  d !! "status" = None
  \/ exists s, d !! "status" = Some (VStr s) /\ upper s <> "ERROR".

End ClassifierSpec.

(** * Properties *)

Import Py PyFloat Pydantic Bech32 Tools Models Examples CodecSpec ClassifierSpec.

(** ** Calling a class *)

Lemma init_ok {A} (validate_model : gmap string value -> result A) d r :
  init validate_model d = Ok r ->
  d !! "__pydantic_self__" = None /\ validate_model d = Ok r.
Proof.
  unfold init. destruct (d !! "__pydantic_self__"); [discriminate | auto].
Qed.

Lemma init_fields {A} (validate_model : gmap string value -> result A) d :
  d !! "__pydantic_self__" = None -> init validate_model d = validate_model d.
Proof. unfold init. intros ->. reflexivity. Qed.

Lemma init_collision {A} (validate_model : gmap string value -> result A) d :
  is_Some (d !! "__pydantic_self__") -> init validate_model d = Raise TypeError.
Proof. unfold init. intros [v ->]. reflexivity. Qed.

(** ** The field types of the spec on the sample values *)

Example spec_types_checked :
  LnurlPayMetadata (FieldTypes := SpecTypes.spec_types) (VStr example_metadata)
  = Valid example_metadata
  /\ LnurlPayMetadata (FieldTypes := SpecTypes.spec_types) (VStr "[[text/plain, hi]]")
     = Invalid "invalid LNURL-pay metadata"
  /\ LnurlPayMetadata (FieldTypes := SpecTypes.spec_types) (VStr "[]")
     = Invalid "invalid LNURL-pay metadata"
  /\ LightningNodeUri (FieldTypes := SpecTypes.spec_types) (VStr example_node_uri)
     = Valid example_node_uri
  /\ LightningNodeUri (FieldTypes := SpecTypes.spec_types) (VStr "02aa@host")
     = Invalid "invalid Lightning node URI"
  /\ LightningInvoice (FieldTypes := SpecTypes.spec_types) (VStr example_address)
     = Invalid "invalid Lightning invoice".
Proof. repeat split. Qed.

(** ** The response classifier *)

Section Classifier.
Context `{FT : FieldTypes}.
Implicit Types d : gmap string value.

Lemma from_dict_of_body d :
  LnurlResponse.from_dict d =
    (match (LnurlResponse.from_dict_body d).1 with
     | Ok r => Ok r
     | Raise _ => Raise LnurlResponseException
     end, (LnurlResponse.from_dict_body d).2).
Proof.
  unfold LnurlResponse.from_dict.
  destruct (LnurlResponse.from_dict_body d) as [[r|e] d']; reflexivity.
Qed.

Lemma body_error_branch d s :
  d !! "status" = Some (VStr s) -> upper s = "ERROR" ->
  LnurlResponse.from_dict_body d =
    (LnurlResponse.construct Error
       (LnurlErrorResponse.new (<["status" := VStr "ERROR"]> d)),
     <["status" := VStr "ERROR"]> d).
Proof.
  intros Hs Hu. unfold LnurlResponse.from_dict_body.
  rewrite Hs. cbn [LnurlResponse.upper_method]. rewrite Hu. reflexivity.
Qed.

Lemma error_new_status d r :
  LnurlErrorResponse.new d = Ok r -> LnurlErrorResponse.status r = "ERROR".
Proof.
  intros H. apply init_ok in H as [_ H]. revert H.
  unfold LnurlErrorResponse.validate_model, validate_field.
  destruct (get_value _ "status" "status" d) as [v|]; cbn.
  - unfold literal. destruct v; cbn; try discriminate.
    destruct (String.eqb s "ERROR"); cbn; try discriminate.
    destruct (match get_value _ "reason" "reason" d with
              | Some v => str v | None => Invalid "field required" end);
      intros [= <-]; reflexivity.
  - destruct (match get_value _ "reason" "reason" d with
              | Some v => str v | None => Invalid "field required" end);
      intros [= <-]; reflexivity.
Qed.

Lemma error_new_ok d reason :
  d !! "__pydantic_self__" = None ->
  d !! "status" = Some (VStr "ERROR") -> d !! "reason" = Some (VStr reason) ->
  LnurlErrorResponse.new d =
    Ok {| LnurlErrorResponse.status := "ERROR"; LnurlErrorResponse.reason := reason |}.
Proof.
  intros Hk Hs Hr. unfold LnurlErrorResponse.new. rewrite (init_fields _ _ Hk).
  unfold LnurlErrorResponse.validate_model, validate_field, get_value.
  rewrite Hs, Hr. reflexivity.
Qed.

Lemma success_new_default d :
  d !! "__pydantic_self__" = None -> d !! "status" = None ->
  LnurlSuccessResponse.new d = Ok {| LnurlSuccessResponse.status := "OK" |}.
Proof.
  intros Hk Hs. unfold LnurlSuccessResponse.new. rewrite (init_fields _ _ Hk).
  unfold LnurlSuccessResponse.validate_model, validate_field, get_value.
  cbn. rewrite Hs. reflexivity.
Qed.

Lemma body_untagged d :
  d !! "status" = None -> d !! "tag" = None -> d !! "success_action" = None ->
  LnurlResponse.from_dict_body d =
    (LnurlResponse.construct Success (LnurlSuccessResponse.new d), d).
Proof.
  intros Hs Ht Ha.
  unfold LnurlResponse.from_dict_body, LnurlResponse.from_dict_tagged.
  rewrite Hs, Ht, Ha. reflexivity.
Qed.

(** The mapping that the branches after the [status] test leave. *)
Lemma tagged_dict d :
  (LnurlResponse.from_dict_tagged d).2
  = match d !! "tag" with
    | Some _ => delete "status" d
    | None => d
    end.
Proof.
  unfold LnurlResponse.from_dict_tagged.
  destruct (d !! "tag"); [reflexivity|]. destruct (d !! "success_action"); reflexivity.
Qed.

Lemma body_passes_status d :
  passes_status d ->
  LnurlResponse.from_dict_body d = LnurlResponse.from_dict_tagged d.
Proof.
  intros [Hs | (s & Hs & Hu)]; unfold LnurlResponse.from_dict_body; rewrite Hs.
  - reflexivity.
  - cbn [LnurlResponse.upper_method]. apply String.eqb_neq in Hu. rewrite Hu. reflexivity.
Qed.

(** Where [from_dict] leaves the dictionary: as it was, or with [status]
    overwritten by ['ERROR'] (first branch), or with [status] removed
    (second branch). *)
Lemma body_dict d :
  (LnurlResponse.from_dict_body d).2 = d
  \/ (exists s, d !! "status" = Some (VStr s) /\ upper s = "ERROR"
                /\ (LnurlResponse.from_dict_body d).2 = <["status" := VStr "ERROR"]> d)
  \/ (is_Some (d !! "tag")
      /\ (LnurlResponse.from_dict_body d).2 = delete "status" d).
Proof.
  assert (Htag : (LnurlResponse.from_dict_tagged d).2 = d
                 \/ (is_Some (d !! "tag")
                     /\ (LnurlResponse.from_dict_tagged d).2 = delete "status" d)).
  { unfold LnurlResponse.from_dict_tagged.
    destruct (d !! "tag") as [t|] eqn:Ht.
    - right. split; [eexists; reflexivity | reflexivity].
    - left. destruct (d !! "success_action"); reflexivity. }
  unfold LnurlResponse.from_dict_body.
  destruct (d !! "status") as [v|] eqn:Hs.
  - destruct v; cbn [LnurlResponse.upper_method]; try (left; reflexivity).
    destruct (String.eqb (upper s) "ERROR") eqn:Hu.
    + apply String.eqb_eq in Hu. right; left. exists s.
      rewrite Hu. repeat split; reflexivity || assumption.
    + destruct Htag as [H|H]; [left | right; right]; exact H.
  - destruct Htag as [H|H]; [left | right; right]; exact H.
Qed.

(** C2.  A mapping whose [status] is a string equal to ['error'] up to
    case is handed to the Error class, with [status] stored as ['ERROR'],
    whatever else it holds, a [tag] included: the result is that of
    the Error class called with the mapping, it is never another
    variant, and it is the Error instance with status ['ERROR'] as soon
    as [reason] is a string and no key collides with the first parameter
    of the constructor. *)
Theorem error_status_takes_precedence d s :
  d !! "status" = Some (VStr s) -> upper s = "ERROR" ->
  LnurlResponse.from_dict d =
    (match LnurlErrorResponse.new (<["status" := VStr "ERROR"]> d) with
     | Ok r => Ok (Error r)
     | Raise _ => Raise LnurlResponseException
     end, <["status" := VStr "ERROR"]> d)
  /\ (forall m, (LnurlResponse.from_dict d).1 = Ok m ->
                exists r, m = Error r /\ LnurlErrorResponse.status r = "ERROR")
  /\ (forall reason, d !! "reason" = Some (VStr reason) ->
                     d !! "__pydantic_self__" = None ->
                     (LnurlResponse.from_dict d).1 =
                       Ok (Error {| LnurlErrorResponse.status := "ERROR";
                                    LnurlErrorResponse.reason := reason |})).
Proof.
  intros Hs Hu.
  assert (Hfd : LnurlResponse.from_dict d =
    (match LnurlErrorResponse.new (<["status" := VStr "ERROR"]> d) with
     | Ok r => Ok (Error r)
     | Raise _ => Raise LnurlResponseException
     end, <["status" := VStr "ERROR"]> d)).
  { rewrite from_dict_of_body, (body_error_branch d s Hs Hu). cbn.
    destruct (LnurlErrorResponse.new _); reflexivity. }
  rewrite Hfd. cbn [fst]. split; [reflexivity | split].
  - intros m.
    destruct (LnurlErrorResponse.new _) as [r|e] eqn:Hnew; [|discriminate].
    intros [= <-]. exists r. split; [reflexivity|].
    exact (error_new_status _ _ Hnew).
  - intros reason Hr Hk.
    rewrite (error_new_ok (<["status" := VStr "ERROR"]> d) reason); [reflexivity | | |].
    + rewrite lookup_insert_ne by discriminate. exact Hk.
    + apply lookup_insert_eq.
    + rewrite lookup_insert_ne by discriminate. exact Hr.
Qed.

(** C9.  A [status] that is not a string has no [upper] method: the call
    fails before any branch is chosen, whatever [tag] says, with the one
    classification error, and the mapping is as it was. *)
Theorem non_string_status_fails d v :
  d !! "status" = Some v -> (forall s, v <> VStr s) ->
  LnurlResponse.from_dict d = (Raise LnurlResponseException, d).
Proof.
  intros Hs Hv. unfold LnurlResponse.from_dict, LnurlResponse.from_dict_body.
  rewrite Hs. destruct v; try reflexivity. exfalso. exact (Hv s eq_refl).
Qed.

(** C10, as amended.  Without the keys [status], [tag] and
    [success_action] the classifier returns the bare Success instance
    with status ['OK'], whatever other keys there are, [successAction]
    among them, but for the key [__pydantic_self__]: that one collides
    with the first parameter of the constructor, and the call fails with
    the classification error.  The mapping is left alone either way. *)
Theorem untagged_is_success d :
  d !! "status" = None -> d !! "tag" = None -> d !! "success_action" = None ->
  (d !! "__pydantic_self__" = None ->
   LnurlResponse.from_dict d =
     (Ok (Success {| LnurlSuccessResponse.status := "OK" |}), d))
  /\ (is_Some (d !! "__pydantic_self__") ->
      LnurlResponse.from_dict d = (Raise LnurlResponseException, d)).
Proof.
  intros Hs Ht Ha. unfold LnurlResponse.from_dict.
  rewrite (body_untagged d Hs Ht Ha). split; intros Hk.
  - rewrite (success_new_default d Hk Hs). reflexivity.
  - unfold LnurlSuccessResponse.new. rewrite (init_collision _ _ Hk). reflexivity.
Qed.

(** C4.  The third branch tests the field name [success_action] only.  A
    pay action reply that carries its success action under the protocol
    name [successAction] is classified as the bare Success variant. *)
Theorem success_action_alias_missed :
  let d : gmap string value :=
    {[ "pr" := VStr "lnbc10u1pexample";
       "successAction" := VDict [("tag", VStr "message"); ("message", VStr "Thanks")] ]} in
  LnurlResponse.from_dict d =
    (Ok (Success {| LnurlSuccessResponse.status := "OK" |}), d).
Proof.
  intros d. unfold LnurlResponse.from_dict.
  rewrite (body_untagged d); reflexivity.
Qed.

(** C6, as amended.  [from_dict] changes nothing in the mapping but the
    [status] entry: every other key keeps its value.  In the Error branch
    [status] is overwritten with ['ERROR']; in the tag branch the key
    [status] is removed; in every other case, a failure of the status test
    included, the mapping is left as it was. *)
Theorem from_dict_changes_status_only d :
  (forall k, k <> "status" -> (LnurlResponse.from_dict d).2 !! k = d !! k)
  /\ (forall s, d !! "status" = Some (VStr s) -> upper s = "ERROR" ->
                (LnurlResponse.from_dict d).2 = <["status" := VStr "ERROR"]> d)
  /\ (passes_status d -> is_Some (d !! "tag") ->
      (LnurlResponse.from_dict d).2 = delete "status" d)
  /\ (passes_status d -> d !! "tag" = None -> (LnurlResponse.from_dict d).2 = d)
  /\ (forall v, d !! "status" = Some v -> (forall s, v <> VStr s) ->
                (LnurlResponse.from_dict d).2 = d).
Proof.
  rewrite from_dict_of_body. cbn [snd].
  split; [|split; [|split; [|split]]].
  - intros k Hk.
    destruct (body_dict d) as [-> | [(s & _ & _ & ->) | (_ & ->)]].
    + reflexivity.
    + apply lookup_insert_ne. congruence.
    + apply lookup_delete_ne. congruence.
  - intros s Hs Hu. rewrite (body_error_branch d s Hs Hu). reflexivity.
  - intros Hp [t Ht]. rewrite (body_passes_status d Hp), tagged_dict, Ht. reflexivity.
  - intros Hp Ht. rewrite (body_passes_status d Hp), tagged_dict, Ht. reflexivity.
  - intros v Hs Hv. unfold LnurlResponse.from_dict_body. rewrite Hs.
    destruct v; try reflexivity. exfalso. exact (Hv s eq_refl).
Qed.

End Classifier.

(** C6.  A lower-case error status is rewritten in the caller's mapping. *)
Lemma from_dict_mutates_argument :
  let d : gmap string value := {[ "status" := VStr "error"; "reason" := VStr "x" ]} in
  (LnurlResponse.from_dict (FT := SpecTypes.spec_types) d).2 <> d
  /\ (LnurlResponse.from_dict (FT := SpecTypes.spec_types) d).2 !! "status"
     = Some (VStr "ERROR").
Proof.
  split.
  - intros H. apply (f_equal (fun m : gmap string value => m !! "status")) in H.
    vm_compute in H. discriminate.
  - vm_compute. reflexivity.
Qed.

Lemma error_status_takes_precedence_witness :
  let d : gmap string value :=
    {[ "status" := VStr "error"; "reason" := VStr "no route"; "tag" := VStr "payRequest" ]} in
  (LnurlResponse.from_dict (FT := SpecTypes.spec_types) d).1 =
    Ok (Error {| LnurlErrorResponse.status := "ERROR";
                 LnurlErrorResponse.reason := "no route" |}).
Proof.
  intros d.
  apply (error_status_takes_precedence (FT := SpecTypes.spec_types) d "error");
    reflexivity.
Defined.

Lemma non_string_status_fails_witness :
  let d : gmap string value := {[ "status" := VInt 1; "tag" := VStr "payRequest" ]} in
  LnurlResponse.from_dict (FT := SpecTypes.spec_types) d = (Raise LnurlResponseException, d).
Proof.
  intros d.
  apply (non_string_status_fails (FT := SpecTypes.spec_types) d (VInt 1));
    [reflexivity | discriminate].
Defined.

Lemma untagged_is_success_witness :
  let d : gmap string value := {[ "pr" := VStr "lnbc1"; "successAction" := VNone ]} in
  LnurlResponse.from_dict (FT := SpecTypes.spec_types) d =
    (Ok (Success {| LnurlSuccessResponse.status := "OK" |}), d).
Proof.
  intros d.
  apply (untagged_is_success (FT := SpecTypes.spec_types) d); reflexivity.
Defined.

(** C10.  A mapping with none of the three keys on which the call fails:
    its one key is the name of the first parameter of the constructor. *)
Lemma untagged_can_fail :
  let d : gmap string value := {[ "__pydantic_self__" := VInt 1 ]} in
  d !! "status" = None /\ d !! "tag" = None /\ d !! "success_action" = None
  /\ LnurlResponse.from_dict (FT := SpecTypes.spec_types) d
     = (Raise LnurlResponseException, d).
Proof. repeat split. Qed.

Lemma from_dict_changes_status_only_witness :
  let d : gmap string value := {[ "status" := VStr "OK"; "tag" := VStr "login" ]} in
  (LnurlResponse.from_dict (FT := SpecTypes.spec_types) d).2 !! "tag" = d !! "tag"
  /\ (LnurlResponse.from_dict (FT := SpecTypes.spec_types) d).2 = delete "status" d.
Proof.
  intros d.
  destruct (from_dict_changes_status_only (FT := SpecTypes.spec_types) d)
    as (Hkeys & _ & Htag & _).
  split.
  - apply Hkeys. discriminate.
  - apply Htag.
    + right. exists "OK". split; [reflexivity | discriminate].
    + exists (VStr "login"). reflexivity.
Defined.

(** ** The range validators of the Pay and Withdraw classes *)

Section Range.
Context `{FT : FieldTypes}.
Implicit Types d : gmap string value.

Lemma pay_validator_valid value lo r :
  LnurlPayResponse.max_less_than_min value {[ "min_sendable" := lo ]} = Valid r ->
  r = value /\ lo <= value.
Proof.
  unfold LnurlPayResponse.max_less_than_min. rewrite lookup_singleton_eq.
  destruct (value <? lo) eqn:Hlt; [discriminate|].
  intros [= <-]. apply Z.ltb_ge in Hlt. auto.
Qed.

Lemma withdraw_validator_valid value lo r :
  LnurlWithdrawResponse.max_less_than_min value {[ "min_withdrawable" := lo ]} = Valid r ->
  r = value /\ lo <= value.
Proof.
  unfold LnurlWithdrawResponse.max_less_than_min. rewrite lookup_singleton_eq.
  destruct (value <? lo) eqn:Hlt; [discriminate|].
  intros [= <-]. apply Z.ltb_ge in Hlt. auto.
Qed.

Lemma pay_new_range d r :
  LnurlPayResponse.new d = Ok r ->
  LnurlPayResponse.min_sendable r <= LnurlPayResponse.max_sendable r.
Proof.
  intros H. apply init_ok in H as [_ H]. revert H.
  unfold LnurlPayResponse.validate_model.
  destruct (validate_field _ "tag" _ _ _ d); [|discriminate].
  destruct (validate_field _ "callback" _ _ _ d); [|discriminate].
  destruct (validate_field _ "minSendable" _ _ _ d) as [lo|]; [|discriminate].
  destruct (validate_field _ "maxSendable" _ _ _ d) as [hi|]; cbn [and_then];
    [|discriminate].
  destruct (LnurlPayResponse.max_less_than_min hi _) as [hi'|] eqn:Hv; [|discriminate].
  apply pay_validator_valid in Hv as [-> Hle].
  destruct (validate_field _ "metadata" _ _ _ d); [|discriminate].
  intros [= <-]. exact Hle.
Qed.

Lemma withdraw_new_range d r :
  LnurlWithdrawResponse.new d = Ok r ->
  LnurlWithdrawResponse.min_withdrawable r <= LnurlWithdrawResponse.max_withdrawable r.
Proof.
  intros H. apply init_ok in H as [_ H]. revert H.
  unfold LnurlWithdrawResponse.validate_model.
  destruct (validate_field _ "tag" _ _ _ d); [|discriminate].
  destruct (validate_field _ "callback" _ _ _ d); [|discriminate].
  destruct (validate_field _ "k1" _ _ _ d); [|discriminate].
  destruct (validate_field _ "minWithdrawable" _ _ _ d) as [lo|]; [|discriminate].
  destruct (validate_field _ "maxWithdrawable" _ _ _ d) as [hi|]; cbn [and_then];
    [|discriminate].
  destruct (LnurlWithdrawResponse.max_less_than_min hi _) as [hi'|] eqn:Hv;
    [|discriminate].
  apply withdraw_validator_valid in Hv as [-> Hle].
  destruct (validate_field _ "defaultDescription" _ _ _ d); [|discriminate].
  intros [= <-]. exact Hle.
Qed.

Lemma pay_new_below d lo hi :
  d !! "__pydantic_self__" = None ->
  validate_field cfg "minSendable" "min_sendable" None MilliSatoshi d = Valid lo ->
  validate_field cfg "maxSendable" "max_sendable" None MilliSatoshi d = Valid hi ->
  hi < lo ->
  exists errors,
    LnurlPayResponse.new d = Raise (ValidationError errors)
    /\ In ("maxSendable", "`max_sendable` cannot be less than `min_sendable`.") errors.
Proof.
  intros Hk Hlo Hhi Hlt. unfold LnurlPayResponse.new. rewrite (init_fields _ _ Hk).
  unfold LnurlPayResponse.validate_model. rewrite Hlo, Hhi.
  cbn [and_then]. unfold LnurlPayResponse.max_less_than_min.
  rewrite lookup_singleton_eq.
  apply Z.ltb_lt in Hlt. rewrite Hlt.
  match goal with |- context [ValidationError ?e] => exists e end. split.
  - destruct (validate_field _ "tag" _ _ _ d), (validate_field _ "callback" _ _ _ d);
      reflexivity.
  - rewrite !in_app_iff. cbn. tauto.
Qed.

Lemma withdraw_new_below d lo hi :
  d !! "__pydantic_self__" = None ->
  validate_field cfg "minWithdrawable" "min_withdrawable" None MilliSatoshi d = Valid lo ->
  validate_field cfg "maxWithdrawable" "max_withdrawable" None MilliSatoshi d = Valid hi ->
  hi < lo ->
  exists errors,
    LnurlWithdrawResponse.new d = Raise (ValidationError errors)
    /\ In ("maxWithdrawable",
           "`max_withdrawable` cannot be less than `min_withdrawable`.") errors.
Proof.
  intros Hk Hlo Hhi Hlt. unfold LnurlWithdrawResponse.new. rewrite (init_fields _ _ Hk).
  unfold LnurlWithdrawResponse.validate_model. rewrite Hlo, Hhi.
  cbn [and_then]. unfold LnurlWithdrawResponse.max_less_than_min.
  rewrite lookup_singleton_eq.
  apply Z.ltb_lt in Hlt. rewrite Hlt.
  match goal with |- context [ValidationError ?e] => exists e end. split.
  - destruct (validate_field _ "tag" _ _ _ d), (validate_field _ "callback" _ _ _ d),
      (validate_field _ "k1" _ _ _ d); reflexivity.
  - rewrite !in_app_iff. cbn. tauto.
Qed.

Lemma pay_new_equal d t c v m :
  d !! "__pydantic_self__" = None ->
  validate_field cfg "tag" "tag" (Some "payRequest") (literal "payRequest") d = Valid t ->
  validate_field cfg "callback" "callback" None HttpsUrl d = Valid c ->
  validate_field cfg "minSendable" "min_sendable" None MilliSatoshi d = Valid v ->
  validate_field cfg "maxSendable" "max_sendable" None MilliSatoshi d = Valid v ->
  validate_field cfg "metadata" "metadata" None LnurlPayMetadata d = Valid m ->
  LnurlPayResponse.new d =
    Ok {| LnurlPayResponse.tag := t; LnurlPayResponse.callback := c;
          LnurlPayResponse.min_sendable := v; LnurlPayResponse.max_sendable := v;
          LnurlPayResponse.metadata := m |}.
Proof.
  intros Hk Ht Hc Hlo Hhi Hm. unfold LnurlPayResponse.new. rewrite (init_fields _ _ Hk).
  unfold LnurlPayResponse.validate_model.
  rewrite Ht, Hc, Hlo, Hhi, Hm. cbn [and_then].
  unfold LnurlPayResponse.max_less_than_min.
  rewrite lookup_singleton_eq, Z.ltb_irrefl. reflexivity.
Qed.

Lemma withdraw_new_equal d t c k v dd :
  d !! "__pydantic_self__" = None ->
  validate_field cfg "tag" "tag" (Some "withdrawRequest") (literal "withdrawRequest") d
    = Valid t ->
  validate_field cfg "callback" "callback" None HttpsUrl d = Valid c ->
  validate_field cfg "k1" "k1" None str d = Valid k ->
  validate_field cfg "minWithdrawable" "min_withdrawable" None MilliSatoshi d = Valid v ->
  validate_field cfg "maxWithdrawable" "max_withdrawable" None MilliSatoshi d = Valid v ->
  validate_field cfg "defaultDescription" "default_description" (Some "") str d
    = Valid dd ->
  LnurlWithdrawResponse.new d =
    Ok {| LnurlWithdrawResponse.tag := t; LnurlWithdrawResponse.callback := c;
          LnurlWithdrawResponse.k1 := k;
          LnurlWithdrawResponse.min_withdrawable := v;
          LnurlWithdrawResponse.max_withdrawable := v;
          LnurlWithdrawResponse.default_description := dd |}.
Proof.
  intros Hself Ht Hc Hk Hlo Hhi Hdd. unfold LnurlWithdrawResponse.new.
  rewrite (init_fields _ _ Hself). unfold LnurlWithdrawResponse.validate_model.
  rewrite Ht, Hc, Hk, Hlo, Hhi, Hdd. cbn [and_then].
  unfold LnurlWithdrawResponse.max_less_than_min.
  rewrite lookup_singleton_eq, Z.ltb_irrefl. reflexivity.
Qed.

(** C3.  With a maximum below the minimum the construction of a Pay
    (resp. Withdraw) instance fails, and the error names both fields;
    with equal bounds, the other fields being valid, it succeeds; so
    every instance that was built has its maximum at or above its
    minimum.  The keywords are those of fields: none is the name of the
    first parameter of the constructor, on which the call fails before
    any field is validated. *)
Theorem range_checked_at_construction :
  (forall d lo hi,
      d !! "__pydantic_self__" = None ->
      validate_field cfg "minSendable" "min_sendable" None MilliSatoshi d = Valid lo ->
      validate_field cfg "maxSendable" "max_sendable" None MilliSatoshi d = Valid hi ->
      hi < lo ->
      exists errors,
        LnurlPayResponse.new d = Raise (ValidationError errors)
        /\ In ("maxSendable", "`max_sendable` cannot be less than `min_sendable`.")
              errors)
  /\ (forall d t c v m,
        d !! "__pydantic_self__" = None ->
        validate_field cfg "tag" "tag" (Some "payRequest") (literal "payRequest") d
          = Valid t ->
        validate_field cfg "callback" "callback" None HttpsUrl d = Valid c ->
        validate_field cfg "minSendable" "min_sendable" None MilliSatoshi d = Valid v ->
        validate_field cfg "maxSendable" "max_sendable" None MilliSatoshi d = Valid v ->
        validate_field cfg "metadata" "metadata" None LnurlPayMetadata d = Valid m ->
        LnurlPayResponse.new d =
          Ok {| LnurlPayResponse.tag := t; LnurlPayResponse.callback := c;
                LnurlPayResponse.min_sendable := v; LnurlPayResponse.max_sendable := v;
                LnurlPayResponse.metadata := m |})
  /\ (forall d r,
        LnurlPayResponse.new d = Ok r ->
        LnurlPayResponse.max_sendable r >= LnurlPayResponse.min_sendable r)
  /\ (forall d lo hi,
        d !! "__pydantic_self__" = None ->
        validate_field cfg "minWithdrawable" "min_withdrawable" None MilliSatoshi d
          = Valid lo ->
        validate_field cfg "maxWithdrawable" "max_withdrawable" None MilliSatoshi d
          = Valid hi ->
        hi < lo ->
        exists errors,
          LnurlWithdrawResponse.new d = Raise (ValidationError errors)
          /\ In ("maxWithdrawable",
                 "`max_withdrawable` cannot be less than `min_withdrawable`.") errors)
  /\ (forall d t c k v dd,
        d !! "__pydantic_self__" = None ->
        validate_field cfg "tag" "tag" (Some "withdrawRequest")
                       (literal "withdrawRequest") d = Valid t ->
        validate_field cfg "callback" "callback" None HttpsUrl d = Valid c ->
        validate_field cfg "k1" "k1" None str d = Valid k ->
        validate_field cfg "minWithdrawable" "min_withdrawable" None MilliSatoshi d
          = Valid v ->
        validate_field cfg "maxWithdrawable" "max_withdrawable" None MilliSatoshi d
          = Valid v ->
        validate_field cfg "defaultDescription" "default_description" (Some "") str d
          = Valid dd ->
        LnurlWithdrawResponse.new d =
          Ok {| LnurlWithdrawResponse.tag := t; LnurlWithdrawResponse.callback := c;
                LnurlWithdrawResponse.k1 := k;
                LnurlWithdrawResponse.min_withdrawable := v;
                LnurlWithdrawResponse.max_withdrawable := v;
                LnurlWithdrawResponse.default_description := dd |})
  /\ (forall d r,
        LnurlWithdrawResponse.new d = Ok r ->
        LnurlWithdrawResponse.max_withdrawable r
          >= LnurlWithdrawResponse.min_withdrawable r).
Proof.
  split; [exact pay_new_below|].
  split; [exact pay_new_equal|].
  split; [intros d r Hr; apply Z.le_ge, (pay_new_range d r Hr)|].
  split; [exact withdraw_new_below|].
  split; [exact withdraw_new_equal|].
  intros d r Hr; apply Z.le_ge, (withdraw_new_range d r Hr).
Qed.

(** C8, as amended.  Validation runs when an instance is built and only
    then: a built Pay or Withdraw instance has its maximum at or above
    its minimum, but the classes are not frozen, and assigning the
    maximum of a built instance succeeds for any value and stores it
    unchecked. *)
Theorem validated_at_construction_only :
  (forall d r,
      LnurlPayResponse.new d = Ok r ->
      LnurlPayResponse.min_sendable r <= LnurlPayResponse.max_sendable r)
  /\ (forall d r,
        LnurlWithdrawResponse.new d = Ok r ->
        LnurlWithdrawResponse.min_withdrawable r
          <= LnurlWithdrawResponse.max_withdrawable r)
  /\ (forall r value,
        LnurlPayResponse.set_max_sendable r value =
          Ok {| LnurlPayResponse.tag := LnurlPayResponse.tag r;
                LnurlPayResponse.callback := LnurlPayResponse.callback r;
                LnurlPayResponse.min_sendable := LnurlPayResponse.min_sendable r;
                LnurlPayResponse.max_sendable := value;
                LnurlPayResponse.metadata := LnurlPayResponse.metadata r |})
  /\ (forall r value,
        LnurlWithdrawResponse.set_max_withdrawable r value =
          Ok {| LnurlWithdrawResponse.tag := LnurlWithdrawResponse.tag r;
                LnurlWithdrawResponse.callback := LnurlWithdrawResponse.callback r;
                LnurlWithdrawResponse.k1 := LnurlWithdrawResponse.k1 r;
                LnurlWithdrawResponse.min_withdrawable :=
                  LnurlWithdrawResponse.min_withdrawable r;
                LnurlWithdrawResponse.max_withdrawable := value;
                LnurlWithdrawResponse.default_description :=
                  LnurlWithdrawResponse.default_description r |}).
Proof.
  split; [exact pay_new_range|].
  split; [exact withdraw_new_range|].
  split; intros r value; reflexivity.
Qed.

End Range.

Lemma range_checked_at_construction_witness :
  (exists errors,
      LnurlPayResponse.new (FT := SpecTypes.spec_types)
        (<["maxSendable" := VInt 999]> example_pay) = Raise (ValidationError errors)
      /\ In ("maxSendable", "`max_sendable` cannot be less than `min_sendable`.") errors)
  /\ LnurlPayResponse.new (FT := SpecTypes.spec_types)
       (<["maxSendable" := VInt 1000]> example_pay) =
       Ok {| LnurlPayResponse.tag := "payRequest";
             LnurlPayResponse.callback := "https://x.com/cb";
             LnurlPayResponse.min_sendable := 1000; LnurlPayResponse.max_sendable := 1000;
             LnurlPayResponse.metadata := example_metadata |}.
Proof.
  destruct (range_checked_at_construction (FT := SpecTypes.spec_types))
    as (Hbelow & Hequal & _).
  split.
  - apply (Hbelow _ 1000 999); [reflexivity | reflexivity | reflexivity | lia].
  - apply Hequal; reflexivity.
Defined.

(** C8.  A Pay instance is built with bounds 1000 and 2000; its maximum is
    then set to 1, below its minimum, and the assignment succeeds. *)
Lemma built_instance_is_mutable :
  exists r r',
    LnurlPayResponse.new (FT := SpecTypes.spec_types) example_pay = Ok r
    /\ LnurlPayResponse.set_max_sendable r 1 = Ok r'
    /\ LnurlPayResponse.max_sendable r' = 1
    /\ LnurlPayResponse.max_sendable r' < LnurlPayResponse.min_sendable r'.
Proof.
  eexists. eexists. split; [reflexivity|]. split; [reflexivity|].
  split; [reflexivity | reflexivity].
Qed.

Lemma validated_at_construction_only_witness :
  let r := {| LnurlPayResponse.tag := "payRequest";
              LnurlPayResponse.callback := "https://x.com/cb";
              LnurlPayResponse.min_sendable := 1000; LnurlPayResponse.max_sendable := 2000;
              LnurlPayResponse.metadata := example_metadata |} in
  LnurlPayResponse.new (FT := SpecTypes.spec_types) example_pay = Ok r
  /\ LnurlPayResponse.min_sendable r <= LnurlPayResponse.max_sendable r.
Proof.
  intros r.
  assert (H : LnurlPayResponse.new (FT := SpecTypes.spec_types) example_pay = Ok r)
    by reflexivity.
  split; [exact H|].
  exact (proj1 (validated_at_construction_only (FT := SpecTypes.spec_types))
               example_pay r H).
Defined.

(** ** Satoshi amounts *)

(** C5.  The amounts are divided as floats.  For 17592186044416001 and
    17592186044416999 millisatoshis, which a Pay instance accepts, the
    quotient is rounded to the nearest binary64 value before [ceil] and
    [floor] see it: [min_sats] is one below the ceiling of the thousandth
    and [max_sats] one above the floor. *)
Theorem sats_rounded_as_floats :
  exists r,
    LnurlPayResponse.new (FT := SpecTypes.spec_types) example_large_pay = Ok r
    /\ LnurlPayResponse.min_sats r = Ok 17592186044416
    /\ - (- LnurlPayResponse.min_sendable r / 1000) = 17592186044417
    /\ LnurlPayResponse.max_sats r = Ok 17592186044417
    /\ LnurlPayResponse.max_sendable r / 1000 = 17592186044416.
Proof.
  eexists. split; [reflexivity|]. repeat split; vm_compute; reflexivity.
Qed.

Example min_sats_1500 r :
  LnurlPayResponse.min_sendable r = 1500 -> LnurlPayResponse.min_sats r = Ok 2.
Proof. unfold LnurlPayResponse.min_sats. intros ->. reflexivity. Qed.

Example max_sats_2999 r :
  LnurlPayResponse.max_sendable r = 2999 -> LnurlPayResponse.max_sats r = Ok 2.
Proof. unfold LnurlPayResponse.max_sats. intros ->. reflexivity. Qed.

(** Rounding [x / 1000] to a grid of step [1 / P], [P >= 512], keeps it
    strictly between the integers around it. *)
Lemma round_thousandth x P :
  0 <= x -> 512 <= P ->
  let m := round_half_even (x * P) 1000 in
  (x mod 1000 = 0 -> m = x / 1000 * P)
  /\ (0 < x mod 1000 -> x / 1000 * P + 1 <= m <= x / 1000 * P + P - 1).
Proof.
  intros Hx HP m. subst m. unfold round_half_even.
  pose proof (Z.div_mod x 1000 ltac:(lia)) as Hdm.
  pose proof (Z.mod_pos_bound x 1000 ltac:(lia)) as Hr.
  set (k := x / 1000) in *. set (r := x mod 1000) in *.
  assert (HN : x * P = k * P * 1000 + r * P) by (rewrite Hdm; ring).
  rewrite HN.
  rewrite (Z.add_comm (k * P * 1000)), Z.div_add, Z.mod_add by lia.
  set (t := r * P).
  pose proof (Z.div_mod t 1000 ltac:(lia)) as Ht.
  pose proof (Z.mod_pos_bound t 1000 ltac:(lia)) as Htr.
  set (q := t / 1000) in *. set (s := t mod 1000) in *.
  split.
  - intros H0. assert (t = 0) by (unfold t; rewrite H0; ring).
    assert (q = 0 /\ s = 0) as [Hq Hs] by lia.
    rewrite Hs, Hq. change (2 * 0 <? 1000) with true. cbv iota. lia.
  - intros Hpos.
    assert (P <= t <= 999 * P) by (unfold t; nia).
    destruct (2 * s <? 1000) eqn:H1; [apply Z.ltb_lt in H1; lia|].
    apply Z.ltb_ge in H1.
    destruct (2 * s >? 1000) eqn:H2.
    + rewrite Z.gtb_ltb in H2. apply Z.ltb_lt in H2. lia.
    + rewrite Z.gtb_ltb in H2. apply Z.ltb_ge in H2.
      destruct (Z.even (q + k * P)); lia.
Qed.

Lemma quotient_exponent_thousandth x :
  0 < x < 1000 * 2 ^ 44 -> -62 <= quotient_exponent x 1000 <= -9.
Proof.
  intros Hx. unfold quotient_exponent. change (Z.log2 1000) with 9.
  pose proof (Z.log2_nonneg x) as H0.
  assert (H53 : Z.log2 x < 54) by (apply Z.log2_lt_pow2; lia).
  destruct (0 <=? Z.log2 x - 9) eqn:Hl.
  - destruct (1000 * 2 ^ (Z.log2 x - 9) <=? x) eqn:Ht; [|lia].
    apply Z.leb_le in Ht.
    destruct (Z.eq_dec (Z.log2 x) 53) as [E|]; [|lia].
    rewrite E in Ht. change (2 ^ (53 - 9)) with (2 ^ 44) in Ht. lia.
  - apply Z.leb_gt in Hl. destruct (1000 <=? _); lia.
Qed.

(** Below 2 ^ 44 satoshis the float quotient is still fine enough for
    [ceil] and [floor] to give the integer ceiling and floor. *)
Lemma thousandth_exact x :
  0 <= x < 1000 * 2 ^ 44 ->
  bind (true_div x 1000) (fun q => Ok (ceil q)) = Ok (- (- x / 1000))
  /\ bind (true_div x 1000) (fun q => Ok (floor q)) = Ok (x / 1000).
Proof.
  intros Hx. destruct (Z.eq_dec x 0) as [->|Hne]; [split; reflexivity|].
  pose proof (quotient_exponent_thousandth x ltac:(lia)) as He.
  unfold true_div. change (1000 =? 0) with false. cbv iota.
  rewrite (Z.abs_eq x) by lia. change (Z.abs 1000) with 1000.
  replace (x =? 0) with false by (symmetry; apply Z.eqb_neq; exact Hne).
  rewrite Z.max_l by lia.
  set (e := quotient_exponent x 1000) in *.
  replace (0 <=? e) with false by (symmetry; apply Z.leb_gt; lia).
  cbn [andb bind]. unfold ceil, floor. cbn [mant expo].
  replace (0 <=? e) with false by (symmetry; apply Z.leb_gt; lia).
  rewrite (Z.sgn_pos x) by lia. change (Z.sgn 1000) with 1.
  rewrite !Z.mul_1_l.
  assert (HP : 512 <= 2 ^ (- e)).
  { change 512 with (2 ^ 9). apply Z.pow_le_mono_r; lia. }
  destruct (round_thousandth x (2 ^ (- e)) ltac:(lia) HP) as [Hzero Hpos].
  set (P := 2 ^ (- e)) in *. set (m := round_half_even (x * P) 1000) in *.
  pose proof (Z.div_mod x 1000 ltac:(lia)) as Hdm.
  pose proof (Z.mod_pos_bound x 1000 ltac:(lia)) as Hr.
  destruct (Z.eq_dec (x mod 1000) 0) as [H0|H0].
  - specialize (Hzero H0). rewrite Hzero.
    replace (- (x / 1000 * P)) with (- (x / 1000) * P) by ring.
    rewrite !Z.div_mul by lia.
    replace (- x) with (- (x / 1000) * 1000) by lia.
    rewrite Z.div_mul by lia. split; f_equal; lia.
  - specialize (Hpos ltac:(lia)).
    split; f_equal.
    + assert (- m / P = - (x / 1000) - 1) as ->.
      { symmetry. apply (Z.div_unique_pos _ _ _ (- m - (- (x / 1000) - 1) * P)); nia. }
      assert (- x / 1000 = - (x / 1000) - 1) as ->.
      { symmetry. apply (Z.div_unique_pos _ _ _ (1000 - x mod 1000)); lia. }
      reflexivity.
    + symmetry. apply (Z.div_unique_pos _ _ _ (m - x / 1000 * P)); nia.
Qed.

(** The four properties on amounts below 2 ^ 44 satoshis. *)
Lemma sats_exact_below (pay : LnurlPayResponse.t) (withdraw : LnurlWithdrawResponse.t) :
  (0 <= LnurlPayResponse.min_sendable pay < 1000 * 2 ^ 44 ->
   LnurlPayResponse.min_sats pay = Ok (- (- LnurlPayResponse.min_sendable pay / 1000)))
  /\ (0 <= LnurlPayResponse.max_sendable pay < 1000 * 2 ^ 44 ->
      LnurlPayResponse.max_sats pay = Ok (LnurlPayResponse.max_sendable pay / 1000))
  /\ (0 <= LnurlWithdrawResponse.min_withdrawable withdraw < 1000 * 2 ^ 44 ->
      LnurlWithdrawResponse.min_sats withdraw
      = Ok (- (- LnurlWithdrawResponse.min_withdrawable withdraw / 1000)))
  /\ (0 <= LnurlWithdrawResponse.max_withdrawable withdraw < 1000 * 2 ^ 44 ->
      LnurlWithdrawResponse.max_sats withdraw
      = Ok (LnurlWithdrawResponse.max_withdrawable withdraw / 1000)).
Proof.
  repeat split; intros H; apply (thousandth_exact _ H).
Qed.

(** ** The checksum *)

Lemma top_bit x i :
  0 <= i ->
  (Z.land (Z.shiftr (Z.shiftr x 25) i) 1 =? 0) = negb (Z.testbit x (25 + i)).
Proof.
  intros Hi.
  change 1 with (Z.ones 1). rewrite Z.land_ones by lia.
  rewrite <- Z.bit0_mod, !Z.shiftr_spec by lia.
  replace (0 + i + 25) with (25 + i) by lia.
  destruct (Z.testbit x (25 + i)); reflexivity.
Qed.

Lemma lxor_swap a b c : Z.lxor (Z.lxor a b) c = Z.lxor (Z.lxor a c) b.
Proof. rewrite !Z.lxor_assoc, (Z.lxor_comm b c). reflexivity. Qed.

Lemma polymod_step_advance x v : polymod_step x v = Z.lxor (advance x) v.
Proof.
  unfold polymod_step, advance, feedback, generator. cbn [combine fold_left].
  rewrite !top_bit by lia. cbn [Z.add Pos.add Pos.succ].
  repeat match goal with
         | |- context [if negb ?b then 0 else ?g] =>
             replace (if negb b then 0 else g) with (sel b g) by (destruct b; reflexivity)
         end.
  rewrite !Z.lxor_assoc. f_equal.
  rewrite (Z.lxor_comm v). rewrite !Z.lxor_assoc. reflexivity.
Qed.

Lemma sel_xorb a b g : sel (xorb a b) g = Z.lxor (sel a g) (sel b g).
Proof. destruct a, b; cbn; rewrite ?Z.lxor_nilpotent, ?Z.lxor_0_r; reflexivity. Qed.

(** Equalities of exclusive-or expressions up to order and grouping. *)
Ltac lxor_ac :=
  apply Z.bits_inj'; intros ?n ?Hn; rewrite !Z.lxor_spec;
  repeat match goal with
         | |- context [Z.testbit ?a ?n] => generalize (Z.testbit a n); intro
         end;
  btauto.

Lemma feedback_lxor x y : feedback (Z.lxor x y) = Z.lxor (feedback x) (feedback y).
Proof. unfold feedback. rewrite !Z.lxor_spec, !sel_xorb. lxor_ac. Qed.

Lemma shift_mask_lxor x y :
  Z.shiftl (Z.land (Z.lxor x y) 0x1ffffff) 5 =
    Z.lxor (Z.shiftl (Z.land x 0x1ffffff) 5) (Z.shiftl (Z.land y 0x1ffffff) 5).
Proof.
  apply Z.bits_inj'. intros n Hn.
  rewrite Z.lxor_spec, !Z.shiftl_spec, !Z.land_spec, Z.lxor_spec by lia.
  destruct (Z.testbit x (n - 5)), (Z.testbit y (n - 5)), (Z.testbit 33554431 (n - 5));
    reflexivity.
Qed.

Lemma advance_lxor x y : advance (Z.lxor x y) = Z.lxor (advance x) (advance y).
Proof. unfold advance. rewrite feedback_lxor, shift_mask_lxor. lxor_ac. Qed.

Lemma lxor_range n a b :
  0 <= n -> 0 <= a < 2 ^ n -> 0 <= b < 2 ^ n -> 0 <= Z.lxor a b < 2 ^ n.
Proof.
  intros Hn Ha Hb.
  assert (Hnn : 0 <= Z.lxor a b) by (apply Z.lxor_nonneg; lia).
  split; [exact Hnn|].
  destruct (Z.eq_dec (Z.lxor a b) 0) as [->|Hne]; [apply Z.pow_pos_nonneg; lia|].
  assert (Hpos : 0 < n).
  { destruct (Z.eq_dec n 0) as [->|]; [|lia].
    change (2 ^ 0) with 1 in *.
    assert (a = 0) by lia. assert (b = 0) by lia. subst. contradiction Hne. reflexivity. }
  apply Z.log2_lt_pow2; [lia|].
  eapply Z.le_lt_trans; [apply Z.log2_lxor; lia|].
  apply Z.max_lub_lt.
  - destruct (Z.eq_dec a 0) as [->|]; [cbn; lia | apply Z.log2_lt_pow2; lia].
  - destruct (Z.eq_dec b 0) as [->|]; [cbn; lia | apply Z.log2_lt_pow2; lia].
Qed.

Lemma sel_range b g : 0 <= g < 2 ^ 30 -> 0 <= sel b g < 2 ^ 30.
Proof. destruct b; cbn [sel]; lia. Qed.

Lemma advance_range x : 0 <= advance x < 2 ^ 30.
Proof.
  unfold advance, feedback.
  assert (H25 : 0 <= Z.shiftl (Z.land x 0x1ffffff) 5 < 2 ^ 30).
  { change 0x1ffffff with (Z.ones 25). rewrite Z.land_ones, Z.shiftl_mul_pow2 by lia.
    pose proof (Z.mod_pos_bound x (2 ^ 25) ltac:(lia)). lia. }
  apply lxor_range; [lia | exact H25 |].
  apply lxor_range; [lia | | apply sel_range; lia].
  apply lxor_range; [lia | | apply sel_range; lia].
  apply lxor_range; [lia | | apply sel_range; lia].
  apply lxor_range; [lia | apply sel_range; lia | apply sel_range; lia].
Qed.

Lemma advance_small x : 0 <= x < 2 ^ 25 -> advance x = Z.shiftl x 5.
Proof.
  intros Hx. unfold advance, feedback.
  assert (Hbit : forall i, 25 <= i -> Z.testbit x i = false).
  { intros i Hi. destruct (Z.eq_dec x 0) as [->|]; [apply Z.bits_0|].
    apply Z.bits_above_log2; [lia|].
    assert (Z.log2 x < 25) by (apply Z.log2_lt_pow2; lia). lia. }
  rewrite !Hbit by lia. cbn [sel]. rewrite !Z.lxor_0_r.
  change 0x1ffffff with (Z.ones 25). rewrite Z.land_ones, Z.mod_small by lia.
  reflexivity.
Qed.

Lemma advance_0 : advance 0 = 0.
Proof. reflexivity. Qed.

Lemma iter_advance_lxor n x y :
  Nat.iter n advance (Z.lxor x y) = Z.lxor (Nat.iter n advance x) (Nat.iter n advance y).
Proof.
  induction n as [|n IH]; [reflexivity|].
  rewrite !Nat.iter_succ, IH. apply advance_lxor.
Qed.

Lemma iter_advance_0 n : Nat.iter n advance 0 = 0.
Proof. induction n as [|n IH]; [reflexivity|]. rewrite Nat.iter_succ, IH. reflexivity. Qed.

(** The state after absorbing [cs] is the state advanced as often, plus
    what [cs] alone leaves behind. *)
Lemma polymod_fold_linear cs s :
  fold_left polymod_step cs s =
    Z.lxor (Nat.iter (length cs) advance s) (fold_left polymod_step cs 0).
Proof.
  revert s. induction cs as [|c cs IH]; intros s.
  - cbn. rewrite Z.lxor_0_r. reflexivity.
  - cbn [fold_left length]. rewrite IH, (IH (polymod_step 0 c)).
    rewrite !polymod_step_advance, advance_0, Z.lxor_0_l.
    rewrite iter_advance_lxor, Nat.iter_succ_r. lxor_ac.
Qed.

Lemma lxor_shiftl_add x c :
  0 <= c < 32 -> Z.lxor (Z.shiftl x 5) c = x * 32 + c.
Proof.
  intros Hc. rewrite Z.shiftl_mul_pow2 by lia. change (2 ^ 5) with 32.
  symmetry. apply Z.add_nocarry_lxor.
  apply Z.bits_inj'. intros n Hn. rewrite Z.land_spec, Z.bits_0.
  destruct (Z.lt_ge_cases n 5) as [Hlt|Hge].
  - replace (x * 32) with (x * 2 ^ 5) by reflexivity.
    rewrite Z.mul_pow2_bits_low by lia. reflexivity.
  - replace (Z.testbit c n) with false; [apply andb_false_r|].
    symmetry. destruct (Z.eq_dec c 0) as [->|]; [apply Z.bits_0|].
    apply Z.bits_above_log2; [lia|].
    assert (Z.log2 c < 5) by (apply Z.log2_lt_pow2; lia). lia.
Qed.

Lemma absorb_symbol x c :
  0 <= x < 2 ^ 25 -> 0 <= c < 32 -> polymod_step x c = x * 32 + c.
Proof.
  intros Hx Hc. rewrite polymod_step_advance, advance_small by exact Hx.
  apply lxor_shiftl_add, Hc.
Qed.

Lemma symbols_absorbed q :
  0 <= q < 2 ^ 30 -> fold_left polymod_step (symbols q) 0 = q.
Proof.
  intros Hq.
  change (symbols q) with
    [Z.land (Z.shiftr q 25) 31; Z.land (Z.shiftr q 20) 31; Z.land (Z.shiftr q 15) 31;
     Z.land (Z.shiftr q 10) 31; Z.land (Z.shiftr q 5) 31; Z.land (Z.shiftr q 0) 31].
  cbn [fold_left].
  change 31 with (Z.ones 5). rewrite !Z.land_ones, !Z.shiftr_div_pow2 by lia.
  change (2 ^ 0) with 1. rewrite Z.div_1_r.
  set (c0 := (q / 2 ^ 25) mod 2 ^ 5). set (c1 := (q / 2 ^ 20) mod 2 ^ 5).
  set (c2 := (q / 2 ^ 15) mod 2 ^ 5). set (c3 := (q / 2 ^ 10) mod 2 ^ 5).
  set (c4 := (q / 2 ^ 5) mod 2 ^ 5). set (c5 := q mod 2 ^ 5).
  assert (H0 : 0 <= c0 < 32) by (apply Z.mod_pos_bound; lia).
  assert (H1 : 0 <= c1 < 32) by (apply Z.mod_pos_bound; lia).
  assert (H2 : 0 <= c2 < 32) by (apply Z.mod_pos_bound; lia).
  assert (H3 : 0 <= c3 < 32) by (apply Z.mod_pos_bound; lia).
  assert (H4 : 0 <= c4 < 32) by (apply Z.mod_pos_bound; lia).
  assert (H5 : 0 <= c5 < 32) by (apply Z.mod_pos_bound; lia).
  rewrite (absorb_symbol 0 c0) by lia.
  rewrite (absorb_symbol _ c1) by lia.
  rewrite (absorb_symbol _ c2) by lia.
  rewrite (absorb_symbol _ c3) by lia.
  rewrite (absorb_symbol _ c4) by lia.
  rewrite (absorb_symbol _ c5) by lia.
  subst c0 c1 c2 c3 c4 c5.
  change (2 ^ 25) with 33554432. change (2 ^ 20) with 1048576.
  change (2 ^ 15) with 32768. change (2 ^ 10) with 1024. change (2 ^ 5) with 32.
  change (2 ^ 30) with 1073741824 in Hq.
  Z.div_mod_to_equations. lia.
Qed.

Lemma checksum_verifies hrp data :
  bech32_verify_checksum hrp (data ++ bech32_create_checksum hrp data) = true.
Proof.
  unfold bech32_verify_checksum, bech32_create_checksum, bech32_polymod.
  rewrite app_assoc, fold_left_app.
  rewrite (fold_left_app _ (bech32_hrp_expand hrp ++ data) [0; 0; 0; 0; 0; 0]).
  set (s := fold_left polymod_step (bech32_hrp_expand hrp ++ data) 1).
  set (p := fold_left polymod_step [0; 0; 0; 0; 0; 0] s).
  change (map _ [0; 1; 2; 3; 4; 5]) with (symbols (Z.lxor p 1)).
  assert (Hp : p = Nat.iter 6 advance s).
  { unfold p. rewrite polymod_fold_linear. cbn [length].
    change (fold_left polymod_step [0; 0; 0; 0; 0; 0] 0) with 0.
    apply Z.lxor_0_r. }
  assert (Hrange : 0 <= p < 2 ^ 30).
  { rewrite Hp, Nat.iter_succ. apply advance_range. }
  rewrite polymod_fold_linear. change (length (symbols _)) with 6%nat.
  rewrite <- Hp, symbols_absorbed by (apply lxor_range; lia).
  rewrite <- Z.lxor_assoc, Z.lxor_nilpotent, Z.lxor_0_l. reflexivity.
Qed.

(** ** Regrouping bits *)

Lemma val_snoc w l d : val w (l ++ [d]) = val w l * 2 ^ w + d.
Proof. unfold val, val_from. rewrite fold_left_app. reflexivity. Qed.

Lemma val_from_nonneg w l v : 0 <= v -> groups w l -> 0 <= val_from w l v.
Proof.
  revert v. induction l as [|d l IH]; intros v Hv Hl; [exact Hv|].
  inversion Hl; subst. cbn. apply IH; [|assumption].
  pose proof (Z.pow_nonneg 2 w ltac:(lia)). nia.
Qed.

Lemma groups_snoc w l d : groups w l -> 0 <= d < 2 ^ w -> groups w (l ++ [d]).
Proof. intros Hl Hd. apply Forall_app. split; [exact Hl | repeat constructor; lia]. Qed.

(** Two lists of groups of the same length that write the same number are
    the same list. *)
Lemma val_inj w l1 l2 :
  0 <= w -> groups w l1 -> groups w l2 -> length l1 = length l2 ->
  val w l1 = val w l2 -> l1 = l2.
Proof.
  intros Hw. revert l2. induction l1 as [|d1 l1 IH] using rev_ind; intros l2 H1 H2 Hlen Hval.
  - destruct l2; [reflexivity | discriminate].
  - destruct l2 as [|d2 l2 _] using rev_ind.
    + rewrite length_app in Hlen. cbn in Hlen. lia.
    + rewrite !length_app in Hlen. cbn in Hlen.
      apply Forall_app in H1 as [H1 Hd1], H2 as [H2 Hd2].
      inversion Hd1; subst. inversion Hd2; subst.
      rewrite !val_snoc in Hval.
      assert (0 < 2 ^ w) by (apply Z.pow_pos_nonneg; lia).
      destruct (Z.div_mod_unique (2 ^ w) (val w l1) (val w l2) d1 d2) as [Hv ->];
        [left; lia | left; lia | lia |].
      f_equal. apply IH; [assumption | assumption | lia | exact Hv].
Qed.

Lemma maxv_ones t : 0 <= t -> Z.shiftl 1 t - 1 = Z.ones t.
Proof. intros Ht. rewrite Z.ones_equiv, Z.shiftl_1_l. lia. Qed.

Lemma chunk_spec a b t :
  0 <= b -> 0 <= t -> Z.land (Z.shiftr a b) (Z.shiftl 1 t - 1) = (a / 2 ^ b) mod 2 ^ t.
Proof.
  intros Hb Ht. rewrite maxv_ones, Z.land_ones, Z.shiftr_div_pow2 by lia. reflexivity.
Qed.

Lemma chunk_range a t : 0 <= t -> 0 <= Z.land a (Z.shiftl 1 t - 1) < 2 ^ t.
Proof.
  intros Ht. rewrite maxv_ones, Z.land_ones by lia.
  apply Z.mod_pos_bound, Z.pow_pos_nonneg; lia.
Qed.

(** Bits below [B] of a quotient by a power of two depend on the bits
    below [B] of the number only. *)
Lemma chunk_congr a x b t B :
  0 <= b -> 0 <= t -> b + t <= B -> a mod 2 ^ B = x mod 2 ^ B ->
  (a / 2 ^ b) mod 2 ^ t = (x / 2 ^ b) mod 2 ^ t.
Proof.
  intros Hb Ht HB Heq. apply Z.bits_inj'. intros n Hn.
  destruct (Z.lt_ge_cases n t) as [Hlt|Hge].
  - rewrite !Z.mod_pow2_bits_low, !Z.div_pow2_bits by lia.
    rewrite <- (Z.mod_pow2_bits_low a B), <- (Z.mod_pow2_bits_low x B) by lia.
    rewrite Heq. reflexivity.
  - rewrite !Z.mod_pow2_bits_high by lia. reflexivity.
Qed.

Lemma div_pow2_split x b t :
  0 <= t <= b -> x / 2 ^ (b - t) = x / 2 ^ b * 2 ^ t + (x / 2 ^ (b - t)) mod 2 ^ t.
Proof.
  intros H.
  assert (Hpt : 0 < 2 ^ t) by (apply Z.pow_pos_nonneg; lia).
  assert (Hpb : 0 < 2 ^ (b - t)) by (apply Z.pow_pos_nonneg; lia).
  replace (2 ^ b) with (2 ^ (b - t) * 2 ^ t)
    by (rewrite <- Z.pow_add_r by lia; f_equal; lia).
  rewrite <- Z.div_div by lia.
  pose proof (Z.div_mod (x / 2 ^ (b - t)) (2 ^ t) ltac:(lia)). lia.
Qed.

Section Regroup.
Variables frombits tobits : Z.
Hypothesis Hfrom : 0 < frombits.
Hypothesis Hto : 0 < tobits.

Let maxv := Z.shiftl 1 tobits - 1.
Let max_acc := Z.shiftl 1 (frombits + tobits - 1) - 1.
Let B := frombits + tobits - 1.

Lemma drain_spec fuel V T acc bits ret :
  regrouped frombits tobits V T acc bits ret -> bits <= B -> (Z.to_nat bits <= fuel)%nat ->
  exists bits' ret',
    drain fuel acc bits tobits maxv ret = (bits', ret')
    /\ regrouped frombits tobits V T acc bits' ret' /\ bits' < tobits.
Proof.
  revert bits ret. induction fuel as [|fuel IH]; intros bits ret Hinv HB Hfuel.
  - exists bits, ret. split; [reflexivity|]. split; [exact Hinv|].
    destruct Hinv as (Hb & _). lia.
  - cbn [drain]. destruct (bits >=? tobits) eqn:Hge.
    + apply Z.geb_le in Hge.
      destruct Hinv as (Hb & HT & Hval & Hacc & Hgr).
      apply IH; [|lia|lia].
      unfold regrouped. rewrite length_app, val_snoc. cbn [length].
      unfold maxv. rewrite chunk_spec by lia.
      rewrite (chunk_congr acc V (bits - tobits) tobits B) by (lia || exact Hacc).
      repeat split.
      * lia.
      * lia.
      * rewrite Hval. symmetry. apply div_pow2_split. lia.
      * exact Hacc.
      * apply groups_snoc; [exact Hgr|].
        apply Z.mod_pos_bound, Z.pow_pos_nonneg; lia.
    + exists bits, ret. split; [reflexivity|]. split; [exact Hinv|].
      rewrite Z.geb_leb in Hge. apply Z.leb_gt in Hge. lia.
Qed.

Lemma lor_shiftl_add a d :
  0 <= d < 2 ^ frombits -> Z.lor (Z.shiftl a frombits) d = a * 2 ^ frombits + d.
Proof.
  intros Hd. rewrite Z.shiftl_mul_pow2 by lia.
  assert (Hland : Z.land (a * 2 ^ frombits) d = 0).
  { apply Z.bits_inj'. intros n Hn. rewrite Z.land_spec, Z.bits_0.
    destruct (Z.lt_ge_cases n frombits) as [Hlt|Hge].
    - rewrite Z.mul_pow2_bits_low by lia. reflexivity.
    - replace (Z.testbit d n) with false; [apply andb_false_r|].
      symmetry. destruct (Z.eq_dec d 0) as [->|]; [apply Z.bits_0|].
      apply Z.bits_above_log2; [lia|].
      assert (Z.log2 d < frombits) by (apply Z.log2_lt_pow2; lia). lia. }
  rewrite <- Z.lxor_lor by exact Hland. symmetry.
  apply Z.add_nocarry_lxor, Hland.
Qed.

Lemma acc_step V acc d :
  0 <= d < 2 ^ frombits -> acc mod 2 ^ B = V mod 2 ^ B ->
  Z.land (Z.lor (Z.shiftl acc frombits) d) max_acc mod 2 ^ B
  = (V * 2 ^ frombits + d) mod 2 ^ B.
Proof.
  intros Hd Hacc. unfold max_acc. fold B.
  rewrite maxv_ones, Z.land_ones, lor_shiftl_add by (unfold B; lia).
  rewrite Z.mod_mod by (apply Z.pow_nonzero; unfold B; lia).
  rewrite (Z.add_mod (acc * _)), (Z.add_mod (V * _))
    by (apply Z.pow_nonzero; unfold B; lia).
  rewrite (Z.mul_mod acc), (Z.mul_mod V) by (apply Z.pow_nonzero; unfold B; lia).
  rewrite Hacc. reflexivity.
Qed.

Lemma div_step V d bits :
  0 <= d < 2 ^ frombits -> 0 <= bits ->
  (V * 2 ^ frombits + d) / 2 ^ (bits + frombits) = V / 2 ^ bits.
Proof.
  intros Hd Hb.
  assert (Hpf : 0 < 2 ^ frombits) by (apply Z.pow_pos_nonneg; lia).
  assert (Hpb : 0 < 2 ^ bits) by (apply Z.pow_pos_nonneg; lia).
  rewrite (Z.add_comm bits), Z.pow_add_r, <- Z.div_div by lia.
  rewrite Z.div_add_l, (Z.div_small d) by lia. f_equal. lia.
Qed.

Lemma convert_loop_spec data V T acc bits ret :
  groups frombits data -> regrouped frombits tobits V T acc bits ret -> bits < tobits ->
  exists acc' bits' ret',
    convert_loop data frombits tobits maxv max_acc acc bits ret = Some (acc', bits', ret')
    /\ regrouped frombits tobits (val_from frombits data V)
                 (T + frombits * Z.of_nat (length data)) acc' bits' ret'
    /\ bits' < tobits.
Proof.
  revert V T acc bits ret.
  induction data as [|d data IH]; intros V T acc bits ret Hdata Hinv Hlt.
  - exists acc, bits, ret. split; [reflexivity|]. cbn [length val_from fold_left].
    rewrite Z.mul_0_r, Z.add_0_r. auto.
  - inversion Hdata as [|? ? Hd Hdata']; subst.
    cbn [convert_loop].
    assert (Hpf : 0 < 2 ^ frombits) by (apply Z.pow_pos_nonneg; lia).
    replace ((d <? 0) || negb (Z.shiftr d frombits =? 0)) with false.
    2:{ symmetry. rewrite Z.shiftr_div_pow2, Z.div_small by lia.
        apply orb_false_intro; [apply Z.ltb_ge; lia | reflexivity]. }
    set (acc1 := Z.land (Z.lor (Z.shiftl acc frombits) d) max_acc).
    destruct Hinv as (Hb & HT & Hval & Hacc & Hgr).
    destruct (drain_spec (Z.to_nat (bits + frombits)) (V * 2 ^ frombits + d)
                         (T + frombits) acc1 (bits + frombits) ret)
      as (bits1 & ret1 & Hdrain & Hinv1 & Hlt1).
    { unfold regrouped. repeat split; try lia.
      - rewrite div_step by lia. exact Hval.
      - apply acc_step; assumption.
      - exact Hgr. }
    { unfold B. lia. }
    { lia. }
    rewrite Hdrain.
    destruct (IH (V * 2 ^ frombits + d) (T + frombits) acc1 bits1 ret1 Hdata' Hinv1 Hlt1)
      as (acc' & bits' & ret' & Hloop & Hinv' & Hlt').
    exists acc', bits', ret'. split; [exact Hloop|]. split; [|exact Hlt'].
    cbn [length val_from fold_left].
    replace (T + frombits * Z.of_nat (S (length data)))
      with (T + frombits + frombits * Z.of_nat (length data)) by lia.
    exact Hinv'.
Qed.

Lemma acc_low V T acc bits ret :
  regrouped frombits tobits V T acc bits ret -> bits < tobits -> acc mod 2 ^ bits = V mod 2 ^ bits.
Proof.
  intros (Hb & _ & _ & Hacc & _) Hlt.
  pose proof (chunk_congr acc V 0 bits B ltac:(lia) Hb ltac:(unfold B; lia) Hacc) as H.
  change (2 ^ 0) with 1 in H. rewrite !Z.div_1_r in H. exact H.
Qed.

(** The last, padded group: the low [bits] bits of [V], shifted to the
    top of the group. *)
Lemma padding_spec V T acc bits ret :
  regrouped frombits tobits V T acc bits ret -> bits < tobits ->
  Z.land (Z.shiftl acc (tobits - bits)) maxv = V mod 2 ^ bits * 2 ^ (tobits - bits).
Proof.
  intros Hinv Hlt. pose proof (acc_low _ _ _ _ _ Hinv Hlt) as Hlow.
  destruct Hinv as (Hb & _).
  assert (Hpb : 0 < 2 ^ bits) by (apply Z.pow_pos_nonneg; lia).
  assert (Hpp : 0 < 2 ^ (tobits - bits)) by (apply Z.pow_pos_nonneg; lia).
  unfold maxv. rewrite maxv_ones, Z.land_ones, Z.shiftl_mul_pow2 by lia.
  replace (2 ^ tobits) with (2 ^ bits * 2 ^ (tobits - bits))
    by (rewrite <- Z.pow_add_r by lia; f_equal; lia).
  rewrite Z.mul_mod_distr_r by lia. rewrite Hlow. reflexivity.
Qed.

Lemma padded_val V T acc bits ret :
  regrouped frombits tobits V T acc bits ret -> bits < tobits ->
  val tobits (ret ++ [Z.land (Z.shiftl acc (tobits - bits)) maxv])
  = V * 2 ^ (tobits - bits).
Proof.
  intros Hinv Hlt. rewrite val_snoc, (padding_spec _ _ _ _ _ Hinv Hlt).
  destruct Hinv as (Hb & _ & Hval & _).
  assert (Hpb : 0 < 2 ^ bits) by (apply Z.pow_pos_nonneg; lia).
  rewrite Hval.
  replace (2 ^ tobits) with (2 ^ bits * 2 ^ (tobits - bits))
    by (rewrite <- Z.pow_add_r by lia; f_equal; lia).
  pose proof (Z.div_mod V (2 ^ bits) ltac:(lia)). nia.
Qed.

End Regroup.

Lemma regrouped_init frombits tobits : regrouped frombits tobits 0 0 0 0 [].
Proof. unfold regrouped. cbn. repeat split; try lia. constructor. Qed.

(** Bytes to 5 bit groups, padded: the groups write the number of the
    bytes, [p < 5] zero bits appended. *)
Lemma convertbits_8_5 bs :
  groups 8 bs ->
  exists data p,
    convertbits bs 8 5 true = Some data
    /\ groups 5 data /\ 0 <= p < 5
    /\ 5 * Z.of_nat (length data) = 8 * Z.of_nat (length bs) + p
    /\ val 5 data = val 8 bs * 2 ^ p.
Proof.
  intros Hbs. unfold convertbits.
  destruct (convert_loop_spec 8 5 ltac:(lia) ltac:(lia) bs 0 0 0 0 [] Hbs
                              (regrouped_init 8 5) ltac:(lia))
    as (acc & bits & ret & -> & Hinv & Hlt).
  fold (val 8 bs) in Hinv. rewrite Z.add_0_l in Hinv.
  destruct (bits =? 0) eqn:Hz; cbn [negb].
  - apply Z.eqb_eq in Hz. subst bits. exists ret, 0.
    destruct Hinv as (_ & HT & Hval & _ & Hgr).
    change (2 ^ 0) with 1 in *. rewrite Z.div_1_r in Hval.
    repeat split; try lia; assumption.
  - apply Z.eqb_neq in Hz. eexists. exists (5 - bits).
    split; [reflexivity|].
    pose proof (padded_val 8 5 ltac:(lia) ltac:(lia) _ _ _ _ _ Hinv Hlt) as Hpad.
    destruct Hinv as (Hb & HT & Hval & _ & Hgr).
    split; [|split; [lia | split]].
    + apply groups_snoc; [exact Hgr | apply chunk_range; lia].
    + rewrite length_app. cbn [length]. lia.
    + exact Hpad.
Qed.

(** 5 bit groups back to bytes, without padding: accepted when the
    [p < 5] surplus bits are zero, and then the bytes write the number
    without them. *)
Lemma convertbits_5_8 data n p V :
  groups 5 data -> 0 <= p < 5 ->
  5 * Z.of_nat (length data) = 8 * Z.of_nat n + p ->
  val 5 data = V * 2 ^ p ->
  exists bs,
    convertbits data 5 8 false = Some bs
    /\ groups 8 bs /\ length bs = n /\ val 8 bs = V.
Proof.
  intros Hdata Hp Hlen HV. unfold convertbits.
  destruct (convert_loop_spec 5 8 ltac:(lia) ltac:(lia) data 0 0 0 0 [] Hdata
                              (regrouped_init 5 8) ltac:(lia))
    as (acc & bits & ret & -> & Hinv & Hlt).
  fold (val 5 data) in Hinv. rewrite Z.add_0_l in Hinv.
  pose proof (padding_spec 5 8 ltac:(lia) ltac:(lia) _ _ _ _ _ Hinv Hlt) as Hpad.
  destruct Hinv as (Hb & HT & Hval & _ & Hgr).
  assert (bits = p /\ length ret = n) as [-> Hn] by lia.
  assert (Hpp : 0 < 2 ^ p) by (apply Z.pow_pos_nonneg; lia).
  rewrite Hpad, HV, Z.mod_mul, Z.mul_0_l by lia.
  replace (p >=? 5) with false by (symmetry; rewrite Z.geb_leb; apply Z.leb_gt; lia).
  cbn [orb negb Z.eqb]. exists ret. split; [reflexivity|].
  split; [exact Hgr | split; [exact Hn|]].
  rewrite Hval, HV, Z.div_mul by lia. reflexivity.
Qed.

Lemma convertbits_roundtrip bs :
  groups 8 bs ->
  exists data,
    convertbits bs 8 5 true = Some data /\ groups 5 data
    /\ 5 * Z.of_nat (length data) < 8 * Z.of_nat (length bs) + 5
    /\ convertbits data 5 8 false = Some bs.
Proof.
  intros Hbs.
  destruct (convertbits_8_5 bs Hbs) as (data & p & Henc & Hdata & Hp & Hlen & Hval).
  exists data. split; [exact Henc|]. split; [exact Hdata|]. split; [lia|].
  destruct (convertbits_5_8 data (length bs) p (val 8 bs) Hdata Hp Hlen Hval)
    as (bs' & Hdec & Hbs' & Hlen' & Hval').
  rewrite Hdec. f_equal.
  apply (val_inj 8); [lia | assumption | assumption | assumption | assumption].
Qed.

(** ** Encoded strings *)

(** *** Strings as lists of characters *)

Lemma str_map_of_list f cs :
  str_map f (string_of_list_ascii cs) = string_of_list_ascii (map f cs).
Proof. induction cs as [|c cs IH]; cbn; [reflexivity | rewrite IH; reflexivity]. Qed.

Lemma str_forallb_of_list p cs :
  str_forallb p (string_of_list_ascii cs) = forallb p cs.
Proof. induction cs as [|c cs IH]; cbn; [reflexivity | rewrite IH; reflexivity]. Qed.

Lemma length_of_list cs : String.length (string_of_list_ascii cs) = length cs.
Proof. induction cs as [|c cs IH]; cbn; [reflexivity | rewrite IH; reflexivity]. Qed.

Lemma str_map_length f s : String.length (str_map f s) = String.length s.
Proof. induction s as [|c s IH]; cbn; [reflexivity | rewrite IH; reflexivity]. Qed.

Lemma rfind_from_absent c cs i last :
  forallb (fun a => negb (Ascii.eqb a c)) cs = true ->
  rfind_from c (string_of_list_ascii cs) i last = last.
Proof.
  revert i. induction cs as [|a cs IH]; intros i H; [reflexivity|].
  cbn in H |- *. apply andb_prop in H as [Ha Hcs].
  destruct (Ascii.eqb a c); [discriminate|]. apply IH, Hcs.
Qed.

(** *** ASCII text and UTF-8 *)

Lemma chr_ord c : chr (ord c) = c.
Proof. unfold chr, ord. rewrite N2Z.id. apply ascii_N_embedding. Qed.

Lemma ord_range c : 0 <= ord c < 256.
Proof. unfold ord. pose proof (N_ascii_bounded c). lia. Qed.

Lemma bytes_str_bytes s : bytes_str (str_bytes s) = s.
Proof.
  unfold bytes_str, str_bytes. rewrite map_map.
  rewrite (map_ext _ (fun c => c)) by apply chr_ord.
  rewrite map_id. apply string_of_list_ascii_of_string.
Qed.

Lemma str_bytes_groups s : groups 8 (str_bytes s).
Proof.
  unfold groups, str_bytes. apply Forall_map, List.Forall_forall. intros c _.
  change (2 ^ 8) with 256. apply ord_range.
Qed.

Lemma str_bytes_length s : length (str_bytes s) = String.length s.
Proof.
  unfold str_bytes. rewrite length_map.
  induction s as [|c s IH]; cbn; [reflexivity | rewrite IH; reflexivity].
Qed.

Lemma ascii_utf8_valid s : isprintable s = true -> utf8_valid (str_bytes s) = true.
Proof.
  unfold isprintable, str_bytes.
  induction s as [|c s IH]; cbn [str_forallb list_ascii_of_string map]; [reflexivity|].
  intros H. apply andb_prop in H as [Hc Hs].
  cbn [utf8_valid].
  replace (in_range 0 127 (ord c)) with true; [apply IH, Hs|].
  symmetry. unfold in_range in *. apply andb_prop in Hc as [H1 H2].
  apply Z.leb_le in H1, H2. apply andb_true_intro. split; apply Z.leb_le; lia.
Qed.

Lemma groups_bytes bs : groups 8 bs -> bytes (Some bs) = Ok bs.
Proof.
  intros H. unfold bytes.
  replace (forallb (in_range 0 255) bs) with true; [reflexivity|].
  symmetry. apply forallb_forall. intros b Hb.
  unfold groups in H. rewrite List.Forall_forall in H. specialize (H b Hb).
  change (2 ^ 8) with 256 in H. unfold in_range.
  apply andb_true_intro. split; apply Z.leb_le; lia.
Qed.

(** *** The 32 symbols *)

Lemma forall_symbols (p : Z -> bool) :
  forallb p (map Z.of_nat (seq 0 32)) = true -> forall d, 0 <= d < 32 -> p d = true.
Proof.
  intros H d Hd. rewrite forallb_forall in H. apply H.
  apply in_map_iff. exists (Z.to_nat d). split; [lia|]. apply in_seq. lia.
Qed.

Lemma charset_index d : 0 <= d < 32 -> str_index CHARSET d = Ok (symbol_char d).
Proof.
  intros Hd.
  assert (H : (match str_index CHARSET d with
               | Ok c => Ascii.eqb c (symbol_char d)
               | Raise _ => false
               end) = true).
  { revert d Hd. apply forall_symbols. vm_compute. reflexivity. }
  destruct (str_index CHARSET d); [|discriminate].
  apply Ascii.eqb_eq in H. rewrite H. reflexivity.
Qed.

Lemma charset_find d : 0 <= d < 32 -> find CHARSET (symbol_char d) = d.
Proof.
  intros Hd. apply Z.eqb_eq. revert d Hd.
  apply (forall_symbols (fun d => find CHARSET (symbol_char d) =? d)).
  vm_compute. reflexivity.
Qed.

Lemma charset_contains d : 0 <= d < 32 -> contains CHARSET (symbol_char d) = true.
Proof.
  revert d. apply (forall_symbols (fun d => contains CHARSET (symbol_char d))).
  vm_compute. reflexivity.
Qed.

Lemma symbol_lower_upper d :
  0 <= d < 32 -> lower_char (upper_char (symbol_char d)) = symbol_char d.
Proof.
  intros Hd. apply Ascii.eqb_eq. revert d Hd.
  apply (forall_symbols
           (fun d => Ascii.eqb (lower_char (upper_char (symbol_char d))) (symbol_char d))).
  vm_compute. reflexivity.
Qed.

Lemma symbol_upper_upper d :
  0 <= d < 32 ->
  upper_char (upper_char (symbol_char d)) = upper_char (symbol_char d).
Proof.
  intros Hd. apply Ascii.eqb_eq. revert d Hd.
  apply (forall_symbols
           (fun d => Ascii.eqb (upper_char (upper_char (symbol_char d)))
                               (upper_char (symbol_char d)))).
  vm_compute. reflexivity.
Qed.

Lemma symbol_upper_visible d :
  0 <= d < 32 ->
  negb ((ord (upper_char (symbol_char d)) <? 33)
        || (ord (upper_char (symbol_char d)) >? 126)) = true.
Proof.
  revert d.
  apply (forall_symbols
           (fun d => negb ((ord (upper_char (symbol_char d)) <? 33)
                           || (ord (upper_char (symbol_char d)) >? 126)))).
  vm_compute. reflexivity.
Qed.

Lemma symbol_not_separator d :
  0 <= d < 32 -> negb (Ascii.eqb (symbol_char d) "1") = true.
Proof.
  revert d. apply (forall_symbols (fun d => negb (Ascii.eqb (symbol_char d) "1"))).
  vm_compute. reflexivity.
Qed.

Lemma forallb_map_symbols (p : ascii -> bool) (f : ascii -> ascii) ds :
  (forall d, 0 <= d < 32 -> p (f (symbol_char d)) = true) ->
  groups 5 ds -> forallb p (map f (map symbol_char ds)) = true.
Proof.
  intros Hp Hds. apply forallb_forall. intros c Hc.
  apply in_map_iff in Hc as (c' & <- & Hc').
  apply in_map_iff in Hc' as (d & <- & Hd).
  unfold groups in Hds. rewrite List.Forall_forall in Hds.
  apply Hp. change 32 with (2 ^ 5). apply Hds, Hd.
Qed.

Lemma map_symbols_ext (f : ascii -> ascii) (g : Z -> ascii) ds :
  (forall d, 0 <= d < 32 -> f (symbol_char d) = g d) ->
  groups 5 ds -> map f (map symbol_char ds) = map g ds.
Proof.
  intros Hf Hds. rewrite map_map. apply map_ext_in. intros d Hd.
  unfold groups in Hds. rewrite List.Forall_forall in Hds.
  apply Hf. change 32 with (2 ^ 5). apply Hds, Hd.
Qed.

Lemma mapM_charset ds :
  groups 5 ds -> mapM (str_index CHARSET) ds = Ok (map symbol_char ds).
Proof.
  induction 1 as [|d ds Hd Hds IH]; [reflexivity|].
  cbn [mapM map]. rewrite charset_index by (change 32 with (2 ^ 5); exact Hd).
  cbn [bind]. rewrite IH. reflexivity.
Qed.

Lemma checksum_groups hrp data : groups 5 (bech32_create_checksum hrp data).
Proof.
  unfold bech32_create_checksum. apply Forall_map, List.Forall_forall. intros i _.
  change 31 with (Z.shiftl 1 5 - 1). apply chunk_range. lia.
Qed.

Lemma checksum_length hrp data : length (bech32_create_checksum hrp data) = 6%nat.
Proof. reflexivity. Qed.

Lemma bech32_encode_symbols hrp data :
  groups 5 data ->
  bech32_encode hrp data =
    Ok (hrp +:+ "1" +:+
        string_of_list_ascii (map symbol_char (data ++ bech32_create_checksum hrp data))).
Proof.
  intros Hdata. unfold bech32_encode.
  rewrite mapM_charset; [reflexivity|].
  apply Forall_app. split; [exact Hdata | apply checksum_groups].
Qed.

(** *** Decoding an encoded string *)

Lemma upper_encoded cs :
  upper ("lnurl" +:+ "1" +:+ string_of_list_ascii cs)
  = "LNURL1" +:+ string_of_list_ascii (map upper_char cs).
Proof.
  unfold upper. rewrite <- str_map_of_list. reflexivity.
Qed.

Lemma firstn_combined (data chk : list Z) :
  length chk = 6%nat -> firstn (length (data ++ chk) - 6) (data ++ chk) = data.
Proof.
  intros Hchk. rewrite length_app, Hchk.
  replace (length data + 6 - 6)%nat with (length data + 0)%nat by lia.
  rewrite firstn_app_2. cbn. apply app_nil_r.
Qed.

Section Decoding.
Context `{LC : LengthCeiling}.

Lemma bech32_decode_encoded data :
  groups 5 data ->
  let lnurl :=
    upper ("lnurl" +:+ "1" +:+
           string_of_list_ascii
             (map symbol_char (data ++ bech32_create_checksum "lnurl" data))) in
  too_long (len lnurl) = false ->
  bech32_decode lnurl = (Some "lnurl", Some data).
Proof.
  intros Hdata lnurl Hlen. subst lnurl.
  set (combined := data ++ bech32_create_checksum "lnurl" data) in *.
  assert (Hc : groups 5 combined).
  { apply Forall_app. split; [exact Hdata | apply checksum_groups]. }
  rewrite upper_encoded in *.
  set (cs := map symbol_char combined) in *.
  assert (Hlower : lower ("LNURL1" +:+ string_of_list_ascii (map upper_char cs))
                   = "lnurl1" +:+ string_of_list_ascii cs).
  { unfold lower. change (str_map lower_char ("LNURL1" +:+ ?s))
      with ("lnurl1" +:+ str_map lower_char s).
    rewrite str_map_of_list. unfold cs.
    rewrite (map_symbols_ext upper_char (fun d => upper_char (symbol_char d)))
      by (reflexivity || exact Hc).
    rewrite <- (map_map symbol_char upper_char), map_map.
    rewrite (map_symbols_ext (fun c => lower_char (upper_char c)) symbol_char)
      by (apply symbol_lower_upper || exact Hc).
    reflexivity. }
  assert (Hupper : upper ("LNURL1" +:+ string_of_list_ascii (map upper_char cs))
                   = "LNURL1" +:+ string_of_list_ascii (map upper_char cs)).
  { unfold upper. change (str_map upper_char ("LNURL1" +:+ ?s))
      with ("LNURL1" +:+ str_map upper_char s).
    rewrite str_map_of_list. unfold cs. rewrite (map_map upper_char upper_char).
    rewrite (map_symbols_ext (fun c => upper_char (upper_char c))
                             (fun d => upper_char (symbol_char d)))
      by (apply symbol_upper_upper || exact Hc).
    rewrite (map_map symbol_char upper_char). reflexivity. }
  assert (Hlen' : len ("lnurl1" +:+ string_of_list_ascii cs) = 6 + Z.of_nat (length cs)).
  { unfold len. change (String.length ("lnurl1" +:+ ?s)) with (6 + String.length s)%nat.
    rewrite length_of_list. lia. }
  assert (Hlen'' : len ("LNURL1" +:+ string_of_list_ascii (map upper_char cs))
                   = 6 + Z.of_nat (length cs)).
  { unfold len. change (String.length ("LNURL1" +:+ ?s)) with (6 + String.length s)%nat.
    rewrite length_of_list, length_map. lia. }
  assert (Hcs : length cs = (length data + 6)%nat).
  { unfold cs, combined. rewrite length_map, length_app, checksum_length. reflexivity. }
  unfold bech32_decode.
  (* every character is visible, and the string is upper case *)
  replace (str_forallb _ ("LNURL1" +:+ string_of_list_ascii (map upper_char cs)))
    with true.
  2:{ symmetry.
      change (str_forallb ?p ("LNURL1" +:+ ?s)) with (str_forallb p s).
      rewrite str_forallb_of_list. unfold cs.
      apply (forallb_map_symbols _ upper_char); [apply symbol_upper_visible | exact Hc]. }
  rewrite Hupper, String.eqb_refl, Hlower. cbn [negb andb orb].
  rewrite andb_false_r.
  (* the separator is the sixth character *)
  assert (Hpos : rfind ("lnurl1" +:+ string_of_list_ascii cs) "1" = 5).
  { unfold rfind.
    change (rfind_from ?c ("lnurl1" +:+ ?s) 0 (-1)) with (rfind_from c s 6 5).
    apply rfind_from_absent. unfold cs.
    rewrite <- (map_id (map symbol_char combined)).
    apply (forallb_map_symbols (fun a => negb (Ascii.eqb a "1")) (fun c => c));
      [apply symbol_not_separator | exact Hc]. }
  rewrite Hpos, Hlen'.
  rewrite Hlen'' in Hlen. rewrite Hlen.
  replace (5 + 7 >? 6 + Z.of_nat (length cs)) with false
    by (symmetry; rewrite Z.gtb_ltb; apply Z.ltb_ge; lia).
  cbn [orb Z.ltb Z.compare].
  change (str_drop (Z.to_nat (5 + 1)) ("lnurl1" +:+ ?s)) with s.
  change (str_take (Z.to_nat 5) ("lnurl1" +:+ ?s)) with "lnurl".
  rewrite str_forallb_of_list, list_ascii_of_string_of_list_ascii.
  replace (forallb (contains CHARSET) cs) with true.
  2:{ symmetry. unfold cs. rewrite <- (map_id (map symbol_char combined)).
      apply (forallb_map_symbols _ (fun c => c)); [apply charset_contains | exact Hc]. }
  cbn [negb].
  replace (map (find CHARSET) cs) with combined.
  2:{ unfold cs. rewrite map_map. rewrite <- (map_id combined) at 1.
      apply map_ext_in. intros d Hd. symmetry. apply charset_find.
      unfold groups in Hc. rewrite List.Forall_forall in Hc.
      change 32 with (2 ^ 5). apply Hc, Hd. }
  unfold combined at 1. rewrite checksum_verifies. cbn [negb].
  unfold combined. rewrite firstn_combined by apply checksum_length. reflexivity.
Qed.

Lemma url_encode_symbols url :
  isprintable url = true ->
  exists data,
    convertbits (str_bytes url) 8 5 true = Some data /\ groups 5 data
    /\ convertbits data 5 8 false = Some (str_bytes url)
    /\ _url_encode url =
         Ok (upper ("lnurl" +:+ "1" +:+
                    string_of_list_ascii
                      (map symbol_char (data ++ bech32_create_checksum "lnurl" data)))).
Proof.
  intros Hp.
  destruct (convertbits_roundtrip (str_bytes url) (str_bytes_groups url))
    as (data & Henc & Hdata & _ & Hdec).
  exists data. split; [exact Henc|]. split; [exact Hdata|]. split; [exact Hdec|].
  unfold _url_encode, encode_utf8. rewrite (ascii_utf8_valid url Hp).
  cbn [bind]. rewrite Henc, (bech32_encode_symbols "lnurl" data Hdata). reflexivity.
Qed.

(** C1.  A URL of printable ASCII characters is always encoded, to a
    string that does not start with [lightning:]; and when that string is
    not longer than bech32 decoding accepts, decoding it gives the URL
    back. *)
Theorem url_roundtrip url :
  isprintable url = true ->
  exists lnurl,
    _url_encode url = Ok lnurl
    /\ startswith lnurl "lightning:" = false
    /\ (too_long (len lnurl) = false -> _lnurl_decode lnurl = Ok url).
Proof.
  intros Hp.
  destruct (url_encode_symbols url Hp) as (data & Henc & Hdata & Hdec & Hurl).
  eexists. split; [exact Hurl|].
  split.
  - rewrite upper_encoded. reflexivity.
  - intros Hlen. unfold _lnurl_decode, stripped.
    replace (startswith _ "lightning:") with false
      by (rewrite upper_encoded; reflexivity).
    unfold _bech32_decode.
    rewrite (bech32_decode_encoded data Hdata Hlen).
    cbn [existsb String.eqb Ascii.eqb Bool.eqb negb orb bind].
    rewrite Hdec, (groups_bytes _ (str_bytes_groups url)). cbn [bind].
    unfold decode_utf8. rewrite (ascii_utf8_valid url Hp), bytes_str_bytes. reflexivity.
Qed.

End Decoding.

Lemma url_roundtrip_witness :
  isprintable example_url = true
  /\ _url_encode example_url = Ok example_lnurl
  /\ too_long (LC := bip173_ceiling) (len example_lnurl) = false
  /\ _lnurl_decode (LC := bip173_ceiling) example_lnurl = Ok example_url.
Proof.
  assert (Hp : isprintable example_url = true) by reflexivity.
  destruct (url_roundtrip (LC := bip173_ceiling) example_url Hp)
    as (lnurl & Henc & _ & Hdec).
  assert (Hl : lnurl = example_lnurl).
  { vm_compute in Henc. injection Henc as <-. reflexivity. }
  subst lnurl.
  assert (Hlen : too_long (LC := bip173_ceiling) (len example_lnurl) = false)
    by reflexivity.
  split; [exact Hp|]. split; [exact Henc|]. split; [exact Hlen|]. exact (Hdec Hlen).
Defined.

(** ** Failures of the decoder *)

Lemma drain_groups fuel acc bits tobits ret :
  0 <= tobits -> groups tobits ret ->
  groups tobits (drain fuel acc bits tobits (Z.shiftl 1 tobits - 1) ret).2.
Proof.
  intros Hto. revert bits ret. induction fuel as [|fuel IH]; intros bits ret Hret.
  - exact Hret.
  - cbn [drain]. destruct (bits >=? tobits); [|exact Hret].
    apply IH, groups_snoc; [exact Hret | apply chunk_range, Hto].
Qed.

Lemma convert_loop_groups data frombits tobits max_acc acc bits ret acc' bits' ret' :
  0 <= tobits -> groups tobits ret ->
  convert_loop data frombits tobits (Z.shiftl 1 tobits - 1) max_acc acc bits ret
    = Some (acc', bits', ret') ->
  groups tobits ret'.
Proof.
  intros Hto. revert acc bits ret.
  induction data as [|d data IH]; intros acc bits ret Hret.
  - intros [= <- <- <-]. exact Hret.
  - cbn [convert_loop]. destruct ((d <? 0) || _); [discriminate|].
    pose proof (drain_groups (Z.to_nat (bits + frombits))
                  (Z.land (Z.lor (Z.shiftl acc frombits) d) max_acc)
                  (bits + frombits) tobits ret Hto Hret) as Hdrain.
    destruct (drain _ _ _ _ _ _) as [bits1 ret1]. apply IH, Hdrain.
Qed.

Lemma convertbits_unpadded_groups data frombits tobits ret :
  0 <= tobits -> convertbits data frombits tobits false = Some ret -> groups tobits ret.
Proof.
  intros Hto. unfold convertbits.
  destruct (convert_loop _ _ _ _ _ _ _ _) as [[[acc bits] ret']|] eqn:Hloop;
    [|discriminate].
  destruct (_ || _); [discriminate|]. intros [= <-].
  eapply convert_loop_groups; [exact Hto | constructor | exact Hloop].
Qed.

Section Failures.
Context `{LC : LengthCeiling}.

(** Whatever makes [bech32_decode] give up, a failed checksum included,
    comes back as the pair of [None]. *)
Lemma bech32_decode_checksum bech :
  let b := lower bech in
  let pos := rfind b "1" in
  bech32_verify_checksum
    (str_take (Z.to_nat pos) b)
    (map (find CHARSET) (list_ascii_of_string (str_drop (Z.to_nat (pos + 1)) b))) = false ->
  bech32_decode bech = (None, None).
Proof.
  intros b pos Hsum. unfold bech32_decode. fold b. fold pos.
  destruct (_ || _); [reflexivity|].
  destruct (_ || _); [reflexivity|].
  destruct (negb (str_forallb _ _)); [reflexivity|].
  rewrite Hsum. reflexivity.
Qed.

Lemma lnurl_decode_bech32_failure lnurl :
  bech32_decode (stripped lnurl) = (None, None) ->
  _lnurl_decode lnurl = Raise (ValueError "Invalid Human Readable Prefix (HRP): None.").
Proof.
  intros H. unfold _lnurl_decode, _bech32_decode.
  rewrite H. reflexivity.
Qed.

Lemma lnurl_decode_other_prefix lnurl hrp data :
  bech32_decode (stripped lnurl) = (Some hrp, Some data) -> hrp <> "lnurl" ->
  _lnurl_decode lnurl =
    Raise (ValueError ("Invalid Human Readable Prefix (HRP): " +:+ hrp +:+ ".")).
Proof.
  intros H Hne. unfold _lnurl_decode, _bech32_decode.
  rewrite H. cbn [existsb orb].
  apply String.eqb_neq in Hne. rewrite Hne. reflexivity.
Qed.

Lemma lnurl_decode_not_utf8 lnurl data bs :
  bech32_decode (stripped lnurl) = (Some "lnurl", Some data) ->
  convertbits data 5 8 false = Some bs -> utf8_valid bs = false ->
  _lnurl_decode lnurl = Raise (ValueError "Invalid LNURL.").
Proof.
  intros H Hbits Hutf. unfold _lnurl_decode, _bech32_decode.
  rewrite H. cbn [existsb orb negb bind]. change ("lnurl" =? "lnurl")%string with true.
  cbn [orb negb bind]. rewrite Hbits.
  rewrite (groups_bytes bs) by (eapply convertbits_unpadded_groups; [|exact Hbits]; lia).
  cbn [bind]. unfold decode_utf8. rewrite Hutf. reflexivity.
Qed.

(** C7, as amended.  The decoder raises [ValueError] with one of two
    messages.  The first names the prefix that bech32 decoding returned:
    the word [None] whenever bech32 decoding gave up, as it does on a
    checksum that does not verify, and the prefix itself when it is not
    [lnurl].  The second, [Invalid LNURL.], is for bytes that are not
    UTF-8. *)
Theorem decode_failures lnurl :
  (bech32_decode (stripped lnurl) = (None, None) ->
   _lnurl_decode lnurl = Raise (ValueError "Invalid Human Readable Prefix (HRP): None."))
  /\ (let b := lower (stripped lnurl) in
      let pos := rfind b "1" in
      bech32_verify_checksum
        (str_take (Z.to_nat pos) b)
        (map (find CHARSET) (list_ascii_of_string (str_drop (Z.to_nat (pos + 1)) b)))
      = false ->
      bech32_decode (stripped lnurl) = (None, None))
  /\ (forall hrp data,
         bech32_decode (stripped lnurl) = (Some hrp, Some data) -> hrp <> "lnurl" ->
         _lnurl_decode lnurl =
           Raise (ValueError ("Invalid Human Readable Prefix (HRP): " +:+ hrp +:+ ".")))
  /\ (forall data bs,
         bech32_decode (stripped lnurl) = (Some "lnurl", Some data) ->
         convertbits data 5 8 false = Some bs -> utf8_valid bs = false ->
         _lnurl_decode lnurl = Raise (ValueError "Invalid LNURL.")).
Proof.
  split; [apply lnurl_decode_bech32_failure|].
  split; [apply bech32_decode_checksum|].
  split; [apply lnurl_decode_other_prefix | apply lnurl_decode_not_utf8].
Qed.

End Failures.

(** C7.  A string with the prefix [lnurl] whose checksum does not verify
    is refused with the invalid prefix message, the very error that a
    string without any prefix gets. *)
Lemma checksum_failure_is_prefix_error :
  str_take 5 (lower corrupted) = "lnurl"
  /\ rfind (lower corrupted) "1" = 5
  /\ bech32_verify_checksum "lnurl"
       (map (find CHARSET) (list_ascii_of_string (str_drop 6 (lower corrupted)))) = false
  /\ _lnurl_decode (LC := bip173_ceiling) corrupted
     = Raise (ValueError "Invalid Human Readable Prefix (HRP): None.")
  /\ _lnurl_decode (LC := bip173_ceiling) "1qqqqqq"
     = _lnurl_decode (LC := bip173_ceiling) corrupted.
Proof. repeat split; vm_compute; reflexivity. Qed.

Lemma decode_failures_witness :
  _lnurl_decode (LC := bip173_ceiling) corrupted
  = Raise (ValueError "Invalid Human Readable Prefix (HRP): None.")
  /\ _lnurl_decode (LC := bip173_ceiling) example_address
     = Raise (ValueError "Invalid Human Readable Prefix (HRP): bc.")
  /\ _lnurl_decode (LC := bip173_ceiling) example_not_utf8
     = Raise (ValueError "Invalid LNURL.").
Proof.
  split; [|split].
  - apply (decode_failures (LC := bip173_ceiling) corrupted).
    apply (decode_failures (LC := bip173_ceiling) corrupted).
    vm_compute. reflexivity.
  - apply (proj1 (proj2 (proj2 (decode_failures (LC := bip173_ceiling) example_address)))
             "bc"
             [0; 14; 20; 15; 7; 13; 26; 0; 25; 18; 6; 11; 13; 8; 21; 4; 20; 3; 17; 2; 29;
              3; 12; 29; 3; 4; 15; 24; 20; 6; 14; 30; 22]).
    + vm_compute. reflexivity.
    + discriminate.
  - apply (proj2 (proj2 (proj2 (decode_failures (LC := bip173_ceiling) example_not_utf8)))
             [31; 31; 31; 16] [255; 255]); vm_compute; reflexivity.
Defined.

(** Symbols that do not regroup into whole bytes make [convertbits] return
    [None], which [bytes] refuses: neither of the two messages. *)
Example not_bytes_type_error :
  _lnurl_decode (LC := bip173_ceiling) example_not_bytes = Raise TypeError.
Proof. vm_compute. reflexivity. Qed.

(** * Further properties *)

(** ** The classifier, branch by branch *)

Section MoreClassifier.
Context `{FT : FieldTypes}.
Implicit Types d : gmap string value.

Lemma tagged_delete_status d :
  is_Some (d !! "tag") ->
  LnurlResponse.from_dict_tagged (delete "status" d) = LnurlResponse.from_dict_tagged d.
Proof.
  intros [t Ht]. unfold LnurlResponse.from_dict_tagged.
  rewrite lookup_delete_ne by discriminate. rewrite Ht.
  rewrite delete_delete_eq. reflexivity.
Qed.

Lemma body_idempotent d :
  LnurlResponse.from_dict_body (LnurlResponse.from_dict_body d).2
  = LnurlResponse.from_dict_body d.
Proof.
  assert (Htag : forall d, LnurlResponse.from_dict_tagged (LnurlResponse.from_dict_tagged d).2
                           = LnurlResponse.from_dict_tagged d
                           /\ ((LnurlResponse.from_dict_tagged d).2 = d
                               \/ (LnurlResponse.from_dict_tagged d).2 = delete "status" d)).
  { intros d0. unfold LnurlResponse.from_dict_tagged at 2 4 5.
    destruct (d0 !! "tag") as [t|] eqn:Ht; cbn [snd].
    - split; [|right; reflexivity].
      unfold LnurlResponse.from_dict_tagged.
      rewrite lookup_delete_ne by discriminate. rewrite Ht, delete_delete_eq. reflexivity.
    - split; [|left; destruct (d0 !! "success_action"); reflexivity].
      destruct (d0 !! "success_action") eqn:Ha; cbn [snd];
        unfold LnurlResponse.from_dict_tagged; rewrite Ht, Ha; reflexivity. }
  unfold LnurlResponse.from_dict_body at 2 3.
  destruct (d !! "status") as [v|] eqn:Hs.
  - destruct v; cbn [LnurlResponse.upper_method snd];
      try (unfold LnurlResponse.from_dict_body; rewrite Hs; reflexivity).
    destruct (String.eqb (upper s) "ERROR") eqn:Hu; cbn [snd].
    + apply String.eqb_eq in Hu. rewrite Hu.
      unfold LnurlResponse.from_dict_body. rewrite lookup_insert_eq.
      cbn [LnurlResponse.upper_method].
      change (upper "ERROR") with "ERROR". rewrite String.eqb_refl, insert_insert_eq.
      reflexivity.
    + destruct (Htag d) as [Hidem [Hd | Hd]].
      * rewrite Hd. unfold LnurlResponse.from_dict_body. rewrite Hs.
        cbn [LnurlResponse.upper_method]. rewrite Hu. reflexivity.
      * rewrite <- Hidem at 2. rewrite Hd.
        unfold LnurlResponse.from_dict_body. rewrite lookup_delete_eq. reflexivity.
  - destruct (Htag d) as [Hidem [Hd | Hd]].
    + rewrite Hd. unfold LnurlResponse.from_dict_body. rewrite Hs. reflexivity.
    + rewrite <- Hidem at 2. rewrite Hd.
      unfold LnurlResponse.from_dict_body. rewrite lookup_delete_eq. reflexivity.
Qed.

(** X1.  A second call of [from_dict] on the mapping that a first call left
    behind returns the same result and changes nothing more. *)
Theorem from_dict_idempotent d :
  LnurlResponse.from_dict (LnurlResponse.from_dict d).2 = LnurlResponse.from_dict d.
Proof.
  rewrite !from_dict_of_body. cbn [snd]. rewrite body_idempotent. reflexivity.
Qed.

(** *** What the constructors guarantee *)

Lemma literal_field alias name lit d s :
  validate_field cfg alias name (Some lit) (literal lit) d = Valid s -> s = lit.
Proof.
  unfold validate_field. destruct (get_value _ alias name d) as [v|].
  - unfold literal. destruct v; try discriminate.
    destruct (String.eqb _ lit); [|discriminate]. intros [= <-]. reflexivity.
  - intros [= <-]. reflexivity.
Qed.

Lemma success_new_status d r :
  LnurlSuccessResponse.new d = Ok r -> LnurlSuccessResponse.status r = "OK".
Proof.
  intros H. apply init_ok in H as [_ H]. revert H.
  unfold LnurlSuccessResponse.validate_model.
  destruct (validate_field _ "status" _ _ _ d) as [s|] eqn:Hs; [|discriminate].
  intros [= <-]. exact (literal_field _ _ _ _ _ Hs).
Qed.

Lemma channel_new_tag d r :
  LnurlChannelResponse.new d = Ok r -> LnurlChannelResponse.tag r = "channelRequest".
Proof.
  intros H. apply init_ok in H as [_ H]. revert H.
  unfold LnurlChannelResponse.validate_model.
  destruct (validate_field _ "tag" _ _ _ d) as [s|] eqn:Hs; [|discriminate].
  destruct (validate_field _ "uri" _ _ _ d); [|discriminate].
  destruct (validate_field _ "callback" _ _ _ d); [|discriminate].
  destruct (validate_field _ "k1" _ _ _ d); [|discriminate].
  intros [= <-]. exact (literal_field _ _ _ _ _ Hs).
Qed.

Lemma hosted_new_tag d r :
  LnurlHostedChannelResponse.new d = Ok r ->
  LnurlHostedChannelResponse.tag r = "hostedChannelRequest".
Proof.
  intros H. apply init_ok in H as [_ H]. revert H.
  unfold LnurlHostedChannelResponse.validate_model.
  destruct (validate_field _ "tag" _ _ _ d) as [s|] eqn:Hs; [|discriminate].
  destruct (validate_field _ "uri" _ _ _ d); [|discriminate].
  destruct (validate_field _ "k1" _ _ _ d); [|discriminate].
  destruct (validate_field _ "alias" _ _ _ d); [|discriminate].
  intros [= <-]. exact (literal_field _ _ _ _ _ Hs).
Qed.

Lemma pay_new_tag d r :
  LnurlPayResponse.new d = Ok r -> LnurlPayResponse.tag r = "payRequest".
Proof.
  intros H. apply init_ok in H as [_ H]. revert H.
  unfold LnurlPayResponse.validate_model.
  destruct (validate_field _ "tag" _ _ _ d) as [s|] eqn:Hs; [|discriminate].
  destruct (validate_field _ "callback" _ _ _ d); [|discriminate].
  destruct (validate_field _ "minSendable" _ _ _ d); [|discriminate].
  destruct (and_then _ _); [|discriminate].
  destruct (validate_field _ "metadata" _ _ _ d); [|discriminate].
  intros [= <-]. exact (literal_field _ _ _ _ _ Hs).
Qed.

Lemma withdraw_new_tag d r :
  LnurlWithdrawResponse.new d = Ok r -> LnurlWithdrawResponse.tag r = "withdrawRequest".
Proof.
  intros H. apply init_ok in H as [_ H]. revert H.
  unfold LnurlWithdrawResponse.validate_model.
  destruct (validate_field _ "tag" _ _ _ d) as [s|] eqn:Hs; [|discriminate].
  destruct (validate_field _ "callback" _ _ _ d); [|discriminate].
  destruct (validate_field _ "k1" _ _ _ d); [|discriminate].
  destruct (validate_field _ "minWithdrawable" _ _ _ d); [|discriminate].
  destruct (and_then _ _); [|discriminate].
  destruct (validate_field _ "defaultDescription" _ _ _ d); [|discriminate].
  intros [= <-]. exact (literal_field _ _ _ _ _ Hs).
Qed.

Lemma construct_ok {A} (wrap : A -> LnurlResponseModel) (r : result A) m :
  LnurlResponse.construct wrap r = Ok m -> exists a, r = Ok a /\ m = wrap a.
Proof.
  unfold LnurlResponse.construct. destruct r as [a|e]; cbn; [|discriminate].
  intros [= <-]. eauto.
Qed.

(** What a successful [dispatch] returned, by the tag it was given. *)
Lemma dispatch_ok t d m :
  LnurlResponse.dispatch t d = Ok m ->
  (t = VStr "channelRequest" /\ exists r, LnurlChannelResponse.new d = Ok r /\ m = Channel r)
  \/ (t = VStr "hostedChannelRequest"
      /\ exists r, LnurlHostedChannelResponse.new d = Ok r /\ m = HostedChannel r)
  \/ (t = VStr "payRequest" /\ exists r, LnurlPayResponse.new d = Ok r /\ m = Pay r)
  \/ (t = VStr "withdrawRequest"
      /\ exists r, LnurlWithdrawResponse.new d = Ok r /\ m = Withdraw r).
Proof.
  unfold LnurlResponse.dispatch. destruct t; try discriminate.
  destruct (String.eqb s "channelRequest") eqn:E1.
  { apply String.eqb_eq in E1. subst. intros H. apply construct_ok in H. auto. }
  destruct (String.eqb s "hostedChannelRequest") eqn:E2.
  { apply String.eqb_eq in E2. subst. intros H. apply construct_ok in H. auto. }
  destruct (String.eqb s "payRequest") eqn:E3.
  { apply String.eqb_eq in E3. subst. intros H. apply construct_ok in H. auto. }
  destruct (String.eqb s "withdrawRequest") eqn:E4; [|discriminate].
  apply String.eqb_eq in E4. subst. intros H. apply construct_ok in H. auto 6.
Qed.

(** What a successful call returned, by the shape of the mapping. *)
Lemma body_ok d m d' :
  LnurlResponse.from_dict_body d = (Ok m, d') ->
  (exists r, m = Error r
             /\ LnurlErrorResponse.new (<["status" := VStr "ERROR"]> d) = Ok r
             /\ d' = <["status" := VStr "ERROR"]> d)
  \/ (passes_status d /\ exists t, d !! "tag" = Some t /\ d' = delete "status" d
                                   /\ LnurlResponse.dispatch t d' = Ok m)
  \/ (passes_status d /\ d !! "tag" = None /\ is_Some (d !! "success_action") /\ d' = d
      /\ exists r, LnurlPayActionResponse.new d = Ok r /\ m = PayAction r)
  \/ (passes_status d /\ d !! "tag" = None /\ d !! "success_action" = None /\ d' = d
      /\ exists r, LnurlSuccessResponse.new d = Ok r /\ m = Success r).
Proof.
  assert (Htag : passes_status d -> LnurlResponse.from_dict_tagged d = (Ok m, d') ->
                 (passes_status d /\ exists t, d !! "tag" = Some t /\ d' = delete "status" d
                                   /\ LnurlResponse.dispatch t d' = Ok m)
  \/ (passes_status d /\ d !! "tag" = None /\ is_Some (d !! "success_action") /\ d' = d
      /\ exists r, LnurlPayActionResponse.new d = Ok r /\ m = PayAction r)
  \/ (passes_status d /\ d !! "tag" = None /\ d !! "success_action" = None /\ d' = d
      /\ exists r, LnurlSuccessResponse.new d = Ok r /\ m = Success r)).
  { intros Hp. unfold LnurlResponse.from_dict_tagged.
    destruct (d !! "tag") as [t|] eqn:Ht.
    - intros [= Hm <-]. left. split; [exact Hp|]. exists t. auto.
    - destruct (d !! "success_action") as [a|] eqn:Ha; intros [= Hm <-];
        apply construct_ok in Hm as (r & Hr & ->).
      + right; left. repeat split; eauto.
      + right; right. repeat split; eauto. }
  unfold LnurlResponse.from_dict_body.
  destruct (d !! "status") as [v|] eqn:Hs.
  - destruct v; cbn [LnurlResponse.upper_method]; try discriminate.
    destruct (String.eqb (upper s) "ERROR") eqn:Hu.
    + apply String.eqb_eq in Hu. rewrite Hu. intros [= Hm <-].
      apply construct_ok in Hm as (r & Hr & ->). left. eauto.
    + intros H. right. apply Htag; [|exact H].
      right. exists s. split; [exact Hs|]. apply String.eqb_neq, Hu.
  - intros H. right. apply Htag; [|exact H]. left. exact Hs.
Qed.

Lemma from_dict_ok_body d m d' :
  LnurlResponse.from_dict d = (Ok m, d') -> LnurlResponse.from_dict_body d = (Ok m, d').
Proof.
  unfold LnurlResponse.from_dict.
  destruct (LnurlResponse.from_dict_body d) as [[r|e] d0]; [|discriminate].
  intros [= <- <-]. reflexivity.
Qed.

(** X2.  Whatever [from_dict] returns is the variant that the mapping asked
    for, and it is well formed: the Error and Success instances hold their own
    status, a tagged instance holds the tag of the mapping, and a Pay or
    Withdraw instance has its maximum at or above its minimum. *)
Theorem from_dict_returns_what_was_asked d m d' :
  LnurlResponse.from_dict d = (Ok m, d') ->
  match m with
  | Error r =>
      LnurlErrorResponse.status r = "ERROR" /\ d' !! "status" = Some (VStr "ERROR")
  | Success r =>
      LnurlSuccessResponse.status r = "OK"
      /\ d !! "tag" = None /\ d !! "success_action" = None /\ d' = d
  | Channel r =>
      LnurlChannelResponse.tag r = "channelRequest"
      /\ d !! "tag" = Some (VStr "channelRequest") /\ d' = delete "status" d
  | HostedChannel r =>
      LnurlHostedChannelResponse.tag r = "hostedChannelRequest"
      /\ d !! "tag" = Some (VStr "hostedChannelRequest") /\ d' = delete "status" d
  | Pay r =>
      LnurlPayResponse.tag r = "payRequest"
      /\ d !! "tag" = Some (VStr "payRequest") /\ d' = delete "status" d
      /\ LnurlPayResponse.min_sendable r <= LnurlPayResponse.max_sendable r
  | PayAction r =>
      d !! "tag" = None /\ is_Some (d !! "success_action") /\ d' = d
  | Withdraw r =>
      LnurlWithdrawResponse.tag r = "withdrawRequest"
      /\ d !! "tag" = Some (VStr "withdrawRequest") /\ d' = delete "status" d
      /\ LnurlWithdrawResponse.min_withdrawable r
         <= LnurlWithdrawResponse.max_withdrawable r
  end.
Proof.
  intros H. apply from_dict_ok_body, body_ok in H.
  destruct H as [(r & -> & Hr & ->) | [(_ & t & Ht & -> & Hd) | [H | H]]].
  - split; [exact (error_new_status _ _ Hr) | apply lookup_insert_eq].
  - apply dispatch_ok in Hd.
    destruct Hd as [(-> & r & Hr & ->) | [(-> & r & Hr & ->) | [(-> & r & Hr & ->)
                                                                | (-> & r & Hr & ->)]]].
    + split; [exact (channel_new_tag _ _ Hr) | auto].
    + split; [exact (hosted_new_tag _ _ Hr) | auto].
    + split; [exact (pay_new_tag _ _ Hr) | ]. split; [exact Ht|]. split; [reflexivity|].
      exact (pay_new_range _ _ Hr).
    + split; [exact (withdraw_new_tag _ _ Hr) | ]. split; [exact Ht|]. split; [reflexivity|].
      exact (withdraw_new_range _ _ Hr).
  - destruct H as (_ & Ht & Ha & -> & r & _ & ->). auto.
  - destruct H as (_ & Ht & Ha & -> & r & Hr & ->).
    split; [exact (success_new_status _ _ Hr) | auto].
Qed.

(** X3.  Among the instances that [from_dict] returns, [ok] is false for the
    Error variant and true for every other. *)
Theorem ok_false_for_error_only d m d' :
  LnurlResponse.from_dict d = (Ok m, d') ->
  ok m = match m with Error _ => false | _ => true end.
Proof.
  intros H. apply from_dict_ok_body, body_ok in H.
  destruct H as [(r & -> & Hr & ->) | [(_ & t & Ht & -> & Hd) | [H | H]]].
  - cbn [ok]. rewrite (error_new_status _ _ Hr). reflexivity.
  - apply dispatch_ok in Hd.
    destruct Hd as [(-> & r & Hr & ->) | [(-> & r & Hr & ->) | [(-> & r & Hr & ->)
                                                                | (-> & r & Hr & ->)]]];
      reflexivity.
  - destruct H as (_ & _ & _ & _ & r & _ & ->). reflexivity.
  - destruct H as (_ & _ & _ & _ & r & Hr & ->).
    cbn [ok]. rewrite (success_new_status _ _ Hr). reflexivity.
Qed.

(** X4.  With a status that is not an error, a tag outside the table of four,
    [login] among them, is a failure: there is no fallback to another variant,
    and the [status] key is gone from the mapping all the same. *)
Theorem unknown_tag_fails d t :
  passes_status d -> d !! "tag" = Some t ->
  t <> VStr "channelRequest" -> t <> VStr "hostedChannelRequest" ->
  t <> VStr "payRequest" -> t <> VStr "withdrawRequest" ->
  LnurlResponse.from_dict d = (Raise LnurlResponseException, delete "status" d).
Proof.
  intros Hp Ht H1 H2 H3 H4. unfold LnurlResponse.from_dict.
  rewrite (body_passes_status d Hp). unfold LnurlResponse.from_dict_tagged. rewrite Ht.
  assert (Hd : exists e, LnurlResponse.dispatch t (delete "status" d) = Raise e).
  { unfold LnurlResponse.dispatch. destruct t; eauto.
    destruct (String.eqb s "channelRequest") eqn:E1;
      [apply String.eqb_eq in E1; congruence|].
    destruct (String.eqb s "hostedChannelRequest") eqn:E2;
      [apply String.eqb_eq in E2; congruence|].
    destruct (String.eqb s "payRequest") eqn:E3;
      [apply String.eqb_eq in E3; congruence|].
    destruct (String.eqb s "withdrawRequest") eqn:E4;
      [apply String.eqb_eq in E4; congruence|].
    eauto. }
  destruct Hd as [e ->]. reflexivity.
Qed.

(** X5.  A [status] that is not an error makes no difference to a tagged
    mapping: the call behaves as on the mapping without it. *)
Theorem stray_status_ignored d :
  passes_status d -> is_Some (d !! "tag") ->
  LnurlResponse.from_dict d = LnurlResponse.from_dict (delete "status" d).
Proof.
  intros Hp Ht. unfold LnurlResponse.from_dict.
  rewrite (body_passes_status d Hp).
  rewrite (body_passes_status (delete "status" d))
    by (left; apply lookup_delete_eq).
  rewrite (tagged_delete_status d Ht). reflexivity.
Qed.

(** X6.  The error status is recognised in any case, the success status only
    as ['OK']: without [tag] and [success_action], and without a key that
    collides with the first parameter of the constructor, any other string
    fails. *)
Theorem ok_status_is_case_sensitive d s :
  d !! "__pydantic_self__" = None ->
  d !! "tag" = None -> d !! "success_action" = None ->
  d !! "status" = Some (VStr s) -> upper s <> "ERROR" ->
  LnurlResponse.from_dict d =
    (if String.eqb s "OK" then Ok (Success {| LnurlSuccessResponse.status := "OK" |})
     else Raise LnurlResponseException, d).
Proof.
  intros Hk Ht Ha Hs Hu. unfold LnurlResponse.from_dict.
  rewrite (body_passes_status d) by (right; eauto).
  unfold LnurlResponse.from_dict_tagged. rewrite Ht, Ha.
  unfold LnurlSuccessResponse.new. rewrite (init_fields _ _ Hk).
  unfold LnurlSuccessResponse.validate_model, validate_field, get_value. rewrite Hs.
  cbn [literal]. destruct (String.eqb s "OK"); reflexivity.
Qed.

End MoreClassifier.

Lemma unknown_tag_fails_witness :
  let d : gmap string value :=
    {[ "tag" := VStr "login"; "k1" := VStr "00"; "callback" := VStr "https://x.com/cb";
       "status" := VStr "OK" ]} in
  LnurlResponse.from_dict (FT := SpecTypes.spec_types) d
  = (Raise LnurlResponseException, delete "status" d).
Proof.
  intros d.
  apply (unknown_tag_fails (FT := SpecTypes.spec_types) d (VStr "login"));
    try discriminate; try reflexivity.
  right. exists "OK". split; [reflexivity | discriminate].
Defined.

Lemma from_dict_returns_what_was_asked_witness :
  let r := {| LnurlPayResponse.tag := "payRequest";
              LnurlPayResponse.callback := "https://x.com/cb";
              LnurlPayResponse.min_sendable := 1000; LnurlPayResponse.max_sendable := 2000;
              LnurlPayResponse.metadata := example_metadata |} in
  LnurlResponse.from_dict (FT := SpecTypes.spec_types) example_pay = (Ok (Pay r), example_pay)
  /\ example_pay !! "tag" = Some (VStr "payRequest")
  /\ LnurlPayResponse.min_sendable r <= LnurlPayResponse.max_sendable r.
Proof.
  intros r.
  assert (H : LnurlResponse.from_dict (FT := SpecTypes.spec_types) example_pay
              = (Ok (Pay r), example_pay)) by reflexivity.
  split; [exact H|].
  pose proof (from_dict_returns_what_was_asked (FT := SpecTypes.spec_types) _ _ _ H) as W.
  cbn beta iota in W. split; apply W.
Defined.

Lemma ok_false_for_error_only_witness :
  let d : gmap string value := {[ "status" := VStr "ERROR"; "reason" := VStr "no" ]} in
  let e := Error {| LnurlErrorResponse.status := "ERROR";
                    LnurlErrorResponse.reason := "no" |} in
  LnurlResponse.from_dict (FT := SpecTypes.spec_types) d = (Ok e, d) /\ ok e = false.
Proof.
  intros d e.
  assert (H : LnurlResponse.from_dict (FT := SpecTypes.spec_types) d = (Ok e, d))
    by reflexivity.
  split; [exact H|].
  exact (ok_false_for_error_only (FT := SpecTypes.spec_types) _ _ _ H).
Defined.

Lemma stray_status_ignored_witness :
  let d : gmap string value := <["status" := VStr "OK"]> example_pay in
  LnurlResponse.from_dict (FT := SpecTypes.spec_types) d
  = LnurlResponse.from_dict (FT := SpecTypes.spec_types) (delete "status" d).
Proof.
  intros d. apply (stray_status_ignored (FT := SpecTypes.spec_types) d).
  - right. exists "OK". split; [reflexivity | discriminate].
  - exists (VStr "payRequest"). reflexivity.
Defined.

Lemma ok_status_is_case_sensitive_witness :
  let d : gmap string value := {[ "status" := VStr "ok" ]} in
  LnurlResponse.from_dict (FT := SpecTypes.spec_types) d = (Raise LnurlResponseException, d).
Proof.
  intros d.
  apply (ok_status_is_case_sensitive (FT := SpecTypes.spec_types) d "ok");
    try reflexivity. discriminate.
Defined.

(** ** Instances and their [dict] *)

Section Serialisation.
Context `{FT : FieldTypes}.

(** X7.  An Error or a Success instance that was built comes back from its own
    [dict], under either naming of the keys. *)
Theorem status_models_round_trip :
  (forall d r by_alias,
      LnurlErrorResponse.new d = Ok r ->
      LnurlResponse.from_dict (LnurlErrorResponse.dict r by_alias)
      = (Ok (Error r), LnurlErrorResponse.dict r by_alias))
  /\ (forall d r by_alias,
         LnurlSuccessResponse.new d = Ok r ->
         LnurlResponse.from_dict (LnurlSuccessResponse.dict r by_alias)
         = (Ok (Success r), LnurlSuccessResponse.dict r by_alias)).
Proof.
  split; intros d r by_alias Hr.
  - pose proof (error_new_status _ _ Hr) as Hs. destruct r as [st re]. cbn in Hs. subst st.
    destruct by_alias as [[]|]; reflexivity.
  - pose proof (success_new_status _ _ Hr) as Hs. destruct r as [st]. cbn in Hs. subst st.
    destruct by_alias as [[]|]; reflexivity.
Qed.

Lemma from_dict_tagged_clean (d : gmap string value) t :
  d !! "status" = None -> d !! "tag" = Some t ->
  LnurlResponse.from_dict d =
    (match LnurlResponse.dispatch t d with
     | Ok m => Ok m
     | Raise _ => Raise LnurlResponseException
     end, d).
Proof.
  intros Hs Ht.
  unfold LnurlResponse.from_dict, LnurlResponse.from_dict_body,
    LnurlResponse.from_dict_tagged.
  rewrite Hs, Ht, (delete_id d "status" Hs).
  destruct (LnurlResponse.dispatch t d); reflexivity.
Qed.

(** Replaces the lookups of constant keys in a constant-keyed map by their
    values. *)
Ltac eval_lookups :=
  repeat match goal with
         | |- context [?m !! ?k] =>
             let v := eval vm_compute in (m !! k) in
             change (m !! k) with v
         end.

Lemma pay_new_dict (r : LnurlPayResponse.t) by_alias :
  LnurlPayResponse.tag r = "payRequest" ->
  LnurlPayResponse.min_sendable r <= LnurlPayResponse.max_sendable r ->
  HttpsUrl (VStr (LnurlPayResponse.callback r)) = Valid (LnurlPayResponse.callback r) ->
  MilliSatoshi (VInt (LnurlPayResponse.min_sendable r))
    = Valid (LnurlPayResponse.min_sendable r) ->
  MilliSatoshi (VInt (LnurlPayResponse.max_sendable r))
    = Valid (LnurlPayResponse.max_sendable r) ->
  LnurlPayMetadata (VStr (LnurlPayResponse.metadata r))
    = Valid (LnurlPayResponse.metadata r) ->
  LnurlPayResponse.new (LnurlPayResponse.dict r by_alias) = Ok r.
Proof.
  destruct r as [t c lo hi md]. cbn [LnurlPayResponse.tag LnurlPayResponse.callback
    LnurlPayResponse.min_sendable LnurlPayResponse.max_sendable LnurlPayResponse.metadata].
  intros -> Hle Hc Hlo Hhi Hmd.
  unfold LnurlPayResponse.dict, field_key.
  cbn [LnurlPayResponse.tag LnurlPayResponse.callback
    LnurlPayResponse.min_sendable LnurlPayResponse.max_sendable LnurlPayResponse.metadata].
  destruct by_alias as [[]|]; cbn [setdefault_by_alias];
    unfold LnurlPayResponse.new, init, LnurlPayResponse.validate_model, validate_field, get_value;
    eval_lookups; cbn [allow_population_by_field_name LnurlResponseModel_Config];
    eval_lookups; cbv iota beta;
    rewrite Hc, Hlo, Hhi, Hmd; cbn [literal String.eqb Ascii.eqb Bool.eqb and_then];
    unfold LnurlPayResponse.max_less_than_min; rewrite lookup_singleton_eq;
    (replace (hi <? lo) with false by (symmetry; apply Z.ltb_ge; exact Hle));
    reflexivity.
Qed.

Lemma withdraw_new_dict (r : LnurlWithdrawResponse.t) by_alias :
  LnurlWithdrawResponse.tag r = "withdrawRequest" ->
  LnurlWithdrawResponse.min_withdrawable r <= LnurlWithdrawResponse.max_withdrawable r ->
  HttpsUrl (VStr (LnurlWithdrawResponse.callback r))
    = Valid (LnurlWithdrawResponse.callback r) ->
  MilliSatoshi (VInt (LnurlWithdrawResponse.min_withdrawable r))
    = Valid (LnurlWithdrawResponse.min_withdrawable r) ->
  MilliSatoshi (VInt (LnurlWithdrawResponse.max_withdrawable r))
    = Valid (LnurlWithdrawResponse.max_withdrawable r) ->
  LnurlWithdrawResponse.new (LnurlWithdrawResponse.dict r by_alias) = Ok r.
Proof.
  destruct r as [t c k lo hi dd].
  cbn [LnurlWithdrawResponse.tag LnurlWithdrawResponse.callback LnurlWithdrawResponse.k1
    LnurlWithdrawResponse.min_withdrawable LnurlWithdrawResponse.max_withdrawable
    LnurlWithdrawResponse.default_description].
  intros -> Hle Hc Hlo Hhi.
  unfold LnurlWithdrawResponse.dict, field_key.
  cbn [LnurlWithdrawResponse.tag LnurlWithdrawResponse.callback LnurlWithdrawResponse.k1
    LnurlWithdrawResponse.min_withdrawable LnurlWithdrawResponse.max_withdrawable
    LnurlWithdrawResponse.default_description].
  destruct by_alias as [[]|]; cbn [setdefault_by_alias];
    unfold LnurlWithdrawResponse.new, init, LnurlWithdrawResponse.validate_model, validate_field, get_value;
    eval_lookups; cbn [allow_population_by_field_name LnurlResponseModel_Config];
    eval_lookups; cbv iota beta;
    rewrite Hc, Hlo, Hhi; cbn [literal str String.eqb Ascii.eqb Bool.eqb and_then];
    unfold LnurlWithdrawResponse.max_less_than_min; rewrite lookup_singleton_eq;
    (replace (hi <? lo) with false by (symmetry; apply Z.ltb_ge; exact Hle));
    reflexivity.
Qed.

Lemma channel_new_dict (r : LnurlChannelResponse.t) by_alias :
  LnurlChannelResponse.tag r = "channelRequest" ->
  LightningNodeUri (VStr (LnurlChannelResponse.uri r)) = Valid (LnurlChannelResponse.uri r) ->
  HttpsUrl (VStr (LnurlChannelResponse.callback r))
    = Valid (LnurlChannelResponse.callback r) ->
  LnurlChannelResponse.new (LnurlChannelResponse.dict r by_alias) = Ok r.
Proof.
  destruct r as [t u c k].
  cbn [LnurlChannelResponse.tag LnurlChannelResponse.uri LnurlChannelResponse.callback
    LnurlChannelResponse.k1].
  intros -> Hu Hc.
  unfold LnurlChannelResponse.dict, field_key.
  cbn [LnurlChannelResponse.tag LnurlChannelResponse.uri LnurlChannelResponse.callback
    LnurlChannelResponse.k1].
  destruct by_alias as [[]|]; cbn [setdefault_by_alias];
    unfold LnurlChannelResponse.new, init, LnurlChannelResponse.validate_model, validate_field, get_value;
    eval_lookups; cbv iota beta;
    rewrite Hu, Hc; reflexivity.
Qed.

Lemma hosted_new_dict (r : LnurlHostedChannelResponse.t) by_alias :
  LnurlHostedChannelResponse.tag r = "hostedChannelRequest" ->
  LightningNodeUri (VStr (LnurlHostedChannelResponse.uri r))
    = Valid (LnurlHostedChannelResponse.uri r) ->
  LnurlHostedChannelResponse.new (LnurlHostedChannelResponse.dict r by_alias) = Ok r.
Proof.
  destruct r as [t u k a].
  cbn [LnurlHostedChannelResponse.tag LnurlHostedChannelResponse.uri
    LnurlHostedChannelResponse.k1 LnurlHostedChannelResponse.alias].
  intros -> Hu.
  unfold LnurlHostedChannelResponse.dict, field_key.
  cbn [LnurlHostedChannelResponse.tag LnurlHostedChannelResponse.uri
    LnurlHostedChannelResponse.k1 LnurlHostedChannelResponse.alias].
  destruct by_alias as [[]|]; cbn [setdefault_by_alias];
    unfold LnurlHostedChannelResponse.new, init, LnurlHostedChannelResponse.validate_model, validate_field, get_value;
    eval_lookups; cbv iota beta;
    rewrite Hu; destruct a; reflexivity.
Qed.

(** X8.  A Pay or a Withdraw instance that was built comes back from its own
    [dict], under either naming of the keys, when the field types accept again
    the values they produced. *)
Theorem amount_models_round_trip :
  (forall d r by_alias,
      LnurlPayResponse.new d = Ok r ->
      HttpsUrl (VStr (LnurlPayResponse.callback r)) = Valid (LnurlPayResponse.callback r) ->
      MilliSatoshi (VInt (LnurlPayResponse.min_sendable r))
        = Valid (LnurlPayResponse.min_sendable r) ->
      MilliSatoshi (VInt (LnurlPayResponse.max_sendable r))
        = Valid (LnurlPayResponse.max_sendable r) ->
      LnurlPayMetadata (VStr (LnurlPayResponse.metadata r))
        = Valid (LnurlPayResponse.metadata r) ->
      LnurlResponse.from_dict (LnurlPayResponse.dict r by_alias)
      = (Ok (Pay r), LnurlPayResponse.dict r by_alias))
  /\ (forall d r by_alias,
         LnurlWithdrawResponse.new d = Ok r ->
         HttpsUrl (VStr (LnurlWithdrawResponse.callback r))
           = Valid (LnurlWithdrawResponse.callback r) ->
         MilliSatoshi (VInt (LnurlWithdrawResponse.min_withdrawable r))
           = Valid (LnurlWithdrawResponse.min_withdrawable r) ->
         MilliSatoshi (VInt (LnurlWithdrawResponse.max_withdrawable r))
           = Valid (LnurlWithdrawResponse.max_withdrawable r) ->
         LnurlResponse.from_dict (LnurlWithdrawResponse.dict r by_alias)
         = (Ok (Withdraw r), LnurlWithdrawResponse.dict r by_alias)).
Proof.
  split.
  - intros d r by_alias Hr Hc Hlo Hhi Hmd.
    pose proof (pay_new_tag _ _ Hr) as Ht. pose proof (pay_new_range _ _ Hr) as Hle.
    rewrite (from_dict_tagged_clean _ (VStr "payRequest")).
    + cbn [LnurlResponse.dispatch String.eqb Ascii.eqb Bool.eqb].
      rewrite (pay_new_dict r by_alias Ht Hle Hc Hlo Hhi Hmd). reflexivity.
    + destruct by_alias as [[]|]; reflexivity.
    + rewrite <- Ht. destruct by_alias as [[]|]; reflexivity.
  - intros d r by_alias Hr Hc Hlo Hhi.
    pose proof (withdraw_new_tag _ _ Hr) as Ht.
    pose proof (withdraw_new_range _ _ Hr) as Hle.
    rewrite (from_dict_tagged_clean _ (VStr "withdrawRequest")).
    + cbn [LnurlResponse.dispatch String.eqb Ascii.eqb Bool.eqb].
      rewrite (withdraw_new_dict r by_alias Ht Hle Hc Hlo Hhi). reflexivity.
    + destruct by_alias as [[]|]; reflexivity.
    + rewrite <- Ht. destruct by_alias as [[]|]; reflexivity.
Qed.

(** X9.  A Channel or a Hosted Channel instance that was built comes back from
    its own [dict], under either naming of the keys, when the field types
    accept again the values they produced. *)
Theorem channel_models_round_trip :
  (forall d r by_alias,
      LnurlChannelResponse.new d = Ok r ->
      LightningNodeUri (VStr (LnurlChannelResponse.uri r))
        = Valid (LnurlChannelResponse.uri r) ->
      HttpsUrl (VStr (LnurlChannelResponse.callback r))
        = Valid (LnurlChannelResponse.callback r) ->
      LnurlResponse.from_dict (LnurlChannelResponse.dict r by_alias)
      = (Ok (Channel r), LnurlChannelResponse.dict r by_alias))
  /\ (forall d r by_alias,
         LnurlHostedChannelResponse.new d = Ok r ->
         LightningNodeUri (VStr (LnurlHostedChannelResponse.uri r))
           = Valid (LnurlHostedChannelResponse.uri r) ->
         LnurlResponse.from_dict (LnurlHostedChannelResponse.dict r by_alias)
         = (Ok (HostedChannel r), LnurlHostedChannelResponse.dict r by_alias)).
Proof.
  split.
  - intros d r by_alias Hr Hu Hc.
    pose proof (channel_new_tag _ _ Hr) as Ht.
    rewrite (from_dict_tagged_clean _ (VStr "channelRequest")).
    + cbn [LnurlResponse.dispatch String.eqb Ascii.eqb Bool.eqb].
      rewrite (channel_new_dict r by_alias Ht Hu Hc). reflexivity.
    + destruct by_alias as [[]|]; reflexivity.
    + rewrite <- Ht. destruct by_alias as [[]|]; reflexivity.
  - intros d r by_alias Hr Hu.
    pose proof (hosted_new_tag _ _ Hr) as Ht.
    rewrite (from_dict_tagged_clean _ (VStr "hostedChannelRequest")).
    + cbn [LnurlResponse.dispatch String.eqb Ascii.eqb Bool.eqb].
      rewrite (hosted_new_dict r by_alias Ht Hu). reflexivity.
    + destruct by_alias as [[]|]; reflexivity.
    + rewrite <- Ht. destruct by_alias as [[]|]; reflexivity.
Qed.

End Serialisation.

Lemma status_models_round_trip_witness :
  let d : gmap string value := {[ "status" := VStr "error"; "reason" := VStr "no" ]} in
  let r := {| LnurlErrorResponse.status := "ERROR"; LnurlErrorResponse.reason := "no" |} in
  LnurlResponse.from_dict (FT := SpecTypes.spec_types) (LnurlErrorResponse.dict r None)
  = (Ok (Error r), LnurlErrorResponse.dict r None).
Proof.
  intros d r.
  destruct (status_models_round_trip (FT := SpecTypes.spec_types)) as [H _].
  apply (H (<["status" := VStr "ERROR"]> d)). reflexivity.
Defined.

Lemma amount_models_round_trip_witness :
  let r := {| LnurlPayResponse.tag := "payRequest";
              LnurlPayResponse.callback := "https://x.com/cb";
              LnurlPayResponse.min_sendable := 1000; LnurlPayResponse.max_sendable := 2000;
              LnurlPayResponse.metadata := example_metadata |} in
  LnurlResponse.from_dict (FT := SpecTypes.spec_types)
    (LnurlPayResponse.dict r (Some false))
  = (Ok (Pay r), LnurlPayResponse.dict r (Some false)).
Proof.
  intros r.
  destruct (amount_models_round_trip (FT := SpecTypes.spec_types)) as [H _].
  apply (H example_pay); reflexivity.
Defined.

Lemma channel_models_round_trip_witness :
  let d : gmap string value :=
    {[ "tag" := VStr "hostedChannelRequest"; "uri" := VStr example_node_uri;
       "k1" := VStr "00" ]} in
  let r := {| LnurlHostedChannelResponse.tag := "hostedChannelRequest";
              LnurlHostedChannelResponse.uri := example_node_uri;
              LnurlHostedChannelResponse.k1 := "00";
              LnurlHostedChannelResponse.alias := None |} in
  LnurlResponse.from_dict (FT := SpecTypes.spec_types)
    (LnurlHostedChannelResponse.dict r None)
  = (Ok (HostedChannel r), LnurlHostedChannelResponse.dict r None).
Proof.
  intros d r.
  destruct (channel_models_round_trip (FT := SpecTypes.spec_types)) as [_ H].
  apply (H d); reflexivity.
Defined.

(** ** Whole satoshis *)

(** The whole numbers between the ceiling of [lo / 1000] and the floor
    of [hi / 1000] are those whose thousandfold lies between [lo] and [hi]. *)
Lemma thousands_between lo hi n :
  - (- lo / 1000) <= n <= hi / 1000 <-> lo <= 1000 * n <= hi.
Proof.
  pose proof (Z.div_mod (- lo) 1000 ltac:(lia)).
  pose proof (Z.mod_pos_bound (- lo) 1000 ltac:(lia)).
  pose proof (Z.div_mod hi 1000 ltac:(lia)).
  pose proof (Z.mod_pos_bound hi 1000 ltac:(lia)).
  lia.
Qed.

(** X10.  Below 2 ^ 44 satoshis, the amounts in whole satoshis that a Pay
    response allows are those from [min_sats] to [max_sats]. *)
Theorem pay_sats_bracket (r : LnurlPayResponse.t) :
  0 <= LnurlPayResponse.min_sendable r < 1000 * 2 ^ 44 ->
  0 <= LnurlPayResponse.max_sendable r < 1000 * 2 ^ 44 ->
  exists lo hi,
    LnurlPayResponse.min_sats r = Ok lo /\ LnurlPayResponse.max_sats r = Ok hi
    /\ forall n, lo <= n <= hi
                 <-> LnurlPayResponse.min_sendable r <= 1000 * n
                     <= LnurlPayResponse.max_sendable r.
Proof.
  intros Hlo Hhi.
  exists (- (- LnurlPayResponse.min_sendable r / 1000)),
         (LnurlPayResponse.max_sendable r / 1000).
  split; [apply (thousandth_exact _ Hlo)|]. split; [apply (thousandth_exact _ Hhi)|].
  intros n. apply thousands_between.
Qed.

(** X11.  Below 2 ^ 44 satoshis, the amounts in whole satoshis that a Withdraw
    response allows are those from [min_sats] to [max_sats]. *)
Theorem withdraw_sats_bracket (r : LnurlWithdrawResponse.t) :
  0 <= LnurlWithdrawResponse.min_withdrawable r < 1000 * 2 ^ 44 ->
  0 <= LnurlWithdrawResponse.max_withdrawable r < 1000 * 2 ^ 44 ->
  exists lo hi,
    LnurlWithdrawResponse.min_sats r = Ok lo /\ LnurlWithdrawResponse.max_sats r = Ok hi
    /\ forall n, lo <= n <= hi
                 <-> LnurlWithdrawResponse.min_withdrawable r <= 1000 * n
                     <= LnurlWithdrawResponse.max_withdrawable r.
Proof.
  intros Hlo Hhi.
  exists (- (- LnurlWithdrawResponse.min_withdrawable r / 1000)),
         (LnurlWithdrawResponse.max_withdrawable r / 1000).
  split; [apply (thousandth_exact _ Hlo)|]. split; [apply (thousandth_exact _ Hhi)|].
  intros n. apply thousands_between.
Qed.

Lemma pay_sats_bracket_witness :
  let r := {| LnurlPayResponse.tag := "payRequest";
              LnurlPayResponse.callback := "https://x.com/cb";
              LnurlPayResponse.min_sendable := 1500; LnurlPayResponse.max_sendable := 4999;
              LnurlPayResponse.metadata := example_metadata |} in
  exists lo hi,
    LnurlPayResponse.min_sats r = Ok lo /\ LnurlPayResponse.max_sats r = Ok hi
    /\ forall n, lo <= n <= hi <-> 1500 <= 1000 * n <= 4999.
Proof.
  intros r. apply (pay_sats_bracket r); cbn; lia.
Defined.

Lemma withdraw_sats_bracket_witness :
  let r := {| LnurlWithdrawResponse.tag := "withdrawRequest";
              LnurlWithdrawResponse.callback := "https://x.com/cb";
              LnurlWithdrawResponse.k1 := "00";
              LnurlWithdrawResponse.min_withdrawable := 1;
              LnurlWithdrawResponse.max_withdrawable := 2000;
              LnurlWithdrawResponse.default_description := "" |} in
  exists lo hi,
    LnurlWithdrawResponse.min_sats r = Ok lo /\ LnurlWithdrawResponse.max_sats r = Ok hi
    /\ forall n, lo <= n <= hi <-> 1 <= 1000 * n <= 2000.
Proof.
  intros r. apply (withdraw_sats_bracket r); cbn; lia.
Defined.



(** ** Encoding any text *)

Lemma prefix_append p s : String.prefix p (p +:+ s) = true.
Proof.
  induction p as [|a p IH]; simpl; [destruct s; reflexivity|].
  destruct (ascii_dec a a); [exact IH | contradiction].
Qed.

Lemma url_encode_text url :
  utf8_valid (str_bytes url) = true ->
  exists data,
    groups 5 data
    /\ 5 * Z.of_nat (length data) < 8 * Z.of_nat (length (str_bytes url)) + 5
    /\ 8 * Z.of_nat (length (str_bytes url)) <= 5 * Z.of_nat (length data)
    /\ convertbits data 5 8 false = Some (str_bytes url)
    /\ _url_encode url =
         Ok (upper ("lnurl" +:+ "1" +:+
                    string_of_list_ascii
                      (map symbol_char (data ++ bech32_create_checksum "lnurl" data)))).
Proof.
  intros Hv.
  destruct (convertbits_8_5 (str_bytes url) (str_bytes_groups url))
    as (data & p & Henc & Hdata & Hp & Hlen & Hval).
  destruct (convertbits_5_8 data (length (str_bytes url)) p (val 8 (str_bytes url))
                            Hdata Hp Hlen Hval) as (bs' & Hdec & Hbs' & Hlen' & Hval').
  assert (bs' = str_bytes url) as ->.
  { apply (val_inj 8); [lia | assumption | apply str_bytes_groups | assumption | assumption]. }
  exists data. split; [exact Hdata|]. split; [lia|]. split; [lia|]. split; [exact Hdec|].
  unfold _url_encode, encode_utf8. rewrite Hv.
  cbn [bind]. rewrite Henc, (bech32_encode_symbols "lnurl" data Hdata). reflexivity.
Qed.

Lemma encoded_length cs :
  len ("LNURL1" +:+ string_of_list_ascii cs) = 6 + Z.of_nat (length cs).
Proof.
  unfold len. change (String.length ("LNURL1" +:+ ?s)) with (6 + String.length s)%nat.
  rewrite length_of_list. lia.
Qed.

Lemma upper_encoded_fixed ds :
  groups 5 ds ->
  upper ("LNURL1" +:+ string_of_list_ascii (map upper_char (map symbol_char ds)))
  = "LNURL1" +:+ string_of_list_ascii (map upper_char (map symbol_char ds)).
Proof.
  intros Hds. unfold upper.
  change (str_map upper_char ("LNURL1" +:+ ?s)) with ("LNURL1" +:+ str_map upper_char s).
  rewrite str_map_of_list, (map_map upper_char upper_char).
  rewrite (map_symbols_ext (fun c => upper_char (upper_char c))
                           (fun d => upper_char (symbol_char d)))
    by (apply symbol_upper_upper || exact Hds).
  rewrite (map_map symbol_char upper_char). reflexivity.
Qed.

(** X12.  Text that has a UTF-8 encoding is always encoded, to an upper case
    string that starts with [LNURL1] and has twelve characters more than the
    bytes of the text take five bits at a time; other text is refused as an
    invalid URL. *)
Theorem url_encode_shape url :
  (utf8_valid (str_bytes url) = true ->
   exists lnurl,
     _url_encode url = Ok lnurl
     /\ startswith lnurl "LNURL1" = true
     /\ upper lnurl = lnurl
     /\ len lnurl = 12 + (8 * Z.of_nat (length (str_bytes url)) + 4) / 5)
  /\ (utf8_valid (str_bytes url) = false ->
      _url_encode url = Raise (ValueError "Invalid URL.")).
Proof.
  split.
  - intros Hv.
    destruct (url_encode_text url Hv) as (data & Hdata & Hlt & Hle & _ & Henc).
    eexists. split; [exact Henc|].
    assert (Hc : groups 5 (data ++ bech32_create_checksum "lnurl" data)).
    { apply Forall_app. split; [exact Hdata | apply checksum_groups]. }
    rewrite upper_encoded. split; [apply prefix_append|]. split.
    + apply upper_encoded_fixed, Hc.
    + rewrite encoded_length, !length_map, length_app, checksum_length.
      assert ((8 * Z.of_nat (length (str_bytes url)) + 4) / 5 = Z.of_nat (length data)).
      { symmetry. apply (Z.div_unique_pos _ _ _
          (8 * Z.of_nat (length (str_bytes url)) + 4 - 5 * Z.of_nat (length data))); lia. }
      lia.
  - intros Hv. unfold _url_encode, encode_utf8. rewrite Hv. reflexivity.
Qed.

(** ** The [lightning:] scheme *)

Lemma replace_from_skip old new k s1 s2 :
  String.length s1 = k ->
  replace_from old new k (s1 +:+ s2) = replace_from old new 0 s2.
Proof.
  revert k. induction s1 as [|c s1 IH]; intros k Hk; cbn in Hk; subst k.
  - reflexivity.
  - cbn [String.append replace_from]. apply IH. reflexivity.
Qed.

Lemma prefix_colon old s :
  String.prefix old s = true ->
  str_forallb (fun c => negb (Ascii.eqb c ":")) s = true ->
  str_forallb (fun c => negb (Ascii.eqb c ":")) old = true.
Proof.
  revert s. induction old as [|a old IH]; intros s Hp Hs; [reflexivity|].
  destruct s as [|c s]; [discriminate|]. cbn in Hp.
  destruct (ascii_dec a c) as [->|]; [|discriminate].
  cbn in Hs |- *. apply andb_prop in Hs as [Hc Hs]. rewrite Hc. cbn. eapply IH; eauto.
Qed.

Lemma replace_no_colon s :
  str_forallb (fun c => negb (Ascii.eqb c ":")) s = true ->
  replace_from "lightning:" "" 0 s = s.
Proof.
  induction s as [|c s IH]; intros Hs; [reflexivity|].
  cbn [replace_from].
  destruct (String.prefix "lightning:" (String c s)) eqn:Hp.
  - apply prefix_colon in Hp; [discriminate Hp | exact Hs].
  - cbn in Hs. apply andb_prop in Hs as [_ Hs]. rewrite (IH Hs). reflexivity.
Qed.

Lemma stripped_scheme s :
  str_forallb (fun c => negb (Ascii.eqb c ":")) s = true ->
  stripped ("lightning:" +:+ s) = s /\ stripped s = s.
Proof.
  intros Hs. split.
  - unfold stripped, startswith.
    replace (String.prefix "lightning:" ("lightning:" +:+ s)) with true
      by (symmetry; apply prefix_append).
    unfold replace.
    change ("lightning:" +:+ s) with (String "l" ("ightning:" +:+ s)).
    cbn [replace_from].
    replace (String.prefix "lightning:" (String "l" ("ightning:" +:+ s))) with true
      by (symmetry; apply (prefix_append "lightning:" s)).
    change (String.length "lightning:" - 1)%nat with 9%nat.
    rewrite (replace_from_skip _ _ 9 "ightning:" s) by reflexivity.
    rewrite (replace_no_colon s Hs). reflexivity.
  - unfold stripped, startswith.
    destruct (String.prefix "lightning:" s) eqn:Hp; [|reflexivity].
    apply prefix_colon in Hp; [discriminate Hp | exact Hs].
Qed.

Lemma symbol_upper_not_colon d :
  0 <= d < 32 -> negb (Ascii.eqb (upper_char (symbol_char d)) ":") = true.
Proof.
  revert d.
  apply (forall_symbols (fun d => negb (Ascii.eqb (upper_char (symbol_char d)) ":"))).
  vm_compute. reflexivity.
Qed.

Lemma url_encode_ok url lnurl :
  _url_encode url = Ok lnurl -> utf8_valid (str_bytes url) = true.
Proof.
  destruct (utf8_valid (str_bytes url)) eqn:Hv; [reflexivity|].
  unfold _url_encode, encode_utf8. rewrite Hv. discriminate.
Qed.

Lemma encoded_no_colon url lnurl :
  _url_encode url = Ok lnurl ->
  str_forallb (fun c => negb (Ascii.eqb c ":")) lnurl = true.
Proof.
  intros Henc.
  destruct (url_encode_text url (url_encode_ok _ _ Henc)) as (data & Hdata & _ & _ & _ & He).
  rewrite He in Henc. injection Henc as <-. rewrite upper_encoded.
  change (str_forallb ?p ("LNURL1" +:+ ?s)) with (str_forallb p s).
  rewrite str_forallb_of_list.
  apply (forallb_map_symbols _ upper_char); [apply symbol_upper_not_colon|].
  apply Forall_app. split; [exact Hdata | apply checksum_groups].
Qed.

Section Scheme.
Context `{LC : LengthCeiling}.

(** X13.  Every text that has a UTF-8 encoding, not only ASCII, comes back
    from its encoding, when the encoded string is not longer than bech32
    decoding accepts. *)
Theorem text_roundtrip url :
  utf8_valid (str_bytes url) = true ->
  exists lnurl,
    _url_encode url = Ok lnurl
    /\ (too_long (len lnurl) = false -> _lnurl_decode lnurl = Ok url).
Proof.
  intros Hv.
  destruct (url_encode_text url Hv) as (data & Hdata & _ & _ & Hdec & Hurl).
  eexists. split; [exact Hurl|].
  intros Hlen. unfold _lnurl_decode, stripped.
  replace (startswith _ "lightning:") with false
    by (rewrite upper_encoded; reflexivity).
  unfold _bech32_decode.
  rewrite (bech32_decode_encoded data Hdata Hlen).
  cbn [existsb String.eqb Ascii.eqb Bool.eqb negb orb bind].
  rewrite Hdec, (groups_bytes _ (str_bytes_groups url)). cbn [bind].
  unfold decode_utf8. rewrite Hv, bytes_str_bytes. reflexivity.
Qed.

Lemma lnurl_decode_stripped s1 s2 :
  stripped s1 = stripped s2 -> _lnurl_decode s1 = _lnurl_decode s2.
Proof. intros H. unfold _lnurl_decode. rewrite H. reflexivity. Qed.

(** X14.  The [lightning:] scheme in front of a string without a colon changes
    nothing, and an encoded URL is such a string: it decodes alike with and
    without the scheme. *)
Theorem lightning_scheme_ignored :
  (forall s,
      str_forallb (fun c => negb (Ascii.eqb c ":")) s = true ->
      _lnurl_decode ("lightning:" +:+ s) = _lnurl_decode s)
  /\ (forall url lnurl,
         _url_encode url = Ok lnurl ->
         _lnurl_decode ("lightning:" +:+ lnurl) = _lnurl_decode lnurl).
Proof.
  assert (H : forall s,
             str_forallb (fun c => negb (Ascii.eqb c ":")) s = true ->
             _lnurl_decode ("lightning:" +:+ s) = _lnurl_decode s).
  { intros s Hs. apply lnurl_decode_stripped.
    destruct (stripped_scheme s Hs) as [-> ->]. reflexivity. }
  split; [exact H|].
  intros url lnurl Henc. apply H, (encoded_no_colon url lnurl Henc).
Qed.

End Scheme.

Lemma text_roundtrip_witness :
  let url := "https://service.io/?q=café" in
  utf8_valid (str_bytes url) = true
  /\ isprintable url = false
  /\ exists lnurl,
       _url_encode url = Ok lnurl
       /\ too_long (LC := bip173_ceiling) (len lnurl) = false
       /\ _lnurl_decode (LC := bip173_ceiling) lnurl = Ok url.
Proof.
  intros url.
  assert (Hv : utf8_valid (str_bytes url) = true) by reflexivity.
  split; [exact Hv|]. split; [reflexivity|].
  destruct (text_roundtrip (LC := bip173_ceiling) url Hv) as (lnurl & Henc & Hdec).
  exists lnurl. split; [exact Henc|].
  assert (Hlen : too_long (LC := bip173_ceiling) (len lnurl) = false).
  { vm_compute in Henc. injection Henc as <-. reflexivity. }
  split; [exact Hlen | exact (Hdec Hlen)].
Defined.

Lemma url_encode_shape_witness :
  _url_encode example_url = Ok example_lnurl
  /\ len example_lnurl = 12 + (8 * 38 + 4) / 5
  /\ _url_encode (String (ascii_of_nat 255) EmptyString) = Raise (ValueError "Invalid URL.").
Proof.
  split; [reflexivity|]. split; [reflexivity|].
  apply (url_encode_shape (String (ascii_of_nat 255) EmptyString)). reflexivity.
Defined.

Lemma lightning_scheme_ignored_witness :
  _lnurl_decode (LC := bip173_ceiling) ("lightning:" +:+ example_lnurl)
  = _lnurl_decode (LC := bip173_ceiling) example_lnurl.
Proof.
  apply (lightning_scheme_ignored (LC := bip173_ceiling)). reflexivity.
Defined.



(** ** Letter case *)



Lemma upper_lower_char c : upper_char (lower_char c) = upper_char c.
Proof. destruct c as [[] [] [] [] [] [] [] []]; reflexivity. Qed.

Lemma str_map_map f g s : str_map f (str_map g s) = str_map (fun c => f (g c)) s.
Proof. induction s as [|c s IH]; cbn; [reflexivity | rewrite IH; reflexivity]. Qed.

Lemma str_map_ext f g s : (forall c, f c = g c) -> str_map f s = str_map g s.
Proof.
  intros H. induction s as [|c s IH]; cbn; [reflexivity | rewrite IH, H; reflexivity].
Qed.




Lemma upper_lower s : upper (lower s) = upper s.
Proof. unfold upper, lower. rewrite str_map_map. apply str_map_ext, upper_lower_char. Qed.

Lemma prefix_str_map f p s :
  String.prefix p s = true -> String.prefix (str_map f p) (str_map f s) = true.
Proof.
  revert s. induction p as [|a p IH]; intros s H; [destruct s; reflexivity|].
  destruct s as [|c s]; [discriminate|]. simpl in H |- *.
  destruct (ascii_dec a c) as [->|]; [|discriminate].
  destruct (ascii_dec (f c) (f c)); [apply IH, H | contradiction].
Qed.


Section Case.
Context `{LC : LengthCeiling}.


Lemma bech32_decode_pair s :
  bech32_decode s = (None, None)
  \/ exists h d, bech32_decode s = (Some h, Some d).
Proof.
  unfold bech32_decode.
  repeat match goal with
         | |- context [if ?b then (None, None) else _] => destruct b; [left; reflexivity|]
         end.
  right. eauto.
Qed.


(** X16.  [_bech32_decode] returns a pair exactly when bech32 decoding gave it
    and its prefix is allowed; no set of allowed prefixes, or an empty one,
    allows every prefix. *)
Theorem allowed_prefixes bech allowed h d :
  (_bech32_decode bech allowed = Ok (h, d) <->
   bech32_decode bech = (Some h, Some d)
   /\ match allowed with
      | Some ((_ :: _) as l) => In h l
      | _ => True
      end)
  /\ _bech32_decode bech (Some []) = _bech32_decode bech None.
Proof.
  split; [|reflexivity].
  unfold _bech32_decode.
  destruct (bech32_decode_pair bech) as [-> | (h' & d' & ->)].
  - split; [discriminate | intros [[=] _]].
  - destruct allowed as [[|a l]|].
    + split; [intros [= -> ->]; auto | intros [[= -> ->] _]; reflexivity].
    + destruct (existsb (String.eqb h') (a :: l)) eqn:He; cbn [negb].
      * apply existsb_exists in He as (x & Hx & Heq). apply String.eqb_eq in Heq. subst x.
        split; [intros [= -> ->]; auto | intros [[= -> ->] _]; reflexivity].
      * split; [discriminate|]. intros [[= -> ->] Hin].
        assert (existsb (String.eqb h) (a :: l) = true) as Ht.
        { apply existsb_exists. exists h. split; [exact Hin | apply String.eqb_refl]. }
        congruence.
    + split; [intros [= -> ->]; auto | intros [[= -> ->] _]; reflexivity].
Qed.

End Case.


Lemma allowed_prefixes_witness :
  let data := [0; 14; 20; 15; 7; 13; 26; 0; 25; 18; 6; 11; 13; 8; 21; 4; 20; 3; 17; 2; 29;
               3; 12; 29; 3; 4; 15; 24; 20; 6; 14; 30; 22] in
  _bech32_decode (LC := bip173_ceiling) example_address (Some []) = Ok ("bc", data).
Proof.
  intros data.
  destruct (allowed_prefixes (LC := bip173_ceiling) example_address (Some []) "bc" data)
    as [[_ H] _].
  apply H. split; [reflexivity | exact I].
Defined.

(** ** One wrong symbol *)

Lemma feedback_top x : feedback x = feedback (Z.shiftl (Z.shiftr x 25) 25).
Proof.
  unfold feedback.
  assert (H : forall i, 25 <= i ->
                        Z.testbit (Z.shiftl (Z.shiftr x 25) 25) i = Z.testbit x i).
  { intros i Hi. rewrite Z.shiftl_spec, Z.shiftr_spec by lia. f_equal. lia. }
  rewrite !H by lia. reflexivity.
Qed.

Lemma low_bits_lxor y f : Z.lxor (Z.shiftl y 5) f mod 32 = f mod 32.
Proof.
  change 32 with (2 ^ 5). apply Z.bits_inj'. intros n Hn.
  destruct (Z.lt_ge_cases n 5) as [Hlt|Hge].
  - rewrite !Z.mod_pow2_bits_low, Z.lxor_spec, Z.shiftl_spec_low by lia. reflexivity.
  - rewrite !Z.mod_pow2_bits_high by lia. reflexivity.
Qed.

Lemma feedback_low_zero t :
  0 <= t < 32 -> feedback (Z.shiftl t 25) mod 32 = 0 -> t = 0.
Proof.
  intros Ht H.
  assert (Hb : (implb (feedback (Z.shiftl t 25) mod 32 =? 0) (t =? 0)) = true).
  { clear H. revert t Ht.
    apply (forall_symbols (fun t => implb (feedback (Z.shiftl t 25) mod 32 =? 0) (t =? 0))).
    vm_compute. reflexivity. }
  rewrite H in Hb. cbn in Hb. apply Z.eqb_eq, Hb.
Qed.

(** [advance] sends no state but 0 to 0. *)
Lemma advance_kernel x : 0 <= x < 2 ^ 30 -> advance x = 0 -> x = 0.
Proof.
  intros Hx H.
  assert (Htop : 0 <= Z.shiftr x 25 < 32).
  { rewrite Z.shiftr_div_pow2 by lia. split.
    - apply Z.div_pos; lia.
    - apply Z.div_lt_upper_bound; lia. }
  assert (Hz : Z.shiftr x 25 = 0).
  { apply feedback_low_zero; [exact Htop|].
    rewrite <- feedback_top. unfold advance in H.
    rewrite <- (low_bits_lxor (Z.land x 0x1ffffff) (feedback x)), H. reflexivity. }
  assert (Hsmall : 0 <= x < 2 ^ 25).
  { rewrite Z.shiftr_div_pow2 in Hz by lia.
    pose proof (Z.div_mod x (2 ^ 25) ltac:(lia)).
    pose proof (Z.mod_pos_bound x (2 ^ 25) ltac:(lia)). lia. }
  rewrite (advance_small x Hsmall), Z.shiftl_mul_pow2 in H by lia. lia.
Qed.

Lemma iter_advance_kernel n x :
  0 <= x < 2 ^ 30 -> Nat.iter n advance x = 0 -> x = 0.
Proof.
  intros Hx. induction n as [|n IH]; [exact (fun H => H)|].
  rewrite Nat.iter_succ. intros H. apply IH.
  apply advance_kernel; [|exact H].
  destruct n; [exact Hx | rewrite Nat.iter_succ; apply advance_range].
Qed.

(** Two strings of symbols that differ in one place do not both pass the
    checksum. *)
Lemma one_symbol_detected hrp l1 a b l2 :
  0 <= a < 32 -> 0 <= b < 32 -> a <> b ->
  bech32_verify_checksum hrp (l1 ++ a :: l2) = true ->
  bech32_verify_checksum hrp (l1 ++ b :: l2) = false.
Proof.
  intros Ha Hb Hab. unfold bech32_verify_checksum, bech32_polymod.
  rewrite !app_assoc, !(fold_left_app _ _ (_ :: l2)). cbn [fold_left].
  set (s := fold_left polymod_step (bech32_hrp_expand hrp ++ l1) 1).
  rewrite (polymod_fold_linear l2 (polymod_step s a)),
    (polymod_fold_linear l2 (polymod_step s b)), !polymod_step_advance.
  intros H1. apply Z.eqb_eq in H1. apply Z.eqb_neq. intros H2.
  assert (Hx : Nat.iter (length l2) advance (Z.lxor a b) = 0).
  { replace (Z.lxor a b) with (Z.lxor (Z.lxor (advance s) a) (Z.lxor (advance s) b))
      by lxor_ac.
    rewrite iter_advance_lxor.
    set (u := Nat.iter (length l2) advance (Z.lxor (advance s) a)) in *.
    set (v := Nat.iter (length l2) advance (Z.lxor (advance s) b)) in *.
    set (w := fold_left polymod_step l2 0) in *.
    replace (Z.lxor u v) with (Z.lxor (Z.lxor u w) (Z.lxor v w)) by lxor_ac.
    rewrite H1, H2. reflexivity. }
  apply iter_advance_kernel in Hx.
  - apply Z.lxor_eq in Hx. contradiction.
  - pose proof (lxor_range 5 a b ltac:(lia) ltac:(lia) ltac:(lia)). lia.
Qed.



(** ** What a decoded string looks like *)

Lemma rfind_from_split c s i last :
  (without c s = true /\ rfind_from c s i last = last)
  \/ exists s1 s2,
       s = s1 +:+ String c s2 /\ without c s2 = true
       /\ rfind_from c s i last = i + Z.of_nat (String.length s1).
Proof.
  revert i last. induction s as [|a s IH]; intros i last.
  - left. split; reflexivity.
  - cbn [rfind_from].
    destruct (IH (i + 1) (if Ascii.eqb a c then i else last))
      as [[Hw Hr] | (s1 & s2 & -> & Hw & Hr)].
    + destruct (Ascii.eqb a c) eqn:Hac.
      * right. apply Ascii.eqb_eq in Hac. subst a. exists "", s.
        split; [reflexivity|]. split; [exact Hw|]. rewrite Hr. cbn. lia.
      * left. split; [|exact Hr]. unfold without in *. cbn. rewrite Hac, Hw. reflexivity.
    + right. exists (String a s1), s2. split; [reflexivity|]. split; [exact Hw|].
      rewrite Hr. cbn [String.length]. lia.
Qed.

Lemma str_take_app s1 s2 : str_take (String.length s1) (s1 +:+ s2) = s1.
Proof.
  induction s1 as [|a s1 IH]; simpl; [destruct s2; reflexivity | f_equal; exact IH].
Qed.

Lemma str_drop_app s1 s2 : str_drop (String.length s1) (s1 +:+ s2) = s2.
Proof. induction s1 as [|a s1 IH]; simpl; [destruct s2; reflexivity | exact IH]. Qed.

Lemma length_append s1 s2 :
  String.length (s1 +:+ s2) = (String.length s1 + String.length s2)%nat.
Proof. induction s1 as [|a s1 IH]; simpl; [reflexivity | f_equal; exact IH]. Qed.

Lemma str_drop_succ_app s1 c s2 :
  str_drop (S (String.length s1)) (s1 +:+ String c s2) = s2.
Proof. induction s1 as [|a s1 IH]; simpl; [reflexivity | exact IH]. Qed.

Lemma without_separator c s1 s2 : without c (s1 +:+ String c s2) = false.
Proof.
  unfold without. induction s1 as [|a s1 IH].
  - change ("" +:+ String c s2) with (String c s2). cbn [str_forallb].
    rewrite Ascii.eqb_refl. reflexivity.
  - change (String a s1 +:+ String c s2) with (String a (s1 +:+ String c s2)).
    cbn [str_forallb]. rewrite IH. apply andb_false_r.
Qed.

(** A string is cut at its last [c] in one way only. *)
Lemma split_unique c s1 r1 s2 r2 :
  without c r1 = true -> without c r2 = true ->
  s1 +:+ String c r1 = s2 +:+ String c r2 -> s1 = s2 /\ r1 = r2.
Proof.
  intros H1 H2. revert s2. induction s1 as [|a s1 IH]; intros s2 H.
  - destruct s2 as [|b s2].
    + change (String c r1 = String c r2) in H. injection H as ->. auto.
    + change (String c r1 = String b (s2 +:+ String c r2)) in H.
      injection H as <- ->. rewrite without_separator in H1. discriminate.
  - destruct s2 as [|b s2].
    + change (String a (s1 +:+ String c r1) = String c r2) in H.
      injection H as -> <-. rewrite without_separator in H2. discriminate.
    + change (String a (s1 +:+ String c r1) = String b (s2 +:+ String c r2)) in H.
      injection H as -> H. destruct (IH s2 H) as [-> ->]. auto.
Qed.

Lemma charset_without_separator s :
  str_forallb (contains CHARSET) s = true -> without "1" s = true.
Proof.
  unfold without. induction s as [|a s IH]; [reflexivity|]. cbn.
  intros H. apply andb_prop in H as [Ha Hs]. rewrite (IH Hs), andb_true_r.
  destruct (Ascii.eqb a "1") eqn:E; [|reflexivity].
  apply Ascii.eqb_eq in E. subst a. discriminate Ha.
Qed.

Section Inversion.
Context `{LC : LengthCeiling}.

(** What [bech32_decode] has checked when it returns a pair. *)
Lemma bech32_decode_inv bech h d :
  bech32_decode bech = (Some h, Some d) ->
  exists rest,
    lower bech = h +:+ String "1" rest
    /\ mixed_case bech = false
    /\ too_long (len (lower bech)) = false
    /\ (1 <= String.length h)%nat /\ (6 <= String.length rest)%nat
    /\ str_forallb (contains CHARSET) rest = true
    /\ bech32_verify_checksum h (map (find CHARSET) (list_ascii_of_string rest)) = true
    /\ d = firstn (String.length rest - 6) (map (find CHARSET) (list_ascii_of_string rest)).
Proof.
  unfold bech32_decode. fold visible. fold (mixed_case bech).
  destruct (negb (str_forallb visible bech)); [discriminate|]. cbn [orb].
  destruct (mixed_case bech) eqn:Hm; [discriminate|].
  set (b := lower bech).
  destruct (rfind_from_split "1" b 0 (-1)) as [[_ Hr] | (s1 & s2 & Hb & Hw & Hr)];
    unfold rfind; rewrite Hr.
  - discriminate.
  - rewrite Z.add_0_l.
    destruct ((_ <? 1) || _ || _) eqn:Hc; [discriminate|].
    apply orb_false_elim in Hc as [Hc Hlong]. apply orb_false_elim in Hc as [Hpos Hlen].
    apply Z.ltb_ge in Hpos. rewrite Z.gtb_ltb in Hlen. apply Z.ltb_ge in Hlen.
    replace (Z.to_nat (Z.of_nat (String.length s1) + 1)) with (S (String.length s1)) by lia.
    rewrite Nat2Z.id. rewrite Hb, str_drop_succ_app, str_take_app.
    destruct (negb (str_forallb (contains CHARSET) s2)) eqn:Hcs; [discriminate|].
    apply negb_false_iff in Hcs.
    destruct (negb (bech32_verify_checksum _ _)) eqn:Hv; [discriminate|].
    apply negb_false_iff in Hv.
    intros [= <- <-]. exists s2. split; [reflexivity|]. split; [reflexivity|].
    rewrite <- Hb. split; [exact Hlong|].
    unfold len in Hlen. rewrite Hb, length_append in Hlen. cbn [String.length] in Hlen.
    split; [lia|]. split; [lia|]. split; [exact Hcs|]. split; [exact Hv|].
    rewrite length_map.
    replace (length (list_ascii_of_string s2)) with (String.length s2); [reflexivity|].
    clear. induction s2 as [|a s IH]; cbn; [reflexivity | rewrite IH; reflexivity].
Qed.

End Inversion.



Lemma str_map_set f s i c : str_map f (str_set s i c) = str_set (str_map f s) i (f c).
Proof.
  revert i. induction s as [|a s IH]; intros [|i]; cbn [str_set str_map]; try reflexivity.
  rewrite IH. reflexivity.
Qed.

Lemma str_map_get f s i a :
  String.get i s = Some a -> String.get i (str_map f s) = Some (f a).
Proof.
  revert i. induction s as [|b s IH]; intros [|i]; cbn [String.get str_map]; try discriminate.
  - intros [= ->]. reflexivity.
  - apply IH.
Qed.

(** The string around one of its characters. *)
Lemma get_split s i a c :
  String.get i s = Some a ->
  exists s1 s2,
    s = s1 +:+ String a s2 /\ String.length s1 = i
    /\ str_set s i c = s1 +:+ String c s2.
Proof.
  revert i. induction s as [|b s IH]; intros [|i]; cbn [String.get]; try discriminate.
  - intros [= ->]. exists "", s. repeat split.
  - intros H. destruct (IH i H) as (s1 & s2 & -> & Hl & Hs).
    exists (String b s1), s2. split; [reflexivity|]. split; [cbn; lia|].
    cbn [str_set]. rewrite Hs. reflexivity.
Qed.

Lemma get_app_r s1 s2 i :
  String.get (String.length s1 + i) (s1 +:+ s2) = String.get i s2.
Proof.
  induction s1 as [|a s1 IH]; [reflexivity|].
  change (String a s1 +:+ s2) with (String a (s1 +:+ s2)). cbn [String.length Nat.add String.get].
  exact IH.
Qed.

Lemma set_app_r s1 s2 i c :
  str_set (s1 +:+ s2) (String.length s1 + i) c = s1 +:+ str_set s2 i c.
Proof.
  induction s1 as [|a s1 IH]; [reflexivity|].
  change (String a s1 +:+ s2) with (String a (s1 +:+ s2)). cbn [String.length Nat.add str_set].
  rewrite IH. reflexivity.
Qed.

Lemma chars_app s1 s2 :
  list_ascii_of_string (s1 +:+ s2) = list_ascii_of_string s1 ++ list_ascii_of_string s2.
Proof.
  induction s1 as [|a s1 IH]; [reflexivity|].
  change (String a s1 +:+ s2) with (String a (s1 +:+ s2)). cbn [list_ascii_of_string app].
  rewrite IH. reflexivity.
Qed.

Lemma str_forallb_app p s1 s2 :
  str_forallb p (s1 +:+ s2) = str_forallb p s1 && str_forallb p s2.
Proof.
  induction s1 as [|a s1 IH]; [reflexivity|].
  change (String a s1 +:+ s2) with (String a (s1 +:+ s2)). cbn [str_forallb].
  rewrite IH. apply andb_assoc.
Qed.

(** A character of the alphabet is the character of its own index. *)
Lemma charset_symbol c :
  contains CHARSET c = true ->
  0 <= find CHARSET c < 32 /\ symbol_char (find CHARSET c) = c.
Proof.
  destruct c as [[] [] [] [] [] [] [] []]; intros H; try discriminate H;
    (split; [split; [apply Z.leb_le | apply Z.ltb_lt]; reflexivity | reflexivity]).
Qed.

Section Substitution.
Context `{LC : LengthCeiling}.

(** What [_lnurl_decode] has found when it returns a URL. *)
Lemma lnurl_decode_inv s url :
  _lnurl_decode s = Ok url ->
  exists data bs,
    bech32_decode (stripped s) = (Some "lnurl", Some data)
    /\ convertbits data 5 8 false = Some bs
    /\ utf8_valid bs = true /\ url = bytes_str bs.
Proof.
  unfold _lnurl_decode, _bech32_decode.
  destruct (bech32_decode_pair (stripped s)) as [-> | (h & d & ->)]; [discriminate|].
  cbn [existsb orb]. destruct (String.eqb h "lnurl") eqn:Hh; cbn [negb orb]; [|discriminate].
  apply String.eqb_eq in Hh. subst h. cbn [bind].
  destruct (convertbits d 5 8 false) as [bs|] eqn:Hc; [|discriminate].
  unfold bytes. destruct (forallb _ bs); [|discriminate]. cbn [bind].
  unfold decode_utf8. destruct (utf8_valid bs) eqn:Hv; [|discriminate].
  intros [= <-]. eauto 6.
Qed.

(** X17.  A string that decodes, with one character of its data part replaced
    by another character of the bech32 alphabet, in either case: the checksum
    no longer verifies, and the string is refused with the message of an
    invalid prefix. *)
Theorem one_character_detected s url i a c :
  startswith s "lightning:" = false ->
  _lnurl_decode s = Ok url ->
  (6 <= i)%nat -> String.get i s = Some a ->
  contains CHARSET (lower_char c) = true -> lower_char c <> lower_char a ->
  _lnurl_decode (str_set s i c)
  = Raise (ValueError "Invalid Human Readable Prefix (HRP): None.").
Proof.
  intros Hstart Hdec Hi Hget Hc Hne.
  apply lnurl_decode_inv in Hdec as (data & bs & Hb & _).
  unfold stripped in Hb. rewrite Hstart in Hb.
  apply bech32_decode_inv in Hb
    as (rest & Hlower & _ & _ & _ & _ & Hrest & Hsum & _).
  (* the changed character is a character of the data part *)
  apply (str_map_get lower_char) in Hget. fold (lower s) in Hget.
  replace i with (String.length "lnurl1" + (i - 6))%nat in Hget
    by (cbn [String.length]; lia).
  change ("lnurl" +:+ String "1" rest) with ("lnurl1" +:+ rest) in Hlower.
  rewrite Hlower, get_app_r in Hget.
  destruct (get_split rest (i - 6) (lower_char a) (lower_char c) Hget)
    as (r1 & r2 & Hr & Hlen & Hset).
  assert (Hlower' : lower (str_set s i c)
                    = "lnurl" +:+ String "1" (r1 +:+ String (lower_char c) r2)).
  { unfold lower. rewrite str_map_set. fold (lower s). rewrite Hlower.
    replace i with (String.length "lnurl1" + (i - 6))%nat at 1
      by (cbn [String.length]; lia).
    rewrite set_app_r, Hset. reflexivity. }
  rewrite Hr, str_forallb_app in Hrest. cbn [str_forallb] in Hrest.
  apply andb_prop in Hrest as [Hr1 Hr2]. apply andb_prop in Hr2 as [Ha Hr2].
  assert (Hrest' : str_forallb (contains CHARSET) (r1 +:+ String (lower_char c) r2) = true).
  { rewrite str_forallb_app. cbn [str_forallb]. rewrite Hr1, Hc, Hr2. reflexivity. }
  (* so the checksum fails *)
  assert (Hfail : bech32_verify_checksum "lnurl"
                    (map (find CHARSET)
                       (list_ascii_of_string (r1 +:+ String (lower_char c) r2))) = false).
  { rewrite chars_app, map_app. cbn [list_ascii_of_string map].
    rewrite Hr, chars_app, map_app in Hsum. cbn [list_ascii_of_string map] in Hsum.
    destruct (charset_symbol _ Ha) as [Hra Hsa], (charset_symbol _ Hc) as [Hrc Hsc].
    eapply one_symbol_detected; [exact Hra | exact Hrc | | exact Hsum].
    intros E. apply Hne. rewrite <- Hsa, <- Hsc, E. reflexivity. }
  (* and the string is not decoded *)
  apply lnurl_decode_bech32_failure.
  assert (Hstart' : startswith (str_set s i c) "lightning:" = false).
  { destruct (startswith (str_set s i c) "lightning:") eqn:H; [|reflexivity].
    unfold startswith in H. apply (prefix_str_map lower_char) in H.
    fold (lower (str_set s i c)) in H. rewrite Hlower' in H.
    change (str_map lower_char "lightning:") with "lightning:" in H.
    apply prefix_correct in H. discriminate H. }
  unfold stripped. rewrite Hstart'.
  destruct (bech32_decode_pair (str_set s i c)) as [H | (h' & d' & H)]; [exact H|].
  exfalso. apply bech32_decode_inv in H
    as (rest' & Hl & _ & _ & _ & _ & Hcs & Hsum' & _).
  rewrite Hlower' in Hl.
  apply split_unique in Hl as [<- <-];
    [| apply charset_without_separator, Hrest' | apply charset_without_separator, Hcs].
  congruence.
Qed.

End Substitution.

Lemma one_character_detected_witness :
  _lnurl_decode (LC := bip173_ceiling) (str_set example_lnurl 10 "Q")
  = Raise (ValueError "Invalid Human Readable Prefix (HRP): None.").
Proof.
  apply (one_character_detected (LC := bip173_ceiling) example_lnurl example_url 10 "G" "Q");
    try reflexivity; try lia.
  intros H; vm_compute in H; discriminate H.
Defined.

(** ** Decoding, then encoding *)

(** Six symbols absorbed from the state 0 leave the number they write. *)
Lemma six_symbols_absorbed cs :
  length cs = 6%nat -> groups 5 cs -> fold_left polymod_step cs 0 = val 5 cs.
Proof.
  intros Hlen Hcs.
  destruct cs as [|c0 [|c1 [|c2 [|c3 [|c4 [|c5 [|]]]]]]]; try discriminate Hlen.
  repeat match goal with
         | H : groups 5 (_ :: _) |- _ => inversion H; subst; clear H
         | H : Forall _ (_ :: _) |- _ => inversion H; subst; clear H
         end.
  change (2 ^ 5) with 32 in *.
  unfold val, val_from. cbn [fold_left]. change (2 ^ 5) with 32.
  rewrite (absorb_symbol 0 c0) by lia.
  rewrite (absorb_symbol _ c1) by lia.
  rewrite (absorb_symbol _ c2) by lia.
  rewrite (absorb_symbol _ c3) by lia.
  rewrite (absorb_symbol _ c4) by lia.
  rewrite (absorb_symbol _ c5) by lia.
  reflexivity.
Qed.

(** A data part has one checksum only. *)
Lemma checksum_unique hrp data cs :
  length cs = 6%nat -> groups 5 cs ->
  bech32_verify_checksum hrp (data ++ cs) = true ->
  cs = bech32_create_checksum hrp data.
Proof.
  intros Hlen Hcs Hv.
  pose proof (checksum_verifies hrp data) as Hv'.
  unfold bech32_verify_checksum, bech32_polymod in Hv, Hv'.
  rewrite app_assoc, fold_left_app, polymod_fold_linear in Hv, Hv'.
  rewrite checksum_length in Hv'. rewrite Hlen in Hv.
  apply Z.eqb_eq in Hv, Hv'.
  rewrite !six_symbols_absorbed in Hv, Hv'
    by (assumption || apply checksum_length || apply checksum_groups).
  set (P := Nat.iter 6 advance _) in Hv, Hv'. clearbody P.
  assert (Hv2 : val 5 cs = val 5 (bech32_create_checksum hrp data)).
  { rewrite <- (Z.lxor_0_l (val 5 cs)), <- (Z.lxor_0_l (val 5 (bech32_create_checksum _ _))).
    rewrite <- (Z.lxor_nilpotent P), !Z.lxor_assoc, Hv, Hv'. reflexivity. }
  apply (val_inj 5); [lia | assumption | apply checksum_groups | | exact Hv2].
  rewrite checksum_length. exact Hlen.
Qed.

(** What [convertbits] has read when it returns bytes for 5 bit groups. *)
Lemma convertbits_5_8_inv data bs :
  groups 5 data -> convertbits data 5 8 false = Some bs ->
  groups 8 bs /\ exists p,
    0 <= p < 5 /\ 5 * Z.of_nat (length data) = 8 * Z.of_nat (length bs) + p
    /\ val 5 data = val 8 bs * 2 ^ p.
Proof.
  intros Hdata. unfold convertbits.
  destruct (convert_loop_spec 5 8 ltac:(lia) ltac:(lia) data 0 0 0 0 [] Hdata
                              (regrouped_init 5 8) ltac:(lia))
    as (acc & bits & ret & -> & Hinv & Hlt).
  fold (val 5 data) in Hinv. rewrite Z.add_0_l in Hinv.
  pose proof (padding_spec 5 8 ltac:(lia) ltac:(lia) _ _ _ _ _ Hinv Hlt) as Hpad.
  destruct Hinv as (Hb & HT & Hval & _ & Hgr).
  destruct (bits >=? 5) eqn:Hge; [discriminate|]. cbn [orb].
  rewrite Z.geb_leb in Hge. apply Z.leb_gt in Hge.
  destruct (Z.land _ _ =? 0) eqn:Hz; [|discriminate]. cbn [negb].
  intros [= <-]. split; [exact Hgr|]. exists bits.
  split; [lia|]. split; [lia|].
  apply Z.eqb_eq in Hz. rewrite Hz in Hpad.
  assert (Hpb : 0 < 2 ^ bits) by (apply Z.pow_pos_nonneg; lia).
  assert (Hpp : 0 < 2 ^ (8 - bits)) by (apply Z.pow_pos_nonneg; lia).
  assert (Hm : val 5 data mod 2 ^ bits = 0) by nia.
  rewrite Hval. pose proof (Z.div_mod (val 5 data) (2 ^ bits) ltac:(lia)). lia.
Qed.

(** Groups that [convertbits] turns into bytes are the groups it makes of
    these bytes. *)
Lemma convertbits_back data bs :
  groups 5 data -> convertbits data 5 8 false = Some bs ->
  groups 8 bs /\ convertbits bs 8 5 true = Some data.
Proof.
  intros Hdata Hc.
  destruct (convertbits_5_8_inv data bs Hdata Hc) as (Hbs & p & Hp & Hlen & Hval).
  split; [exact Hbs|].
  destruct (convertbits_8_5 bs Hbs) as (data' & p' & -> & Hdata' & Hp' & Hlen' & Hval').
  f_equal.
  assert (p' = p /\ length data' = length data) as [-> Hl] by lia.
  apply (val_inj 5); [lia | assumption | assumption | exact Hl | congruence].
Qed.

Lemma ord_chr b : 0 <= b < 256 -> ord (chr b) = b.
Proof.
  intros Hb. unfold ord, chr. rewrite N_ascii_embedding; [lia|].
  change 256%N with (Z.to_N 256). lia.
Qed.

Lemma str_bytes_bytes_str bs : groups 8 bs -> str_bytes (bytes_str bs) = bs.
Proof.
  unfold str_bytes, bytes_str. rewrite list_ascii_of_string_of_list_ascii.
  induction 1 as [|b bs Hb _ IH]; [reflexivity|].
  cbn [map]. rewrite IH, ord_chr; [reflexivity|]. change (2 ^ 8) with 256 in Hb. exact Hb.
Qed.

Lemma charset_chars cs :
  forallb (contains CHARSET) cs = true ->
  groups 5 (map (find CHARSET) cs) /\ map symbol_char (map (find CHARSET) cs) = cs.
Proof.
  induction cs as [|c cs IH]; [split; [constructor | reflexivity]|].
  cbn [forallb map]. intros H. apply andb_prop in H as [Hc Hcs].
  destruct (IH Hcs) as [Hg Hm], (charset_symbol c Hc) as [Hr Hs].
  split; [constructor; [exact Hr | exact Hg] | rewrite Hm, Hs; reflexivity].
Qed.

Lemma str_forallb_chars p s : str_forallb p s = forallb p (list_ascii_of_string s).
Proof. induction s as [|c s IH]; cbn; [reflexivity | rewrite IH; reflexivity]. Qed.

Section Canonical.
Context `{LC : LengthCeiling}.

(** X18.  Decoding and encoding again gives the upper case form of the string
    that was decoded, the scheme taken off. *)
Theorem decoded_encodes_back s url :
  _lnurl_decode s = Ok url -> _url_encode url = Ok (upper (stripped s)).
Proof.
  intros Hdec.
  apply lnurl_decode_inv in Hdec as (data & bs & Hb & Hconv & Hutf & ->).
  apply bech32_decode_inv in Hb
    as (rest & Hlower & _ & _ & _ & Hlen & Hrest & Hsum & Hdata).
  rewrite str_forallb_chars in Hrest.
  destruct (charset_chars _ Hrest) as [Hg Hchars].
  set (all := map (find CHARSET) (list_ascii_of_string rest)) in *.
  assert (Hall : length all = String.length rest).
  { unfold all. rewrite length_map, <- length_of_list, string_of_list_ascii_of_string.
    reflexivity. }
  rewrite <- Hall in Hdata, Hlen.
  pose proof (firstn_skipn (length all - 6) all) as Hsplit. rewrite <- Hdata in Hsplit.
  set (cs := skipn (length all - 6) all) in *.
  assert (Hgd : groups 5 data /\ groups 5 cs).
  { rewrite <- Hsplit in Hg. apply Forall_app in Hg. exact Hg. }
  destruct Hgd as [Hgd Hgc].
  assert (Hcs : cs = bech32_create_checksum "lnurl" data).
  { apply checksum_unique; [unfold cs; rewrite length_skipn; lia | exact Hgc |].
    rewrite Hsplit. exact Hsum. }
  destruct (convertbits_back data bs Hgd Hconv) as [Hbs Hback].
  unfold _url_encode, encode_utf8.
  rewrite (str_bytes_bytes_str bs Hbs), Hutf. cbn [bind]. rewrite Hback.
  rewrite (bech32_encode_symbols "lnurl" data Hgd), <- Hcs, Hsplit, Hchars.
  rewrite string_of_list_ascii_of_string.
  change ("lnurl" +:+ "1" +:+ rest) with ("lnurl" +:+ String "1" rest).
  rewrite <- Hlower, upper_lower. reflexivity.
Qed.

End Canonical.



Lemma decoded_encodes_back_witness :
  _url_encode example_url
  = Ok (upper (stripped
          "lightning:lnurl1dp68gurn8ghj7um9wfmxjcm99e5k7telwy7nxenrxvmrgdtzxsenjcm98pjnwxq96s9")).
Proof.
  apply (decoded_encodes_back (LC := bip173_ceiling)). reflexivity.
Defined.
